(** * DataBuffer: a memory tier backed by a disk tier

    A shallow embedding of [maidsafe::data_store::DataBuffer<Key>]
    (include/maidsafe/data_store/data_buffer.h) and the properties of it
    that the specification of the buffer relies on.

    The buffer is shared by the calling threads and by one background
    worker, [CopyQueueToDisk].  The embedding follows the code at the grain
    of its suspension points: a thread runs from where it is to the place
    where it returns, throws, or blocks in a [condition_variable::wait].
    All mutexes are free at each of these places, so every run of the model
    is a run of the program in which the scheduled thread is simply not
    preempted between two suspension points.  Real executions interleave
    more finely; they are not needed for what follows.  There are two
    places where a thread stops for ever with a mutex in its hands: the loop
    of [WaitForSpaceOnDisk] when the pop functor finds nothing to pop, and
    [worker_.get()] in [StoreInMemory] while the worker has not finished.
    The model records such a stop and goes no further.

    Unsigned 64-bit counters are integers reduced modulo [2^64].  The
    [assert]s of the source are no-ops, as in a release build.  The
    destructor and the specialisation of [GetFilename] for
    [DataNameVariant], which the header only declares, are left out. *)

From Stdlib Require Import ZArith Ascii String List Bool Lia.
From stdpp Require Import base option list gmap strings.

#[local] Open Scope Z_scope.

(** ** Data model *)

(** [Key] is the template parameter.  The default [GetFilename] and
    [DebugKeyName] pass the key to [HexEncode], so the key is a byte string.
    [Value] is [NonEmptyString]. *)
Abbreviation Key := string (only parsing).
Abbreviation Value := string (only parsing).

(** [value.string().size()] *)
Definition size (value : Value) : Z := Z.of_nat (String.length value).

(** Arithmetic on [uint64_t]. *)
Definition wrap64 (z : Z) : Z := z mod 2 ^ 64.

Inductive StoringState : Type :=
| kNotStarted
| kStarted
| kCancelled
| kCompleted.

Definition StoringState_eqb (a b : StoringState) : bool :=
  match a, b with
  | kNotStarted, kNotStarted | kStarted, kStarted
  | kCancelled, kCancelled | kCompleted, kCompleted => true
  | _, _ => false
  end.

(** The members of [CommonErrors] that the buffer throws. *)
Inductive CommonErrors : Type :=
| invalid_parameter
| uninitialised
| cannot_exceed_limit
| filesystem_io_error
| no_such_element.

Module MemoryElement.

Record t : Type := make { key : Key; value : Value; also_on_disk : StoringState }.

(** The constructor of the source: a new element has not started to be
    copied to disk. *)
Definition create (key_in : Key) (value_in : Value) : t :=
  make key_in value_in kNotStarted.

Definition set_also_on_disk (s : StoringState) (e : t) : t :=
  make (key e) (value e) s.

End MemoryElement.

Module DiskElement.

Record t : Type := make { key : Key; state : StoringState }.

Definition create (key_in : Key) : t := make key_in kStarted.

Definition set_state (s : StoringState) (e : t) : t := make (key e) s.

End DiskElement.

Abbreviation MemoryIndex := (list MemoryElement.t) (only parsing).
Abbreviation DiskIndex := (list DiskElement.t) (only parsing).

(** [Storage<UsageType, IndexType>], without its mutex and condition
    variable. *)
Module Storage.

Record t (IndexType : Type) : Type :=
  make { max : Z; current : Z; index : IndexType }.

Arguments make {IndexType} _ _ _.
Arguments max {IndexType} _.
Arguments current {IndexType} _.
Arguments index {IndexType} _.

Definition create {IndexType} (max_in : Z) (empty : IndexType) : t IndexType :=
  make max_in 0 empty.

Definition set_max {I} (m : Z) (s : t I) : t I := make m (current s) (index s).

Definition set_current {I} (c : Z) (s : t I) : t I := make (max s) c (index s).

Definition set_index {I} (i : I) (s : t I) : t I := make (max s) (current s) i.

End Storage.

(** [std::future<void> worker_]: the task is still running, has returned,
    has ended with an exception, or its result has been taken by [get()]
    (the future is no longer [valid()]). *)
Inductive Future : Type :=
| Pending
| ReadyReturned
| ReadyThrew (e : CommonErrors)
| Invalid.

(** The members of the class, and the part of the file system it works on.
    [kPopFunctor_] records whether a functor was given; [popped] lists the
    calls made to it, oldest first.  [files] maps a path to the content of
    the file there; [directory_ok] tells whether [kDiskBuffer_] exists and
    is writable, which is when [WriteFile] succeeds. *)
Record DataBuffer : Type := mkDataBuffer {
  memory_store_ : Storage.t MemoryIndex;
  disk_store_ : Storage.t DiskIndex;
  kPopFunctor_ : bool;
  popped : list (Key * Value);
  kDiskBuffer_ : string;
  files : gmap string Value;
  directory_ok : bool;
  running_ : bool;
  worker_ : Future
}.

Definition set_memory_store (m : Storage.t MemoryIndex) (b : DataBuffer) : DataBuffer :=
  mkDataBuffer m (disk_store_ b) (kPopFunctor_ b) (popped b) (kDiskBuffer_ b)
               (files b) (directory_ok b) (running_ b) (worker_ b).

Definition set_disk_store (d : Storage.t DiskIndex) (b : DataBuffer) : DataBuffer :=
  mkDataBuffer (memory_store_ b) d (kPopFunctor_ b) (popped b) (kDiskBuffer_ b)
               (files b) (directory_ok b) (running_ b) (worker_ b).

Definition set_popped (p : list (Key * Value)) (b : DataBuffer) : DataBuffer :=
  mkDataBuffer (memory_store_ b) (disk_store_ b) (kPopFunctor_ b) p (kDiskBuffer_ b)
               (files b) (directory_ok b) (running_ b) (worker_ b).

Definition set_files (f : gmap string Value) (b : DataBuffer) : DataBuffer :=
  mkDataBuffer (memory_store_ b) (disk_store_ b) (kPopFunctor_ b) (popped b)
               (kDiskBuffer_ b) f (directory_ok b) (running_ b) (worker_ b).

Definition set_directory_ok (d : bool) (b : DataBuffer) : DataBuffer :=
  mkDataBuffer (memory_store_ b) (disk_store_ b) (kPopFunctor_ b) (popped b)
               (kDiskBuffer_ b) (files b) d (running_ b) (worker_ b).

Definition set_running (r : bool) (b : DataBuffer) : DataBuffer :=
  mkDataBuffer (memory_store_ b) (disk_store_ b) (kPopFunctor_ b) (popped b)
               (kDiskBuffer_ b) (files b) (directory_ok b) r (worker_ b).

Definition set_worker (w : Future) (b : DataBuffer) : DataBuffer :=
  mkDataBuffer (memory_store_ b) (disk_store_ b) (kPopFunctor_ b) (popped b)
               (kDiskBuffer_ b) (files b) (directory_ok b) (running_ b) w.

(** ** File names *)

(** Modelled from the spec: the digits of [HexEncode], which is declared in
    maidsafe/common/utils.h and is not part of the sources at hand.  The
    specification calls the default encoding "a hex representation of the
    key's canonical byte form"; the digits are the lower-case ones. *)
Definition hex_digit (n : N) : ascii :=
  match n with
  | 0%N => "0" | 1%N => "1" | 2%N => "2" | 3%N => "3"
  | 4%N => "4" | 5%N => "5" | 6%N => "6" | 7%N => "7"
  | 8%N => "8" | 9%N => "9" | 10%N => "a" | 11%N => "b"
  | 12%N => "c" | 13%N => "d" | 14%N => "e" | _ => "f"
  end%char.

(** Modelled from the spec: [HexEncode], two digits for each byte of the
    key, the high one first. *)
Fixpoint HexEncode (non_hex_input : string) : string :=
  match non_hex_input with
  | EmptyString => EmptyString
  | String c rest =>
      String (hex_digit (N_of_ascii c / 16))
             (String (hex_digit (N_of_ascii c mod 16)) (HexEncode rest))
  end.

(** Modelled from the spec: the separator of [boost::filesystem::path]. *)
Definition is_separator (c : ascii) : bool := Ascii.eqb c "/"%char.

(** Modelled from the spec: whether a path ends with a separator. *)
Fixpoint ends_with_separator (p : string) : bool :=
  match p with
  | EmptyString => false
  | String c EmptyString => is_separator c
  | String _ rest => ends_with_separator rest
  end.

(** Modelled from the spec: [boost::filesystem::path::operator/], which
    the specification renders as naming a file "under the spill directory
    root".  Nothing is added for an empty right-hand side; otherwise a
    separator is put between the two parts unless one is already there. *)
Definition path_append (p q : string) : string :=
  match q with
  | EmptyString => p
  | String c _ =>
      if is_separator c then p +:+ q
      else match p with
           | EmptyString => q
           | _ => if ends_with_separator p then p +:+ q else p +:+ "/" +:+ q
           end
  end.

(** [GetFilename]: [kDiskBuffer_ / HexEncode(key)]. *)
Definition GetFilename (b : DataBuffer) (key : Key) : string :=
  path_append (kDiskBuffer_ b) (HexEncode key).

(** ** Searching the indexes *)

Definition memory_index (b : DataBuffer) : MemoryIndex := Storage.index (memory_store_ b).
Definition disk_index (b : DataBuffer) : DiskIndex := Storage.index (disk_store_ b).

(** [std::find_if]: the position of the first element that satisfies [p];
    [None] stands for the [end()] iterator. *)
Fixpoint find_if {A : Type} (p : A -> bool) (l : list A) : option nat :=
  match l with
  | [] => None
  | x :: rest => if p x then Some 0%nat else S <$> find_if p rest
  end.

(** [HasSpace]: [store.current <= store.max - required_space], on
    [uint64_t]. *)
Definition HasSpace {I : Type} (store : Storage.t I) (required_space : Z) : bool :=
  Storage.current store <=? wrap64 (Storage.max store - required_space).

(** [Find], at each of the two stores. *)
Definition Find_memory (b : DataBuffer) (key : Key) : option nat :=
  find_if (fun e => String.eqb (MemoryElement.key e) key) (memory_index b).

Definition Find_disk (b : DataBuffer) (key : Key) : option nat :=
  find_if (fun e => String.eqb (DiskElement.key e) key) (disk_index b).

Definition is_state (s : StoringState) (e : MemoryElement.t) : bool :=
  StoringState_eqb (MemoryElement.also_on_disk e) s.

Definition FindOldestInMemoryOnly (b : DataBuffer) : option nat :=
  find_if (is_state kNotStarted) (memory_index b).

Definition FindStartedToStoreOnDisk (b : DataBuffer) (key : Key) : option nat :=
  find_if (fun e => StoringState_eqb (DiskElement.state e) kStarted
                    && String.eqb (DiskElement.key e) key)
          (disk_index b).

(** [FindOldestOnDisk] is [begin()]. *)
Definition FindOldestOnDisk (b : DataBuffer) : option DiskElement.t :=
  head (disk_index b).

(** ** Small updates of the two stores *)

Definition set_memory_index (l : MemoryIndex) (b : DataBuffer) : DataBuffer :=
  set_memory_store (Storage.set_index l (memory_store_ b)) b.

Definition set_disk_index (l : DiskIndex) (b : DataBuffer) : DataBuffer :=
  set_disk_store (Storage.set_index l (disk_store_ b)) b.

Definition add_memory_current (d : Z) (b : DataBuffer) : DataBuffer :=
  set_memory_store
    (Storage.set_current (wrap64 (Storage.current (memory_store_ b) + d)) (memory_store_ b)) b.

Definition add_disk_current (d : Z) (b : DataBuffer) : DataBuffer :=
  set_disk_store
    (Storage.set_current (wrap64 (Storage.current (disk_store_ b) + d)) (disk_store_ b)) b.

(** [current -= size; index.erase(itr)] on the memory store. *)
Definition erase_memory (i : nat) (b : DataBuffer) : DataBuffer :=
  match memory_index b !! i with
  | Some e =>
      set_memory_index (delete i (memory_index b))
                       (add_memory_current (- size (MemoryElement.value e)) b)
  | None => b
  end.

(** [StopRunning]; the notifications have no state. *)
Definition StopRunning (b : DataBuffer) : DataBuffer := set_running false b.

(** ** Spill files *)

(** [WriteFile(GetFilename(key), value.string())] *)
Definition WriteFile (b : DataBuffer) (key : Key) (value : Value) : option DataBuffer :=
  if directory_ok b then Some (set_files (<[GetFilename b key := value]> (files b)) b)
  else None.

(** [ReadFile(GetFilename(key))]; it throws when the file cannot be read. *)
Definition ReadFile (b : DataBuffer) (key : Key) : CommonErrors + Value :=
  match files b !! GetFilename b key with
  | Some content => inr content
  | None => inl filesystem_io_error
  end.

(** [RemoveFile].  [file_size] fails when there is no file at the path; the
    value is read when the caller passed a non-null [value].  Nothing has
    changed when it throws. *)
Definition RemoveFile (b : DataBuffer) (key : Key) (want_value : bool)
  : CommonErrors + (DataBuffer * option Value) :=
  let path := GetFilename b key in
  match files b !! path with
  | None => inl filesystem_io_error
  | Some content =>
      inr (add_disk_current (- size content) (set_files (delete path (files b)) b),
           if want_value then Some content else None)
  end.

(** ** The worker's future *)

(** [CheckWorkerIsStillRunning]: a ready future is emptied by [get()], which
    rethrows what the worker threw; then the call throws if [running_] is
    false. *)
Definition CheckWorkerIsStillRunning (b : DataBuffer) : DataBuffer * option CommonErrors :=
  match worker_ b with
  | ReadyThrew e => (set_worker Invalid b, Some e)
  | ReadyReturned =>
      let b' := set_worker Invalid b in
      (b', if running_ b' then None else Some filesystem_io_error)
  | Pending | Invalid =>
      (b, if running_ b then None else Some filesystem_io_error)
  end.

(** ** Delete *)

(** [DeleteFromMemory] returns the new buffer and what it wrote to
    [also_on_disk].  Here and below, the position that [find_if] gives is
    always one of the list, so the lookup at it has a result; the other
    branch of the [match] is never taken. *)
Definition DeleteFromMemory (b : DataBuffer) (key : Key) : DataBuffer * StoringState :=
  match Find_memory b key with
  | Some i =>
      match memory_index b !! i with
      | Some e => (erase_memory i b, MemoryElement.also_on_disk e)
      | None => (b, kCompleted)
      end
  | None => (b, kCompleted)
  end.

Definition DeleteFromDisk (b : DataBuffer) (key : Key) : DataBuffer * option CommonErrors :=
  match Find_disk b key with
  | None => (b, Some no_such_element)
  | Some i =>
      match disk_index b !! i with
      | Some e =>
          match DiskElement.state e with
          | kStarted =>
              (set_disk_index (alter (DiskElement.set_state kCancelled) i (disk_index b)) b,
               None)
          | kCompleted =>
              match RemoveFile b (DiskElement.key e) false with
              | inl err => (b, Some err)
              | inr (b', _) => (set_disk_index (delete i (disk_index b')) b', None)
              end
          | _ => (b, None)
          end
      | None => (b, Some no_such_element)
      end
  end.

Definition Delete (b : DataBuffer) (key : Key) : DataBuffer * option CommonErrors :=
  match CheckWorkerIsStillRunning b with
  | (b0, Some e) => (b0, Some e)
  | (b0, None) =>
      let '(b1, also_on_disk) := DeleteFromMemory b0 key in
      if StoringState_eqb also_on_disk kNotStarted then (b1, None)
      else DeleteFromDisk b1 key
  end.

(** ** The disk-write path *)

Inductive DiskWait : Type :=
| DiskWaitOver (cancelled : bool)   (* [WaitForSpaceOnDisk] returned *)
| DiskWaitBlocked                   (* in [cond_var.wait] *)
| DiskWaitThrew (e : CommonErrors)
| DiskWaitSpins                     (* the loop can no longer change anything *)
| DiskWaitFuel.

(** [WaitForSpaceOnDisk], from the test of its [while].  A thread that
    comes back from [cond_var.wait] is at that test again.  With a pop
    functor each turn that does something erases the front element, so the
    length of the index bounds the number of turns; when the front element
    is not [kCompleted] a turn does nothing, under the disk mutex, and the
    loop goes on for ever. *)
Fixpoint WaitForSpaceOnDisk (fuel : nat) (b : DataBuffer) (key : Key) (required_space : Z)
  : DataBuffer * DiskWait :=
  match fuel with
  | O => (b, DiskWaitFuel)
  | S fuel' =>
      if negb (HasSpace (disk_store_ b) required_space) && running_ b then
        match Find_disk b key with
        | None => (b, DiskWaitOver true)
        | Some i =>
            match disk_index b !! i with
            | None => (b, DiskWaitOver true)
            | Some e =>
                if StoringState_eqb (DiskElement.state e) kCancelled then
                  (set_disk_index (delete i (disk_index b)) b, DiskWaitOver true)
                else if kPopFunctor_ b then
                  match FindOldestOnDisk b with
                  | Some oldest =>
                      if StoringState_eqb (DiskElement.state oldest) kCompleted then
                        match RemoveFile b (DiskElement.key oldest) true with
                        | inl err => (b, DiskWaitThrew err)
                        | inr (b1, oldest_value) =>
                            let b2 := set_disk_index (delete 0%nat (disk_index b1)) b1 in
                            let b3 :=
                              set_popped
                                (popped b2 ++
                                   [(DiskElement.key oldest, default ""%string oldest_value)])
                                b2 in
                            WaitForSpaceOnDisk fuel' b3 key required_space
                        end
                      else (b, DiskWaitSpins)
                  | None => (b, DiskWaitSpins)
                  end
                else (b, DiskWaitBlocked)
            end
        end
      else (b, DiskWaitOver false)
  end.

Inductive DiskWrite : Type :=
| DiskWriteReturned
| DiskWriteBlocked
| DiskWriteThrew (e : CommonErrors)
| DiskWriteSpins
| DiskWriteFuel.

(** [StoreOnDisk] after [WaitForSpaceOnDisk]. *)
Definition StoreOnDisk_finish (r : DataBuffer * DiskWait) (key : Key) (value : Value)
  : DataBuffer * DiskWrite :=
  let '(b, w) := r in
  match w with
  | DiskWaitOver cancelled =>
      if negb (running_ b) then (b, DiskWriteReturned)
      else if cancelled then (b, DiskWriteReturned)
      else
        match WriteFile b key value with
        | None => (StopRunning b, DiskWriteThrew filesystem_io_error)
        | Some b1 =>
            let b2 :=
              match FindStartedToStoreOnDisk b1 key with
              | Some i =>
                  set_disk_index
                    (alter (DiskElement.set_state kCompleted) i (disk_index b1)) b1
              | None => b1
              end in
            (add_disk_current (size value) b2, DiskWriteReturned)
        end
  | DiskWaitBlocked => (b, DiskWriteBlocked)
  | DiskWaitThrew e => (b, DiskWriteThrew e)
  | DiskWaitSpins => (b, DiskWriteSpins)
  | DiskWaitFuel => (b, DiskWriteFuel)
  end.

(** [StoreOnDisk] for a thread that comes back from the wait. *)
Definition StoreOnDisk_resume (b : DataBuffer) (key : Key) (value : Value)
  : DataBuffer * DiskWrite :=
  StoreOnDisk_finish
    (WaitForSpaceOnDisk (S (List.length (disk_index b))) b key (size value)) key value.

(** [StoreOnDisk] from its first line; the caller holds the disk lock. *)
Definition StoreOnDisk (b : DataBuffer) (key : Key) (value : Value)
  : DataBuffer * DiskWrite :=
  if size value >? Storage.max (disk_store_ b) then
    (StopRunning b, DiskWriteThrew cannot_exceed_limit)
  else
    StoreOnDisk_resume
      (set_disk_index (disk_index b ++ [DiskElement.create key]) b) key value.

(** ** The memory path *)

Definition isSome {A} (o : option A) : bool :=
  match o with Some _ => true | None => false end.

(** [FindMemoryRemovalCandidate]: [None] when the predicate of the wait is
    false and the thread stays in [cond_var.wait]; otherwise the iterator
    that the predicate left in [itr]. *)
Definition FindMemoryRemovalCandidate (b : DataBuffer) (required_space : Z)
  : option (option nat) :=
  let itr := find_if (is_state kCompleted) (memory_index b) in
  if isSome itr || HasSpace (memory_store_ b) required_space || negb (running_ b)
  then Some itr else None.

Inductive MemoryWait : Type :=
| MemoryWaitOver
| MemoryWaitBlocked
| MemoryWaitFuel.

(** [WaitForSpaceInMemory].  [in_wait] is false at the test of the [while]
    and true for a thread that was woken inside
    [FindMemoryRemovalCandidate], which evaluates the predicate first. *)
Fixpoint WaitForSpaceInMemory (fuel : nat) (in_wait : bool) (b : DataBuffer)
  (required_space : Z) : DataBuffer * MemoryWait :=
  match fuel with
  | O => (b, MemoryWaitFuel)
  | S fuel' =>
      if negb in_wait && HasSpace (memory_store_ b) required_space then (b, MemoryWaitOver)
      else
        match FindMemoryRemovalCandidate b required_space with
        | None => (b, MemoryWaitBlocked)
        | Some itr =>
            if negb (running_ b) then (b, MemoryWaitOver)
            else
              match itr with
              | Some i => WaitForSpaceInMemory fuel' false (erase_memory i b) required_space
              | None => WaitForSpaceInMemory fuel' false b required_space
              end
        end
  end.

Definition memory_fuel (b : DataBuffer) : nat := S (S (List.length (memory_index b))).

Inductive MemoryStore : Type :=
| WithDiskLock            (* the returned lock owns the disk mutex *)
| WithoutLock             (* an empty lock is returned *)
| MemoryStoreBlocked      (* waiting for room in memory *)
| MemoryStoreThrew (e : CommonErrors)
| MemoryStoreJoins        (* in [worker_.get()], holding the memory mutex *)
| MemoryStoreFuel.

(** [StoreInMemory] after [WaitForSpaceInMemory]. *)
Definition StoreInMemory_finish (r : DataBuffer * MemoryWait) (key : Key) (value : Value)
  : DataBuffer * MemoryStore :=
  let '(b, w) := r in
  match w with
  | MemoryWaitOver =>
      if negb (running_ b) then
        match worker_ b with
        | ReadyThrew e => (set_worker Invalid b, MemoryStoreThrew e)
        | ReadyReturned => (set_worker Invalid b, WithoutLock)
        | Invalid => (b, WithoutLock)
        | Pending => (b, MemoryStoreJoins)
        end
      else
        (set_memory_index (memory_index b ++ [MemoryElement.create key value])
                          (add_memory_current (size value) b),
         WithoutLock)
  | MemoryWaitBlocked => (b, MemoryStoreBlocked)
  | MemoryWaitFuel => (b, MemoryStoreFuel)
  end.

Definition StoreInMemory (b : DataBuffer) (key : Key) (value : Value)
  : DataBuffer * MemoryStore :=
  if size value >? Storage.max (memory_store_ b) then (b, WithDiskLock)
  else StoreInMemory_finish (WaitForSpaceInMemory (memory_fuel b) false b (size value))
                            key value.

(** [StoreInMemory] for a thread that comes back from the wait. *)
Definition StoreInMemory_resume (b : DataBuffer) (key : Key) (value : Value)
  : DataBuffer * MemoryStore :=
  StoreInMemory_finish (WaitForSpaceInMemory (memory_fuel b) true b (size value))
                       key value.

(** ** The public operations *)

(** Where a calling thread can be blocked in a [cond_var.wait]. *)
Inductive Suspension : Type :=
| InStoreInMemory (key : Key) (value : Value)
| InStoreOnDisk (key : Key) (value : Value)
| InGet (key : Key).

(** How a call ends, or where it stops.  [NeverReturns]: the thread spins
    under the disk mutex, or waits for the worker while it holds the memory
    mutex that the worker needs in order to finish. *)
Inductive Outcome : Type :=
| Returned (result : option Value)
| Threw (e : CommonErrors)
| Blocked (w : Suspension)
| NeverReturns
| OutOfFuel.

Definition after_StoreOnDisk (r : DataBuffer * DiskWrite) (key : Key) (value : Value)
  : DataBuffer * Outcome :=
  let '(b, w) := r in
  match w with
  | DiskWriteReturned => (b, Returned None)
  | DiskWriteBlocked => (b, Blocked (InStoreOnDisk key value))
  | DiskWriteThrew e => (b, Threw e)
  | DiskWriteSpins => (b, NeverReturns)
  | DiskWriteFuel => (b, OutOfFuel)
  end.

(** [if (disk_store_lock) StoreOnDisk(key, value, std::move(disk_store_lock));] *)
Definition after_StoreInMemory (r : DataBuffer * MemoryStore) (key : Key) (value : Value)
  : DataBuffer * Outcome :=
  let '(b, m) := r in
  match m with
  | WithDiskLock => after_StoreOnDisk (StoreOnDisk b key value) key value
  | WithoutLock => (b, Returned None)
  | MemoryStoreBlocked => (b, Blocked (InStoreInMemory key value))
  | MemoryStoreThrew e => (b, Threw e)
  | MemoryStoreJoins => (b, NeverReturns)
  | MemoryStoreFuel => (b, OutOfFuel)
  end.

(** [Store] after its [try] block. *)
Definition Store_after_Delete (b : DataBuffer) (key : Key) (value : Value)
  : DataBuffer * Outcome :=
  match CheckWorkerIsStillRunning b with
  | (b', Some e) => (b', Threw e)
  | (b', None) => after_StoreInMemory (StoreInMemory b' key value) key value
  end.

(** [Store]: [catch (const std::exception&)] drops whatever [Delete] threw;
    what [Delete] did before it threw stays done. *)
Definition Store (b : DataBuffer) (key : Key) (value : Value) : DataBuffer * Outcome :=
  Store_after_Delete (fst (Delete b key)) key value.

(** [Get] once the key was not found in memory; a thread that comes back
    from the wait is here again. *)
Definition Get_from_disk (b : DataBuffer) (key : Key) : DataBuffer * Outcome :=
  match Find_disk b key with
  | None => (b, Threw no_such_element)
  | Some i =>
      match disk_index b !! i with
      | None => (b, Threw no_such_element)
      | Some e =>
          match DiskElement.state e with
          | kCancelled => (b, Threw no_such_element)
          | kStarted => (b, Blocked (InGet key))
          | _ =>
              match ReadFile b key with
              | inr content => (b, Returned (Some content))
              | inl err => (b, Threw err)
              end
          end
      end
  end.

Definition Get (b : DataBuffer) (key : Key) : DataBuffer * Outcome :=
  match CheckWorkerIsStillRunning b with
  | (b', Some e) => (b', Threw e)
  | (b', None) =>
      match Find_memory b' key with
      | Some i =>
          match memory_index b' !! i with
          | Some e => (b', Returned (Some (MemoryElement.value e)))
          | None => Get_from_disk b' key
          end
      | None => Get_from_disk b' key
      end
  end.

Definition Delete_call (b : DataBuffer) (key : Key) : DataBuffer * Outcome :=
  match Delete b key with
  | (b', Some e) => (b', Threw e)
  | (b', None) => (b', Returned None)
  end.

Definition SetMaxMemoryUsage (b : DataBuffer) (max_memory_usage : Z) : DataBuffer * Outcome :=
  if max_memory_usage >? Storage.max (disk_store_ b) then (b, Threw invalid_parameter)
  else (set_memory_store (Storage.set_max max_memory_usage (memory_store_ b)) b,
        Returned None).

Definition SetMaxDiskUsage (b : DataBuffer) (max_disk_usage : Z) : DataBuffer * Outcome :=
  if Storage.max (memory_store_ b) >? max_disk_usage then (b, Threw invalid_parameter)
  else (set_disk_store (Storage.set_max max_disk_usage (disk_store_ b)) b,
        Returned None).

(** A blocked call goes on from where it waits. *)
Definition Resume (b : DataBuffer) (w : Suspension) : DataBuffer * Outcome :=
  match w with
  | InStoreInMemory key value =>
      after_StoreInMemory (StoreInMemory_resume b key value) key value
  | InStoreOnDisk key value =>
      after_StoreOnDisk (StoreOnDisk_resume b key value) key value
  | InGet key => Get_from_disk b key
  end.

(** ** Construction *)

(** What [Init] finds at [kDiskBuffer_]. *)
Record Directory : Type := mkDirectory {
  dir_exists : bool;
  dir_can_be_created : bool;
  dir_writable : bool
}.

(** The member initialisers of the two constructors. *)
Definition members (max_memory_usage max_disk_usage : Z) (pop_functor : bool)
  (disk_buffer : string) : DataBuffer :=
  mkDataBuffer (Storage.create max_memory_usage []) (Storage.create max_disk_usage [])
               pop_functor [] disk_buffer ∅ false true Invalid.

Definition Init (b : DataBuffer) (dir : Directory) : CommonErrors + DataBuffer :=
  if Storage.max (memory_store_ b) >? Storage.max (disk_store_ b) then inl invalid_parameter
  else if negb (dir_exists dir) && negb (dir_can_be_created dir) then inl uninitialised
  else if negb (dir_writable dir) then inl uninitialised
  else inr (set_worker Pending (set_directory_ok true b)).

Definition construct (max_memory_usage max_disk_usage : Z) (pop_functor : bool)
  (disk_buffer : string) (dir : Directory) : CommonErrors + DataBuffer :=
  Init (members max_memory_usage max_disk_usage pop_functor disk_buffer) dir.

(** ** The background worker *)

(** Where the worker is in [CopyQueueToDisk]. *)
Inductive WorkerPc : Type :=
| AtWait                                          (* the wait on the memory condition *)
| InWaitForSpaceOnDisk (key : Key) (value : Value) (* the wait inside [StoreOnDisk] *)
| AtRelock (key : Key)                            (* [memory_store_lock.lock()] *)
| Spinning                                        (* for ever in [WaitForSpaceOnDisk] *)
| Finished.

Definition worker_after_StoreOnDisk (r : DataBuffer * DiskWrite) (key : Key) (value : Value)
  : option (DataBuffer * WorkerPc) :=
  let '(b, w) := r in
  match w with
  | DiskWriteReturned => Some (b, AtRelock key)
  | DiskWriteBlocked => Some (b, InWaitForSpaceOnDisk key value)
  | DiskWriteThrew e => Some (set_worker (ReadyThrew e) b, Finished)
  | DiskWriteSpins => Some (b, Spinning)
  | DiskWriteFuel => None
  end.

(** One move of the worker, from one suspension point to the next. *)
Definition CopyQueueToDisk (b : DataBuffer) (pc : WorkerPc) : option (DataBuffer * WorkerPc) :=
  match pc with
  | AtWait =>
      let itr := FindOldestInMemoryOnly b in
      if negb (isSome itr || negb (running_ b)) then Some (b, AtWait)
      else if negb (running_ b) then Some (set_worker ReadyReturned b, Finished)
      else
        match itr with
        | Some i =>
            match memory_index b !! i with
            | Some e =>
                let b1 :=
                  set_memory_index
                    (alter (MemoryElement.set_also_on_disk kStarted) i (memory_index b)) b in
                worker_after_StoreOnDisk
                  (StoreOnDisk b1 (MemoryElement.key e) (MemoryElement.value e))
                  (MemoryElement.key e) (MemoryElement.value e)
            | None => Some (b, AtWait)
            end
        | None => Some (b, AtWait)
        end
  | InWaitForSpaceOnDisk key value =>
      worker_after_StoreOnDisk (StoreOnDisk_resume b key value) key value
  | AtRelock key =>
      match Find_memory b key with
      | Some i =>
          Some (set_memory_index
                  (alter (MemoryElement.set_also_on_disk kCompleted) i (memory_index b)) b,
                AtWait)
      | None => Some (b, AtWait)
      end
  | Spinning => Some (b, Spinning)
  | Finished => Some (b, Finished)
  end.

(** ** The buffer with its threads *)

Record System : Type := mkSystem {
  buffer : DataBuffer;
  worker_pc : WorkerPc;
  waiting : list Suspension;   (* the calls that are blocked *)
  halted : bool                (* a thread holds a mutex for ever *)
}.

Inductive Call : Type :=
| CallStore (key : Key) (value : Value)
| CallGet (key : Key)
| CallDelete (key : Key)
| CallSetMaxMemoryUsage (max_memory_usage : Z)
| CallSetMaxDiskUsage (max_disk_usage : Z).

Inductive Event : Type :=
| Calls (c : Call)            (* a thread calls a public member function *)
| Wakes (i : nat)             (* the i-th blocked call is woken *)
| Worker                      (* the worker moves *)
| DirectoryRemoved.           (* the disk buffer is removed from outside *)

Definition run_call (b : DataBuffer) (c : Call) : DataBuffer * Outcome :=
  match c with
  | CallStore key value => Store b key value
  | CallGet key => Get b key
  | CallDelete key => Delete_call b key
  | CallSetMaxMemoryUsage m => SetMaxMemoryUsage b m
  | CallSetMaxDiskUsage m => SetMaxDiskUsage b m
  end.

(** One event.  [None]: the event cannot happen in this state.  A call that
    blocks joins [waiting]; [Wakes] lets it go on, and it may block again.
    A move of the worker gives [Returned None], or [NeverReturns] when the
    worker starts to spin.  The model stops at the first thread that will
    hold a mutex for ever.

    A call runs as one step from one wait to the next: the schedules of the
    model are those of the code in which no other thread runs between two
    critical sections of the same call.  A run of the model is a run of the
    code; what holds of every run of the model is not thereby known of the
    runs of the code that interleave more finely. *)
Definition exec (s : System) (ev : Event) : option (System * Outcome) :=
  if halted s then None
  else
    match ev with
    | Calls c =>
        match run_call (buffer s) c with
        | (_, OutOfFuel) => None
        | (b, Blocked w) =>
            Some (mkSystem b (worker_pc s) (waiting s ++ [w]) false, Blocked w)
        | (b, NeverReturns) => Some (mkSystem b (worker_pc s) (waiting s) true, NeverReturns)
        | (b, o) => Some (mkSystem b (worker_pc s) (waiting s) false, o)
        end
    | Wakes i =>
        match waiting s !! i with
        | None => None
        | Some w =>
            match Resume (buffer s) w with
            | (_, OutOfFuel) => None
            | (b, Blocked w') =>
                Some (mkSystem b (worker_pc s) (<[i := w']> (waiting s)) false, Blocked w')
            | (b, NeverReturns) =>
                Some (mkSystem b (worker_pc s) (delete i (waiting s)) true, NeverReturns)
            | (b, o) => Some (mkSystem b (worker_pc s) (delete i (waiting s)) false, o)
            end
        end
    | Worker =>
        match CopyQueueToDisk (buffer s) (worker_pc s) with
        | None => None
        | Some (b, Spinning) => Some (mkSystem b Spinning (waiting s) true, NeverReturns)
        | Some (b, pc) => Some (mkSystem b pc (waiting s) false, Returned None)
        end
    | DirectoryRemoved =>
        Some (mkSystem (set_directory_ok false (set_files ∅ (buffer s)))
                       (worker_pc s) (waiting s) false,
              Returned None)
    end.

(** A schedule, with what each event gave. *)
Fixpoint run (s : System) (evs : list Event) : option (System * list Outcome) :=
  match evs with
  | [] => Some (s, [])
  | ev :: rest =>
      match exec s ev with
      | None => None
      | Some (s1, o) =>
          match run s1 rest with
          | None => None
          | Some (s2, os) => Some (s2, o :: os)
          end
      end
  end.

(** The system right after a successful construction. *)
Definition start (b : DataBuffer) : System := mkSystem b AtWait [] false.

Inductive reachable (s0 : System) : System -> Prop :=
| reachable_refl : reachable s0 s0
| reachable_step s s' ev o :
    reachable s0 s -> exec s ev = Some (s', o) -> reachable s0 s'.

(** * memory_buffer.cc *)

(** [MemoryBuffer] keeps pairs of a key and a value in [memory_buffer_].
    [Store], [Get] and [Delete] lock [mutex_] at their first line and hold
    it to their last, so each one is a function from the content before to
    the content after.  [KeyType] is compared with [operator==].

    The type of [memory_buffer_] is declared in memory_buffer.h, which is
    not among the sources at hand.  The code uses it as a sequence:
    [std::find_if] from [begin()] to [end()], [erase] at an iterator, and
    [push_back]; the constructor builds it from the number
    [static_cast<uint32_t>(max_memory_usage.data)].  Here the sequence is a
    list, oldest element first, and [push_back], which is where a bounded
    container decides what to keep, is a parameter of the functions. *)
Module MemoryBuffer.

Section Container.

Context {KeyType : Type} `{EqDecision KeyType}.

Variable push_back : list (KeyType * Value) -> KeyType * Value -> list (KeyType * Value).

Definition Find (memory_buffer_ : list (KeyType * Value)) (key : KeyType) : option nat :=
  find_if (fun key_value => bool_decide (key_value.1 = key)) memory_buffer_.

Definition Store (memory_buffer_ : list (KeyType * Value)) (key : KeyType) (value : Value)
  : list (KeyType * Value) :=
  let erased :=
    match Find memory_buffer_ key with
    | Some itr => delete itr memory_buffer_
    | None => memory_buffer_
    end in
  push_back erased (key, value).

Definition Get (memory_buffer_ : list (KeyType * Value)) (key : KeyType)
  : CommonErrors + Value :=
  match Find memory_buffer_ key with
  | Some itr =>
      match memory_buffer_ !! itr with
      | Some key_value => inr key_value.2
      | None => inl no_such_element
      end
  | None => inl no_such_element
  end.

Definition Delete (memory_buffer_ : list (KeyType * Value)) (key : KeyType)
  : CommonErrors + list (KeyType * Value) :=
  match Find memory_buffer_ key with
  | Some itr => inr (delete itr memory_buffer_)
  | None => inl no_such_element
  end.

End Container.

End MemoryBuffer.

(** * What the properties are stated with *)

(** ** Predicates *)

(** [Init] can use the directory. *)
Definition usable (dir : Directory) : bool :=
  (dir_exists dir || dir_can_be_created dir) && dir_writable dir.

(** The key is in the memory index. *)
Definition in_memory (b : DataBuffer) (key : Key) : Prop :=
  exists e, e ∈ memory_index b /\ MemoryElement.key e = key.

(** The element that [Find] gives for the key in the disk index, which is
    the first one from the front; [None] when it gives [end()]. *)
Definition disk_record (b : DataBuffer) (key : Key) : option DiskElement.t :=
  match Find_disk b key with
  | Some i => disk_index b !! i
  | None => None
  end.

(** [evicts l l']: [l'] is what is left of [l] after erasing, any number of
    times, the first element that is [kCompleted]. *)
Inductive evicts : MemoryIndex -> MemoryIndex -> Prop :=
| evicts_nothing l : evicts l l
| evicts_oldest front e back l' :
    Forall (fun y => MemoryElement.also_on_disk y <> kCompleted) front ->
    MemoryElement.also_on_disk e = kCompleted ->
    evicts (front ++ back) l' ->
    evicts (front ++ e :: back) l'.

(** The call ended with an exception. *)
Definition throws (r : DataBuffer * Outcome) : Prop := exists e, snd r = Threw e.

(** The calls that store, fetch or remove a value. *)
Definition data_call (c : Call) : bool :=
  match c with
  | CallStore _ _ | CallGet _ | CallDelete _ => true
  | CallSetMaxMemoryUsage _ | CallSetMaxDiskUsage _ => false
  end.

(** What the elements in memory take. *)
Definition memory_usage (b : DataBuffer) : Z :=
  foldr (fun e total => size (MemoryElement.value e) + total) 0 (memory_index b).

(** [boost::filesystem::file_size] of the file of a key; 0 when there is
    none. *)
Definition file_size (b : DataBuffer) (key : Key) : Z :=
  match files b !! GetFilename b key with
  | Some content => size content
  | None => 0
  end.

(** What the files of the [kCompleted] records take. *)
Definition completed_usage (b : DataBuffer) : Z :=
  foldr (fun e total =>
           if StoringState_eqb (DiskElement.state e) kCompleted
           then file_size b (DiskElement.key e) + total else total)
        0 (disk_index b).

(** Each [current] is the sum of what its store holds. *)
Definition accounted (b : DataBuffer) : Prop :=
  Storage.current (memory_store_ b) = memory_usage b /\
  Storage.current (disk_store_ b) = completed_usage b.

(** What the events of a schedule gave. *)
Definition outcomes (s : System) (evs : list Event) : option (list Outcome) :=
  snd <$> run s evs.

(** ** Buffers and schedules to try things on *)

(** A buffer as the constructor leaves it, in the directory "db": no
    element, the worker started. *)
Definition fresh (max_memory_usage max_disk_usage : Z) (pop_functor : bool) : DataBuffer :=
  set_worker Pending
    (set_directory_ok true (members max_memory_usage max_disk_usage pop_functor "db")).

(** A full memory store: one element is being copied, two are on disk. *)
Definition reclaim_example : DataBuffer :=
  set_memory_store
    (Storage.make 3 3
       [MemoryElement.make "a" "x" kStarted;
        MemoryElement.make "c" "y" kCompleted;
        MemoryElement.make "d" "z" kCompleted])
    (fresh 3 3 false).

(** "m" is in memory; on disk "c" is cancelled and "k" is complete, with
    its file. *)
Definition get_example : DataBuffer :=
  set_files (<["db/6b" := "v"]> ∅)
    (set_disk_store
       (Storage.make 3 1 [DiskElement.make "c" kCancelled; DiskElement.make "k" kCompleted])
       (set_memory_store (Storage.make 3 1 [MemoryElement.make "m" "x" kStarted])
                         (fresh 3 3 false))).

(** "k" has a complete record on disk, but its file is gone. *)
Definition missing_file_example : DataBuffer :=
  set_disk_store (Storage.make 3 1 [DiskElement.make "k" kCompleted]) (fresh 3 3 false).

(** [Store], [Get], and the two moves in which the worker copies the value
    to disk and marks it. *)
Definition Store_Get_spill (key : Key) (value : Value) : list Event :=
  [Calls (CallStore key value); Calls (CallGet key); Worker; Worker].

(** Memory and disk hold one byte at most.  [Store] of "b" waits for room
    in memory; another thread's [Store] of two bytes stops the buffer; the
    worker sees it and returns. *)
Definition stopped_schedule : list Event :=
  [Calls (CallStore "a" "x"); Calls (CallStore "b" "y"); Calls (CallStore "c" "zz"); Worker].

Definition stopped_example : System :=
  match run (start (fresh 1 1 false)) stopped_schedule with
  | Some (s, _) => s
  | None => start (fresh 1 1 false)
  end.

(** The disk allows two bytes and holds "o" with two.  The worker starts to
    copy "k" and has to wait for room.  [Delete] of "k" cancels the record
    of "k"; [Delete] of "o" makes room.  The worker comes back from the wait
    to a test of the [while] that is now false, so it never looks at the
    record again before it writes. *)
Definition cancelled_spill_schedule : list Event :=
  [Calls (CallStore "o" "aa"); Calls (CallStore "k" "b"); Worker;
   Calls (CallDelete "k"); Calls (CallDelete "o"); Worker].

Definition cancelled_spill_example : System :=
  match run (start (fresh 1 2 false)) cancelled_spill_schedule with
  | Some (s, _) => s
  | None => start (fresh 1 2 false)
  end.

(** The worker has copied "a" for the key "k" and is about to lock the
    memory mutex again when [Store] puts "b" under "k". *)
Definition restored_key_schedule : list Event :=
  [Calls (CallStore "k" "a"); Worker; Calls (CallStore "k" "b")].

Definition restored_key_example : System :=
  match run (start (fresh 1 2 false)) restored_key_schedule with
  | Some (s, _) => s
  | None => start (fresh 1 2 false)
  end.

(** [cancelled_spill_schedule] with a disk of three bytes, the move in
    which the worker locks the memory mutex again, and then, from one
    thread, two [Store]s under "k" and a [Get]. *)
Definition shadowed_key_schedule : list Event :=
  [Calls (CallStore "o" "aaa"); Calls (CallStore "k" "b"); Worker;
   Calls (CallDelete "k"); Calls (CallDelete "o"); Worker; Worker;
   Calls (CallStore "k" "c"); Calls (CallStore "k" "dd"); Calls (CallGet "k")].

Definition shadowed_key_example : System :=
  match run (start (fresh 1 3 false)) shadowed_key_schedule with
  | Some (s, _) => s
  | None => start (fresh 1 3 false)
  end.

(** ** More predicates *)

(** The value of a [uint64_t]. *)
Definition uint64 (z : Z) : Prop := 0 <= z < 2 ^ 64.

(** What the elements of a memory index take. *)
Definition usage_of (l : MemoryIndex) : Z :=
  foldr (fun e total => size (MemoryElement.value e) + total) 0 l.

(** [memory_store_.current] is the sum of the sizes of the values in the
    memory index, as a [uint64_t]. *)
Definition memory_accounted (b : DataBuffer) : Prop :=
  Storage.current (memory_store_ b) = wrap64 (memory_usage b).

(** [CheckWorkerIsStillRunning] returns and leaves the buffer as it is. *)
Definition in_service (b : DataBuffer) : Prop :=
  running_ b = true /\ (worker_ b = Pending \/ worker_ b = Invalid).

(** The key is neither in memory nor in the disk index. *)
Definition fresh_for (b : DataBuffer) (key : Key) : Prop :=
  ~ in_memory b key /\ disk_record b key = None.

(** The value goes to memory, and there is room for it now. *)
Definition fits_in_memory (b : DataBuffer) (value : Value) : Prop :=
  size value <= Storage.max (memory_store_ b) /\
  HasSpace (memory_store_ b) (size value) = true.

(** The value goes straight to disk, there is room for it now, and the file
    can be written. *)
Definition fits_on_disk (b : DataBuffer) (value : Value) : Prop :=
  Storage.max (memory_store_ b) < size value <= Storage.max (disk_store_ b) /\
  HasSpace (disk_store_ b) (size value) = true /\
  directory_ok b = true.

(** [Store] can take the value without waiting. *)
Definition admits (b : DataBuffer) (value : Value) : Prop :=
  fits_in_memory b value \/ fits_on_disk b value.

(** The counters and the limits are values of [uint64_t]. *)
Definition counters_in_range (b : DataBuffer) : Prop :=
  uint64 (Storage.max (memory_store_ b)) /\ uint64 (Storage.current (memory_store_ b)) /\
  uint64 (Storage.max (disk_store_ b)) /\ uint64 (Storage.current (disk_store_ b)).

(** [memory_store_.current] is exactly what the values in memory take, and
    that is no more than the limit, a value of [uint64_t]. *)
Definition memory_within (b : DataBuffer) : Prop :=
  uint64 (Storage.max (memory_store_ b)) /\
  Storage.current (memory_store_ b) = memory_usage b /\
  memory_usage b <= Storage.max (memory_store_ b).

(** The event is not a call of [SetMaxMemoryUsage]. *)
Definition keeps_memory_limit (ev : Event) : Prop :=
  match ev with
  | Calls (CallSetMaxMemoryUsage _) => False
  | _ => True
  end.

(** What is known of a call that waits for room in memory: [fits] relates
    the size of its value to the limit of the memory store. *)
Definition waiter_fits (fits : Z -> Z -> Prop) (limit : Z) (w : Suspension) : Prop :=
  match w with
  | InStoreInMemory _ value => fits (size value) limit
  | _ => True
  end.

(** The memory holds one byte.  "a" is stored, copied to disk and marked;
    [Store] of "b" then takes its place in memory. *)
Definition eviction_schedule : list Event :=
  [Calls (CallStore "a" "x"); Worker; Worker; Calls (CallStore "b" "y")].

Definition eviction_example : System :=
  match run (start (fresh 1 2 false)) eviction_schedule with
  | Some (s, _) => s
  | None => start (fresh 1 2 false)
  end.

(** A pop functor is given.  "a" is stored and copied to disk; its value
    stays in memory.  [Store] of "c", which is too large for the memory,
    finds the disk full and pops "a". *)
Definition popped_copy_schedule : list Event :=
  [Calls (CallStore "a" "x"); Worker; Worker; Calls (CallStore "c" "zz")].

Definition popped_copy_example : System :=
  match run (start (fresh 1 2 true)) popped_copy_schedule with
  | Some (s, _) => s
  | None => start (fresh 1 2 true)
  end.

(** "m" is in memory; the memory is full, the disk has room. *)
Definition quiet_example : DataBuffer :=
  set_memory_store (Storage.make 2 1 [MemoryElement.make "m" "x" kNotStarted])
                   (fresh 2 4 false).

(** "m" waits in memory to be copied; on disk there is "d", with its file. *)
Definition spill_example : DataBuffer :=
  set_files (<["db/64" := "zz"]> ∅)
    (set_disk_store (Storage.make 4 2 [DiskElement.make "d" kCompleted])
       (set_memory_store (Storage.make 2 1 [MemoryElement.make "m" "x" kNotStarted])
                         (fresh 2 4 false))).

(** A pop functor is given, and the disk is full with "a".  The disk buffer
    is removed from outside.  "b" takes the place of "a" in memory; the
    worker, copying "b", pops "a" to make room, and [RemoveFile] throws. *)
Definition lost_failure_schedule : list Event :=
  [Calls (CallStore "a" "xx"); Worker; Worker; DirectoryRemoved;
   Calls (CallStore "b" "y"); Worker].

Definition lost_failure_example : System :=
  match run (start (fresh 2 2 true)) lost_failure_schedule with
  | Some (s, _) => s
  | None => start (fresh 2 2 true)
  end.

(** The disk holds two bytes and is full with "o".  [Store] of "k", which
    is too large for the memory, waits for room on disk, and [Get] of "k"
    waits for that [Store].  Then a [Store] of three bytes stops the
    buffer. *)
Definition stuck_Get_schedule : list Event :=
  [Calls (CallStore "o" "aa"); Calls (CallStore "k" "bb"); Calls (CallGet "k");
   Calls (CallStore "big" "ccc")].

Definition stuck_Get_example : System :=
  match run (start (fresh 1 2 false)) stuck_Get_schedule with
  | Some (s, _) => s
  | None => start (fresh 1 2 false)
  end.

(** The disk is full with "o"; the worker has started to copy "k" and waits
    for room. *)
Definition waiting_copy_example : DataBuffer :=
  set_files (<["db/6f" := "aa"]> ∅)
    (set_disk_store
       (Storage.make 2 2 [DiskElement.make "o" kCompleted; DiskElement.make "k" kStarted])
       (set_memory_store (Storage.make 1 1 [MemoryElement.make "k" "b" kStarted])
                         (fresh 1 2 false))).

(** The memory limit is at most the disk limit. *)
Definition limits_ordered (b : DataBuffer) : Prop :=
  Storage.max (memory_store_ b) <= Storage.max (disk_store_ b).

(** The two limits of [b'] are those of [b]. *)
Definition same_limits (b b' : DataBuffer) : Prop :=
  Storage.max (memory_store_ b') = Storage.max (memory_store_ b) /\
  Storage.max (disk_store_ b') = Storage.max (disk_store_ b).

(** Memory and disk are full: "m" is being copied, "d" is on disk. *)
Definition full_example : DataBuffer :=
  set_files (<["db/64" := "zz"]> ∅)
    (set_disk_store (Storage.make 2 2 [DiskElement.make "d" kCompleted])
       (set_memory_store (Storage.make 1 1 [MemoryElement.make "m" "x" kStarted])
                         (fresh 1 2 false))).

(** What the elements that [Store] may not erase take: those that are not
    [kCompleted]. *)
Definition pinned_of (l : MemoryIndex) : Z :=
  foldr (fun e total =>
           if is_state kCompleted e then total
           else size (MemoryElement.value e) + total)
        0 l.

Definition pinned_usage (b : DataBuffer) : Z := pinned_of (memory_index b).

(** ** For [MemoryBuffer] *)

(** No two elements have the same key. *)
Definition keys_unique {KeyType : Type} (memory_buffer_ : list (KeyType * Value)) : Prop :=
  NoDup memory_buffer_.*1.

(** What is asked of [push_back]: the new element goes to the back, and the
    container may then drop elements from the front.  A container without
    a bound drops none; one that holds [capacity] elements at most and
    overwrites the oldest drops what is beyond [capacity]. *)
Definition drops_from_front {KeyType : Type}
  (push_back : list (KeyType * Value) -> KeyType * Value -> list (KeyType * Value)) : Prop :=
  forall l x, exists n, push_back l x = drop n (l ++ [x]).

Definition bounded_push_back {KeyType : Type} (capacity : nat)
  (l : list (KeyType * Value)) (x : KeyType * Value) : list (KeyType * Value) :=
  drop (List.length (l ++ [x]) - capacity) (l ++ [x]).


(** The memory holds one byte, the disk two.  "d" goes straight to disk and
    fills it, "a" fills the memory, and [Store] of "b" waits for room in
    memory.  Then another thread stores three bytes under "big", and the
    [Store] of "b" is woken before the worker has run. *)
Definition oversized_prefix : list Event :=
  [Calls (CallStore "d" "zz"); Calls (CallStore "a" "x"); Calls (CallStore "b" "y")].

Definition before_oversized_example : System :=
  match run (start (fresh 1 2 false)) oversized_prefix with
  | Some (s, _) => s
  | None => start (fresh 1 2 false)
  end.

Definition after_oversized_example : System :=
  match exec before_oversized_example (Calls (CallStore "big" "ccc")) with
  | Some (s, _) => s
  | None => before_oversized_example
  end.

Definition joined_example : System :=
  match exec after_oversized_example (Wakes 0) with
  | Some (s, _) => s
  | None => after_oversized_example
  end.

(** * Properties *)

(** ** [find_if] *)

Lemma find_if_split {A : Type} (p : A -> bool) (l : list A) (i : nat) :
  find_if p l = Some i ->
  exists front x back,
    l = front ++ x :: back /\ List.length front = i /\ p x = true /\
    Forall (fun y => p y = false) front.
Proof.
  revert i. induction l as [|a l IH]; intros i H; simpl in H; [discriminate|].
  destruct (p a) eqn:Hp.
  - injection H as <-. exists [], a, l. repeat split; auto.
  - destruct (find_if p l) as [j|] eqn:Hf; simpl in H; [|discriminate].
    injection H as <-.
    destruct (IH j eq_refl) as (front & x & back & -> & Hlen & Hx & Hall).
    exists (a :: front), x, back. repeat split; simpl; auto.
Qed.

Lemma find_if_lookup {A : Type} (p : A -> bool) (l : list A) (i : nat) :
  find_if p l = Some i -> exists x, l !! i = Some x /\ p x = true.
Proof.
  intros H. destruct (find_if_split p l i H) as (front & x & back & -> & <- & Hx & _).
  exists x. split; [|exact Hx].
  rewrite lookup_app_r by lia. now rewrite Nat.sub_diag.
Qed.

Lemma find_if_None {A : Type} (p : A -> bool) (l : list A) :
  find_if p l = None <-> Forall (fun y => p y = false) l.
Proof.
  induction l as [|a l IH]; simpl.
  - split; auto.
  - destruct (p a) eqn:Hp.
    + split; [discriminate|]. intros H. inversion H; subst. congruence.
    + destruct (find_if p l); simpl.
      * split; [discriminate|]. intros H. inversion H; subst.
        apply IH in H3. discriminate.
      * split; auto. intros _. constructor; auto. now apply IH.
Qed.

(** ** The loops end *)

Lemma WaitForSpaceInMemory_has_space fuel b required_space :
  HasSpace (memory_store_ b) required_space = true ->
  WaitForSpaceInMemory (S fuel) false b required_space = (b, MemoryWaitOver).
Proof. intros H. simpl. now rewrite H. Qed.

Lemma erase_memory_length b i e :
  memory_index b !! i = Some e ->
  S (List.length (memory_index (erase_memory i b))) = List.length (memory_index b).
Proof.
  intros H. unfold erase_memory. rewrite H. cbn.
  pose proof (lookup_lt_Some _ _ _ H) as Hlt.
  rewrite length_delete by eauto. lia.
Qed.

Lemma WaitForSpaceInMemory_fuel fuel in_wait b required_space :
  (List.length (memory_index b) + 2 <= fuel)%nat ->
  snd (WaitForSpaceInMemory fuel in_wait b required_space) <> MemoryWaitFuel.
Proof.
  revert in_wait b. induction fuel as [|fuel IH]; intros in_wait b Hfuel; [lia|].
  simpl.
  destruct (negb in_wait && HasSpace (memory_store_ b) required_space); [discriminate|].
  unfold FindMemoryRemovalCandidate.
  destruct (find_if (is_state kCompleted) (memory_index b)) as [i|] eqn:Hfind; simpl.
  - destruct (running_ b); simpl; [|discriminate].
    destruct (find_if_lookup _ _ _ Hfind) as (e & He & _).
    apply IH. pose proof (erase_memory_length b i e He). lia.
  - destruct (HasSpace (memory_store_ b) required_space) eqn:Hs; simpl.
    + destruct (running_ b); simpl; [|discriminate].
      destruct fuel as [|fuel]; [lia|].
      rewrite WaitForSpaceInMemory_has_space by exact Hs. discriminate.
    + destruct (running_ b); simpl; discriminate.
Qed.

Lemma RemoveFile_disk_index b key want b' v :
  RemoveFile b key want = inr (b', v) -> disk_index b' = disk_index b.
Proof.
  unfold RemoveFile. destruct (files b !! GetFilename b key); [|discriminate].
  intros H. injection H as <- _. reflexivity.
Qed.

Lemma WaitForSpaceOnDisk_fuel fuel b key required_space :
  (List.length (disk_index b) < fuel)%nat ->
  snd (WaitForSpaceOnDisk fuel b key required_space) <> DiskWaitFuel.
Proof.
  revert b. induction fuel as [|fuel IH]; intros b Hfuel; [lia|].
  simpl.
  destruct (negb (HasSpace (disk_store_ b) required_space) && running_ b); [|discriminate].
  destruct (Find_disk b key) as [i|]; [|discriminate].
  destruct (disk_index b !! i) as [e|]; [|discriminate].
  destruct (StoringState_eqb (DiskElement.state e) kCancelled); [discriminate|].
  destruct (kPopFunctor_ b); [|discriminate].
  unfold FindOldestOnDisk.
  destruct (disk_index b) as [|oldest rest] eqn:Hidx; simpl; [discriminate|].
  destruct (StoringState_eqb (DiskElement.state oldest) kCompleted); [|discriminate].
  destruct (RemoveFile b (DiskElement.key oldest) true) as [err|[b1 v]] eqn:Hrm;
    [discriminate|].
  apply IH. cbn. rewrite (RemoveFile_disk_index _ _ _ _ _ Hrm), Hidx.
  simpl in *. lia.
Qed.

(** Hence no operation and no move of the worker runs out of fuel. *)

Lemma StoreOnDisk_finish_fuel r key value :
  snd r <> DiskWaitFuel -> snd (StoreOnDisk_finish r key value) <> DiskWriteFuel.
Proof.
  destruct r as [b w]. cbn. intros Hw. destruct w; cbn; try discriminate; [|congruence].
  destruct (negb (running_ b)); [discriminate|].
  destruct cancelled; [discriminate|].
  destruct (WriteFile b key value); discriminate.
Qed.

Lemma StoreOnDisk_resume_fuel b key value :
  snd (StoreOnDisk_resume b key value) <> DiskWriteFuel.
Proof. apply StoreOnDisk_finish_fuel, WaitForSpaceOnDisk_fuel. lia. Qed.

Lemma StoreOnDisk_fuel b key value : snd (StoreOnDisk b key value) <> DiskWriteFuel.
Proof.
  unfold StoreOnDisk. destruct (size value >? Storage.max (disk_store_ b)); [discriminate|].
  apply StoreOnDisk_resume_fuel.
Qed.

Lemma StoreInMemory_finish_fuel r key value :
  snd r <> MemoryWaitFuel -> snd (StoreInMemory_finish r key value) <> MemoryStoreFuel.
Proof.
  destruct r as [b w]. cbn. intros Hw. destruct w; cbn; try discriminate; [|congruence].
  destruct (negb (running_ b)); [|discriminate]. destruct (worker_ b); discriminate.
Qed.

Lemma after_StoreOnDisk_fuel r key value :
  snd r <> DiskWriteFuel -> snd (after_StoreOnDisk r key value) <> OutOfFuel.
Proof. destruct r as [b w]. cbn. destruct w; cbn; congruence. Qed.

Lemma after_StoreInMemory_fuel r key value :
  snd r <> MemoryStoreFuel -> snd (after_StoreInMemory r key value) <> OutOfFuel.
Proof.
  destruct r as [b m]. cbn. destruct m; cbn; try congruence.
  intros _. apply after_StoreOnDisk_fuel, StoreOnDisk_fuel.
Qed.

Lemma Get_from_disk_fuel b key : snd (Get_from_disk b key) <> OutOfFuel.
Proof.
  unfold Get_from_disk. destruct (Find_disk b key) as [i|]; [|discriminate].
  destruct (disk_index b !! i) as [e|]; [|discriminate].
  destruct (DiskElement.state e); try discriminate; destruct (ReadFile b key); discriminate.
Qed.

Lemma run_call_fuel b c : snd (run_call b c) <> OutOfFuel.
Proof.
  destruct c as [key value|key|key|m|m]; cbn.
  - unfold Store, Store_after_Delete.
    destruct (CheckWorkerIsStillRunning (fst (Delete b key))) as [b' [e|]]; [discriminate|].
    apply after_StoreInMemory_fuel. unfold StoreInMemory.
    destruct (size value >? Storage.max (memory_store_ b')); [discriminate|].
    apply StoreInMemory_finish_fuel, WaitForSpaceInMemory_fuel. unfold memory_fuel. lia.
  - unfold Get. destruct (CheckWorkerIsStillRunning b) as [b' [e|]]; [discriminate|].
    destruct (Find_memory b' key) as [i|]; [|apply Get_from_disk_fuel].
    destruct (memory_index b' !! i); [discriminate|apply Get_from_disk_fuel].
  - unfold Delete_call. destruct (Delete b key) as [b' [e|]]; discriminate.
  - unfold SetMaxMemoryUsage. destruct (m >? Storage.max (disk_store_ b)); discriminate.
  - unfold SetMaxDiskUsage. destruct (Storage.max (memory_store_ b) >? m); discriminate.
Qed.

Lemma Resume_fuel b w : snd (Resume b w) <> OutOfFuel.
Proof.
  destruct w as [key value|key value|key]; cbn.
  - apply after_StoreInMemory_fuel, StoreInMemory_finish_fuel, WaitForSpaceInMemory_fuel.
    unfold memory_fuel. lia.
  - apply after_StoreOnDisk_fuel, StoreOnDisk_resume_fuel.
  - apply Get_from_disk_fuel.
Qed.

Lemma worker_after_StoreOnDisk_fuel r key value :
  snd r <> DiskWriteFuel -> worker_after_StoreOnDisk r key value <> None.
Proof. destruct r as [b w]. cbn. destruct w; cbn; congruence. Qed.

Lemma CopyQueueToDisk_fuel b pc : CopyQueueToDisk b pc <> None.
Proof.
  destruct pc as [|key value|key| |]; cbn; try discriminate.
  - destruct (negb (isSome (FindOldestInMemoryOnly b) || negb (running_ b)));
      [discriminate|].
    destruct (negb (running_ b)); [discriminate|].
    destruct (FindOldestInMemoryOnly b) as [i|]; [|discriminate].
    destruct (memory_index b !! i) as [e|]; [|discriminate].
    apply worker_after_StoreOnDisk_fuel, StoreOnDisk_fuel.
  - apply worker_after_StoreOnDisk_fuel, StoreOnDisk_resume_fuel.
  - destruct (Find_memory b key); discriminate.
Qed.

(** As long as no thread holds a mutex for ever, a call can be made, the
    worker can move, and a blocked call can be woken. *)
Lemma exec_defined s ev :
  halted s = false ->
  (forall i, ev = Wakes i -> is_Some (waiting s !! i)) ->
  is_Some (exec s ev).
Proof.
  intros Hhalt Hwake. unfold exec. rewrite Hhalt.
  destruct ev as [c|i| |].
  - pose proof (run_call_fuel (buffer s) c) as H.
    destruct (run_call (buffer s) c) as [b o]. cbn in H. destruct o; eauto; congruence.
  - destruct (Hwake i eq_refl) as [w Hw]. rewrite Hw.
    pose proof (Resume_fuel (buffer s) w) as H.
    destruct (Resume (buffer s) w) as [b o]. cbn in H. destruct o; eauto; congruence.
  - pose proof (CopyQueueToDisk_fuel (buffer s) (worker_pc s)) as H.
    destruct (CopyQueueToDisk (buffer s) (worker_pc s)) as [[b pc]|]; [|congruence].
    destruct pc; eauto.
  - eauto.
Qed.

(** ** File names *)

Lemma hex_digit_inj (m n : N) :
  (m < 16)%N -> (n < 16)%N -> hex_digit m = hex_digit n -> m = n.
Proof.
  intros Hm Hn H.
  assert (forall k, (k < 16)%N ->
            k = 0 \/ k = 1 \/ k = 2 \/ k = 3 \/ k = 4 \/ k = 5 \/ k = 6 \/ k = 7 \/
            k = 8 \/ k = 9 \/ k = 10 \/ k = 11 \/ k = 12 \/ k = 13 \/ k = 14 \/
            k = 15)%N as cases by (intros; lia).
  destruct (cases m Hm) as [->|[->|[->|[->|[->|[->|[->|[->|[->|[->|[->|[->|[->|[->|[->| ->]]]]]]]]]]]]]]];
  destruct (cases n Hn) as [->|[->|[->|[->|[->|[->|[->|[->|[->|[->|[->|[->|[->|[->|[->| ->]]]]]]]]]]]]]]];
  solve [reflexivity | discriminate H].
Qed.

Lemma N_of_ascii_lt c : (N_of_ascii c < 256)%N.
Proof. apply N_ascii_bounded. Qed.

Lemma hex_byte_inj (c d : ascii) :
  hex_digit (N_of_ascii c / 16) = hex_digit (N_of_ascii d / 16) ->
  hex_digit (N_of_ascii c mod 16) = hex_digit (N_of_ascii d mod 16) ->
  c = d.
Proof.
  intros Hhi Hlo.
  pose proof (N_of_ascii_lt c) as Hc. pose proof (N_of_ascii_lt d) as Hd.
  apply hex_digit_inj in Hhi;
    [|apply N.Div0.div_lt_upper_bound; lia|apply N.Div0.div_lt_upper_bound; lia].
  apply hex_digit_inj in Hlo; [|apply N.mod_lt; lia|apply N.mod_lt; lia].
  assert (N_of_ascii c = N_of_ascii d) as Heq.
  { rewrite (N.div_mod (N_of_ascii c) 16), (N.div_mod (N_of_ascii d) 16) by lia.
    now rewrite Hhi, Hlo. }
  rewrite <- (ascii_N_embedding c), <- (ascii_N_embedding d). now rewrite Heq.
Qed.

Lemma HexEncode_inj (k1 k2 : string) : HexEncode k1 = HexEncode k2 -> k1 = k2.
Proof.
  revert k2. induction k1 as [|c k1 IH]; intros [|d k2] H; simpl in H;
    try discriminate; [reflexivity|].
  injection H as Hhi Hlo Hrest.
  f_equal; [now apply hex_byte_inj | now apply IH].
Qed.

Lemma hex_digit_not_separator (n : N) : is_separator (hex_digit n) = false.
Proof.
  destruct n as [|p]; [reflexivity|].
  do 5 (try destruct p as [p|p|]; try reflexivity).
Qed.

Lemma append_cons (a : ascii) (s t : string) : String a s +:+ t = String a (s +:+ t).
Proof. reflexivity. Qed.

Lemma append_length (s t : string) :
  String.length (s +:+ t) = (String.length s + String.length t)%nat.
Proof.
  induction s as [|a s IH]; [reflexivity|].
  rewrite append_cons. simpl. now rewrite IH.
Qed.

(** What [path_append] gives for a right-hand side that [HexEncode] made. *)
Lemma path_append_hex (p k : string) :
  path_append p (HexEncode k) =
    match k with
    | EmptyString => p
    | _ =>
        match p with
        | EmptyString => HexEncode k
        | _ => if ends_with_separator p then p +:+ HexEncode k
               else p +:+ "/" +:+ HexEncode k
        end
    end.
Proof.
  destruct k as [|c k]; [reflexivity|].
  unfold path_append. cbn [HexEncode]. now rewrite hex_digit_not_separator.
Qed.

Lemma path_append_hex_inj (p k1 k2 : string) :
  path_append p (HexEncode k1) = path_append p (HexEncode k2) -> k1 = k2.
Proof.
  rewrite !path_append_hex. intros H.
  assert (forall c k, String.length (HexEncode (String c k)) <> 0%nat) as Hpos
    by (intros; simpl; lia).
  destruct k1 as [|c1 k1], k2 as [|c2 k2]; [reflexivity| | |].
  - exfalso. destruct p as [|a p]; [discriminate H|].
    apply (f_equal String.length) in H.
    destruct (ends_with_separator (String a p));
      rewrite ?append_length in H; simpl in H; lia.
  - exfalso. destruct p as [|a p]; [discriminate H|].
    apply (f_equal String.length) in H.
    destruct (ends_with_separator (String a p));
      rewrite ?append_length in H; simpl in H; lia.
  - apply HexEncode_inj. destruct p as [|a p]; [exact H|].
    destruct (ends_with_separator (String a p)).
    + now apply (inj (String.app _)) in H.
    + apply (inj (String.app _)) in H. now apply (inj (String.app _)) in H.
Qed.

(** C10.  The default [GetFilename] is a function of the key that names the
    file [kDiskBuffer_ / HexEncode(key)]; two keys get the same file name
    exactly when they are equal, so no two keys share a spill file. *)
Theorem GetFilename_injective (b : DataBuffer) (key1 key2 : Key) :
  GetFilename b key1 = path_append (kDiskBuffer_ b) (HexEncode key1) /\
  (GetFilename b key1 = GetFilename b key2 <-> key1 = key2).
Proof.
  split; [reflexivity|]. split.
  - apply path_append_hex_inj.
  - now intros ->.
Qed.

Lemma GetFilename_injective_witness :
  GetFilename (fresh 1 2 false) "k" = "db/6b"%string /\
  "k"%string = "k"%string /\
  GetFilename (fresh 1 2 false) "k" <> GetFilename (fresh 1 2 false) "K".
Proof.
  split; [reflexivity|]. split.
  - apply (proj2 (GetFilename_injective (fresh 1 2 false) "k" "k")). reflexivity.
  - intros H. apply (proj2 (GetFilename_injective (fresh 1 2 false) "k" "K")) in H.
    discriminate H.
Defined.

(** ** Limits on the two usages *)

(** C5.  The constructors and the two setters accept a maximum memory usage
    that is at most the maximum disk usage, equality included; they throw
    [invalid_parameter] when it is greater, and then the setters leave the
    buffer as it was. *)
Theorem max_usage_checked (b : DataBuffer) (max_memory_usage max_disk_usage : Z)
  (pop_functor : bool) (disk_buffer : string) (dir : Directory) :
  (max_memory_usage <= max_disk_usage -> usable dir = true ->
   exists b0,
     construct max_memory_usage max_disk_usage pop_functor disk_buffer dir = inr b0 /\
     Storage.max (memory_store_ b0) = max_memory_usage /\
     Storage.max (disk_store_ b0) = max_disk_usage) /\
  (max_memory_usage > max_disk_usage ->
   construct max_memory_usage max_disk_usage pop_functor disk_buffer dir =
     inl invalid_parameter) /\
  (max_memory_usage <= Storage.max (disk_store_ b) ->
   SetMaxMemoryUsage b max_memory_usage =
     (set_memory_store (Storage.set_max max_memory_usage (memory_store_ b)) b,
      Returned None)) /\
  (max_memory_usage > Storage.max (disk_store_ b) ->
   SetMaxMemoryUsage b max_memory_usage = (b, Threw invalid_parameter)) /\
  (Storage.max (memory_store_ b) <= max_disk_usage ->
   SetMaxDiskUsage b max_disk_usage =
     (set_disk_store (Storage.set_max max_disk_usage (disk_store_ b)) b,
      Returned None)) /\
  (Storage.max (memory_store_ b) > max_disk_usage ->
   SetMaxDiskUsage b max_disk_usage = (b, Threw invalid_parameter)).
Proof.
  unfold construct, Init, SetMaxMemoryUsage, SetMaxDiskUsage, usable. cbn.
  repeat split.
  - intros Hle Hdir.
    destruct (Z.gtb_spec max_memory_usage max_disk_usage) as [Hgt|_]; [lia|].
    destruct (dir_exists dir), (dir_can_be_created dir), (dir_writable dir);
      try discriminate Hdir; cbn; eexists; repeat split.
  - intros Hgt.
    destruct (Z.gtb_spec max_memory_usage max_disk_usage) as [_|Hle]; [reflexivity|lia].
  - intros Hle.
    destruct (Z.gtb_spec max_memory_usage (Storage.max (disk_store_ b))); [lia|reflexivity].
  - intros Hgt.
    destruct (Z.gtb_spec max_memory_usage (Storage.max (disk_store_ b))); [reflexivity|lia].
  - intros Hle.
    destruct (Z.gtb_spec (Storage.max (memory_store_ b)) max_disk_usage); [lia|reflexivity].
  - intros Hgt.
    destruct (Z.gtb_spec (Storage.max (memory_store_ b)) max_disk_usage); [reflexivity|lia].
Qed.

Lemma construct_fresh (max_memory_usage max_disk_usage : Z) (pop_functor : bool) :
  max_memory_usage <= max_disk_usage ->
  construct max_memory_usage max_disk_usage pop_functor "db" (mkDirectory true false true) =
    inr (fresh max_memory_usage max_disk_usage pop_functor).
Proof.
  intros H. unfold construct, Init. cbn.
  destruct (Z.gtb_spec max_memory_usage max_disk_usage); [lia|reflexivity].
Qed.

Lemma max_usage_checked_witness :
  (exists b0, construct 1 1 false "db" (mkDirectory false true true) = inr b0 /\
              Storage.max (memory_store_ b0) = 1 /\ Storage.max (disk_store_ b0) = 1) /\
  construct 2 1 false "db" (mkDirectory false true true) = inl invalid_parameter /\
  snd (SetMaxMemoryUsage (fresh 1 2 false) 2) = Returned None /\
  SetMaxMemoryUsage (fresh 1 2 false) 3 = (fresh 1 2 false, Threw invalid_parameter) /\
  snd (SetMaxDiskUsage (fresh 1 2 false) 1) = Returned None /\
  SetMaxDiskUsage (fresh 1 2 false) 0 = (fresh 1 2 false, Threw invalid_parameter).
Proof.
  pose proof (max_usage_checked (fresh 1 2 false) 1 1 false "db"
                (mkDirectory false true true)) as (Hc & _ & _ & _ & Hd & _).
  pose proof (max_usage_checked (fresh 1 2 false) 2 1 false "db"
                (mkDirectory false true true)) as (_ & Hr & Hm & _).
  pose proof (max_usage_checked (fresh 1 2 false) 3 0 false "db"
                (mkDirectory false true true)) as (_ & _ & _ & Hm' & _ & Hd').
  split; [apply Hc; [lia|reflexivity]|].
  split; [apply Hr; lia|].
  split; [rewrite Hm by (cbn; lia); reflexivity|].
  split; [apply Hm'; cbn; lia|].
  split; [rewrite Hd by (cbn; lia); reflexivity|].
  apply Hd'. cbn. lia.
Defined.

(** ** Reclaiming memory *)

Lemma StoringState_eqb_eq (a b : StoringState) : StoringState_eqb a b = true <-> a = b.
Proof. destruct a, b; simpl; split; congruence. Qed.

Lemma StoringState_eqb_neq (a b : StoringState) : StoringState_eqb a b = false <-> a <> b.
Proof. destruct a, b; simpl; split; congruence. Qed.

Lemma evicts_keeps (l l' : MemoryIndex) (e : MemoryElement.t) :
  evicts l l' -> e ∈ l -> MemoryElement.also_on_disk e <> kCompleted -> e ∈ l'.
Proof.
  induction 1 as [|front x back l' Hfront Hx _ IH]; intros Hin Hne; [exact Hin|].
  apply IH; [|exact Hne].
  apply elem_of_app in Hin as [Hin|Hin]; apply elem_of_app; [now left|right].
  apply elem_of_cons in Hin as [->|Hin]; [contradiction|exact Hin].
Qed.

Lemma erase_memory_first_completed b i :
  find_if (is_state kCompleted) (memory_index b) = Some i ->
  exists front e back,
    memory_index b = front ++ e :: back /\
    Forall (fun y => MemoryElement.also_on_disk y <> kCompleted) front /\
    MemoryElement.also_on_disk e = kCompleted /\
    memory_index (erase_memory i b) = front ++ back.
Proof.
  intros H.
  destruct (find_if_split _ _ _ H) as (front & e & back & Hl & Hlen & He & Hfront).
  exists front, e, back. repeat split.
  - exact Hl.
  - eapply Forall_impl; [exact Hfront|]. intros y Hy. now apply StoringState_eqb_neq.
  - now apply StoringState_eqb_eq.
  - unfold erase_memory. rewrite Hl, <- Hlen.
    rewrite lookup_app_r, Nat.sub_diag by lia. cbn.
    apply delete_middle.
Qed.

Lemma WaitForSpaceInMemory_evicts fuel in_wait b required_space :
  evicts (memory_index b)
         (memory_index (fst (WaitForSpaceInMemory fuel in_wait b required_space))).
Proof.
  revert in_wait b. induction fuel as [|fuel IH]; intros in_wait b; simpl; [constructor|].
  destruct (negb in_wait && HasSpace (memory_store_ b) required_space); [constructor|].
  unfold FindMemoryRemovalCandidate.
  destruct (find_if (is_state kCompleted) (memory_index b)) as [i|] eqn:Hfind; simpl.
  - destruct (running_ b); simpl; [|constructor].
    destruct (erase_memory_first_completed b i Hfind)
      as (front & e & back & Hl & Hfront & He & Herase).
    rewrite Hl. apply evicts_oldest; [exact Hfront|exact He|].
    rewrite <- Herase. apply IH.
  - destruct (HasSpace (memory_store_ b) required_space || negb (running_ b));
      [|constructor].
    destruct (running_ b); simpl; [apply IH|constructor].
Qed.

Lemma StoreInMemory_finish_index r key value :
  memory_index (fst (StoreInMemory_finish r key value)) = memory_index (fst r) \/
  memory_index (fst (StoreInMemory_finish r key value)) =
    memory_index (fst r) ++ [MemoryElement.create key value].
Proof.
  destruct r as [b w]. unfold StoreInMemory_finish.
  destruct w; simpl; auto.
  destruct (running_ b); simpl; auto.
  destruct (worker_ b); simpl; auto.
Qed.

Lemma find_if_middle {A : Type} (p : A -> bool) (front : list A) (x : A) (back : list A) :
  Forall (fun y => p y = false) front -> p x = true ->
  find_if p (front ++ x :: back) = Some (List.length front).
Proof.
  intros Hfront Hx. induction Hfront as [|a front Ha _ IH]; cbn.
  - now rewrite Hx.
  - now rewrite Ha, IH.
Qed.

(** A [Store] that has to make room, or that was woken in its wait, erases
    the first element that is [kCompleted] and goes on from there. *)
Lemma WaitForSpaceInMemory_first fuel in_wait b required_space front e back :
  running_ b = true ->
  in_wait = true \/ HasSpace (memory_store_ b) required_space = false ->
  memory_index b = front ++ e :: back ->
  Forall (fun y => MemoryElement.also_on_disk y <> kCompleted) front ->
  MemoryElement.also_on_disk e = kCompleted ->
  WaitForSpaceInMemory (S fuel) in_wait b required_space =
    WaitForSpaceInMemory fuel false (erase_memory (List.length front) b) required_space /\
  memory_index (erase_memory (List.length front) b) = front ++ back.
Proof.
  intros Hrun Hmust Hl Hfront He.
  assert (find_if (is_state kCompleted) (memory_index b) = Some (List.length front))
    as Hfind.
  { rewrite Hl. apply find_if_middle.
    - eapply Forall_impl; [exact Hfront|]. intros y Hy. now apply StoringState_eqb_neq.
    - now apply StoringState_eqb_eq. }
  split.
  - simpl.
    assert (negb in_wait && HasSpace (memory_store_ b) required_space = false) as ->.
    { destruct Hmust as [->| ->]; [reflexivity|apply andb_false_r]. }
    unfold FindMemoryRemovalCandidate. rewrite Hfind, Hrun. reflexivity.
  - unfold erase_memory. rewrite Hl, lookup_app_r, Nat.sub_diag by lia. cbn.
    apply delete_middle.
Qed.

(** With [running_] true the wait ends in one of two ways: there is room,
    or there is none and no element is [kCompleted], and the thread
    waits. *)
Lemma WaitForSpaceInMemory_outcome fuel in_wait b required_space :
  running_ b = true -> (List.length (memory_index b) + 2 <= fuel)%nat ->
  let r := WaitForSpaceInMemory fuel in_wait b required_space in
  running_ (fst r) = true /\
  ((snd r = MemoryWaitOver /\ HasSpace (memory_store_ (fst r)) required_space = true) \/
   (snd r = MemoryWaitBlocked /\
    Forall (fun y => MemoryElement.also_on_disk y <> kCompleted) (memory_index (fst r)) /\
    HasSpace (memory_store_ (fst r)) required_space = false)).
Proof.
  revert in_wait b. induction fuel as [|fuel IH]; intros in_wait b Hrun Hfuel; [lia|].
  simpl.
  destruct (negb in_wait && HasSpace (memory_store_ b) required_space) eqn:Hfirst.
  { split; [exact Hrun|]. left. apply andb_true_iff in Hfirst. now split. }
  unfold FindMemoryRemovalCandidate.
  destruct (find_if (is_state kCompleted) (memory_index b)) as [i|] eqn:Hfind; simpl.
  - rewrite Hrun. simpl.
    destruct (find_if_lookup _ _ _ Hfind) as (e & He & _).
    apply IH.
    + unfold erase_memory. now rewrite He.
    + pose proof (erase_memory_length b i e He). lia.
  - destruct (HasSpace (memory_store_ b) required_space) eqn:Hs; rewrite Hrun; simpl.
    + destruct fuel as [|fuel]; [lia|].
      rewrite WaitForSpaceInMemory_has_space by exact Hs.
      split; [exact Hrun|]. left. now split.
    + split; [exact Hrun|]. right. split; [reflexivity|]. split; [|exact Hs].
      apply find_if_None in Hfind. eapply Forall_impl; [exact Hfind|].
      intros y Hy. now apply StoringState_eqb_neq.
Qed.

(** C7.  When [Store] has to make room in memory, the element it erases is
    the first one from the front whose state is [kCompleted], and it goes
    on so, one element at a time, until there is room or no element is
    [kCompleted]; whatever is [kNotStarted] or [kStarted] stays.  In
    detail, for a call from its start ([woken] false) and for one that
    comes back from waiting for room ([woken] true):
    - what is erased is erased in that way, and nothing else is;
    - when the buffer runs, and there is no room or the call was woken in
      its wait, and some element is [kCompleted], the first such element is
      erased;
    - the call then ends with the value appended, or it waits, and then no
      element is [kCompleted] any more and there is still no room;
    - a call that finds room at its start erases nothing. *)
Theorem memory_reclaims_oldest_completed (b : DataBuffer) (key : Key) (value : Value)
  (woken : bool) :
  let r := if woken then StoreInMemory_resume b key value
           else StoreInMemory b key value in
  let b' := fst r in
  (exists l',
     evicts (memory_index b) l' /\
     (memory_index b' = l' \/ memory_index b' = l' ++ [MemoryElement.create key value]) /\
     forall e, e ∈ memory_index b -> MemoryElement.also_on_disk e <> kCompleted ->
               e ∈ memory_index b') /\
  (running_ b = true ->
   (woken = false -> size value <= Storage.max (memory_store_ b)) ->
   woken = true \/ HasSpace (memory_store_ b) (size value) = false ->
   forall front e back,
     memory_index b = front ++ e :: back ->
     Forall (fun y => MemoryElement.also_on_disk y <> kCompleted) front ->
     MemoryElement.also_on_disk e = kCompleted ->
     exists l',
       evicts (front ++ back) l' /\
       (memory_index b' = l' \/
        memory_index b' = l' ++ [MemoryElement.create key value])) /\
  (running_ b = true ->
   (woken = false -> size value <= Storage.max (memory_store_ b)) ->
   (snd r = WithoutLock /\
    exists l', evicts (memory_index b) l' /\
               memory_index b' = l' ++ [MemoryElement.create key value]) \/
   (snd r = MemoryStoreBlocked /\
    evicts (memory_index b) (memory_index b') /\
    Forall (fun y => MemoryElement.also_on_disk y <> kCompleted) (memory_index b') /\
    HasSpace (memory_store_ b') (size value) = false)) /\
  (running_ b = true -> woken = false ->
   size value <= Storage.max (memory_store_ b) ->
   HasSpace (memory_store_ b) (size value) = true ->
   r = (set_memory_index (memory_index b ++ [MemoryElement.create key value])
                         (add_memory_current (size value) b),
        WithoutLock)).
Proof.
  intros r b'.
  assert (forall in_wait,
            (in_wait = woken) ->
            (woken = false -> size value <= Storage.max (memory_store_ b)) ->
            r = StoreInMemory_finish
                  (WaitForSpaceInMemory (memory_fuel b) in_wait b (size value)) key value)
    as Hr.
  { intros in_wait <- Hfits. subst r. destruct in_wait; [reflexivity|].
    unfold StoreInMemory.
    destruct (Z.gtb_spec (size value) (Storage.max (memory_store_ b))); [|reflexivity].
    specialize (Hfits eq_refl). lia. }
  split; [|split; [|split]].
  - assert (exists l', evicts (memory_index b) l' /\
              (memory_index b' = l' \/
               memory_index b' = l' ++ [MemoryElement.create key value]))
      as (l' & Hev & Hb').
    { subst b' r. destruct woken.
      - unfold StoreInMemory_resume.
        exists (memory_index
                  (fst (WaitForSpaceInMemory (memory_fuel b) true b (size value)))).
        split; [apply WaitForSpaceInMemory_evicts|apply StoreInMemory_finish_index].
      - unfold StoreInMemory.
        destruct (size value >? Storage.max (memory_store_ b)).
        + exists (memory_index b). split; [constructor|now left].
        + exists (memory_index
                    (fst (WaitForSpaceInMemory (memory_fuel b) false b (size value)))).
          split; [apply WaitForSpaceInMemory_evicts|apply StoreInMemory_finish_index]. }
    exists l'. repeat split; [exact Hev|exact Hb'|].
    intros e Hin Hne. pose proof (evicts_keeps _ _ e Hev Hin Hne) as Hl'.
    destruct Hb' as [->| ->]; [exact Hl'|]. apply elem_of_app. now left.
  - intros Hrun Hfits Hmust front e back Hl Hfront He.
    subst b'. rewrite (Hr woken eq_refl Hfits). unfold memory_fuel.
    assert (woken = true \/ HasSpace (memory_store_ b) (size value) = false) as Hmust'
      by exact Hmust.
    destruct (WaitForSpaceInMemory_first (S (List.length (memory_index b))) woken b
                (size value) front e back Hrun Hmust' Hl Hfront He) as (-> & Herase).
    exists (memory_index
              (fst (WaitForSpaceInMemory (S (List.length (memory_index b))) false
                      (erase_memory (List.length front) b) (size value)))).
    split; [|apply StoreInMemory_finish_index].
    rewrite <- Herase. apply WaitForSpaceInMemory_evicts.
  - intros Hrun Hfits. subst b'. rewrite (Hr woken eq_refl Hfits).
    pose proof (WaitForSpaceInMemory_evicts (memory_fuel b) woken b (size value)) as Hev.
    destruct (WaitForSpaceInMemory_outcome (memory_fuel b) woken b (size value) Hrun)
      as (Hrun' & [(Hover & _)|(Hblocked & Hnone & Hspace)]); [unfold memory_fuel; lia| |].
    + left. destruct (WaitForSpaceInMemory _ woken b (size value)) as [b1 w].
      cbn in *. subst w. rewrite Hrun'. cbn. split; [reflexivity|].
      exists (memory_index b1). split; [exact Hev|reflexivity].
    + right. destruct (WaitForSpaceInMemory _ woken b (size value)) as [b1 w].
      cbn in *. subst w. cbn. now repeat split.
  - intros Hrun Hwoken Hfits Hspace. rewrite (Hr false (eq_sym Hwoken) (fun _ => Hfits)).
    unfold memory_fuel. rewrite WaitForSpaceInMemory_has_space by exact Hspace.
    cbn. now rewrite Hrun.
Qed.

Lemma memory_reclaims_oldest_completed_witness :
  memory_index (fst (StoreInMemory reclaim_example "e" "w")) =
    [MemoryElement.make "a" "x" kStarted;
     MemoryElement.make "d" "z" kCompleted;
     MemoryElement.make "e" "w" kNotStarted] /\
  MemoryElement.make "a" "x" kStarted
    ∈ memory_index (fst (StoreInMemory reclaim_example "e" "w")) /\
  memory_index (fst (StoreInMemory_resume reclaim_example "e" "w")) =
    [MemoryElement.make "a" "x" kStarted;
     MemoryElement.make "d" "z" kCompleted;
     MemoryElement.make "e" "w" kNotStarted] /\
  (exists l',
     evicts [MemoryElement.make "a" "x" kStarted; MemoryElement.make "d" "z" kCompleted] l' /\
     (memory_index (fst (StoreInMemory_resume reclaim_example "e" "w")) = l' \/
      memory_index (fst (StoreInMemory_resume reclaim_example "e" "w")) =
        l' ++ [MemoryElement.create "e" "w"])) /\
  (exists l',
     evicts [MemoryElement.make "a" "x" kStarted; MemoryElement.make "d" "z" kCompleted] l' /\
     (memory_index (fst (StoreInMemory reclaim_example "e" "w")) = l' \/
      memory_index (fst (StoreInMemory reclaim_example "e" "w")) =
        l' ++ [MemoryElement.create "e" "w"])).
Proof.
  split; [reflexivity|].
  destruct (memory_reclaims_oldest_completed reclaim_example "e" "w" false)
    as ((l' & _ & _ & Hkeep) & Hfirst & _).
  destruct (memory_reclaims_oldest_completed reclaim_example "e" "w" true)
    as (_ & Hwoken & _).
  split; [apply Hkeep; [apply list_elem_of_here|discriminate]|].
  split; [reflexivity|]. split.
  - apply (Hwoken eq_refl ltac:(discriminate) ltac:(now left)
             [MemoryElement.make "a" "x" kStarted]
             (MemoryElement.make "c" "y" kCompleted)
             [MemoryElement.make "d" "z" kCompleted]);
      [reflexivity|constructor; [discriminate|constructor]|reflexivity].
  - apply (Hfirst eq_refl ltac:(intros _; now vm_compute) ltac:(now right)
             [MemoryElement.make "a" "x" kStarted]
             (MemoryElement.make "c" "y" kCompleted)
             [MemoryElement.make "d" "z" kCompleted]);
      [reflexivity|constructor; [discriminate|constructor]|reflexivity].
Defined.

(** ** Get *)

Lemma Find_memory_None b key : Find_memory b key = None <-> ~ in_memory b key.
Proof.
  unfold Find_memory, in_memory. rewrite find_if_None, Forall_forall. split.
  - intros H (e & Hin & Hkey). specialize (H e Hin).
    apply String.eqb_neq in H. contradiction.
  - intros H e Hin. apply String.eqb_neq. intros Hkey. apply H. eauto.
Qed.

Lemma Find_memory_Some b key i :
  Find_memory b key = Some i ->
  exists e, memory_index b !! i = Some e /\ e ∈ memory_index b /\ MemoryElement.key e = key.
Proof.
  intros H. destruct (find_if_lookup _ _ _ H) as (e & He & Hkey).
  exists e. repeat split; [exact He| |now apply String.eqb_eq].
  eapply list_elem_of_lookup_2. exact He.
Qed.

Lemma disk_record_None b key :
  disk_record b key = None <->
  forall e, e ∈ disk_index b -> DiskElement.key e <> key.
Proof.
  unfold disk_record, Find_disk.
  destruct (find_if _ (disk_index b)) as [i|] eqn:Hfind.
  - destruct (find_if_lookup _ _ _ Hfind) as (e & He & Hkey). rewrite He. split.
    + discriminate.
    + intros H. exfalso. apply (H e); [|now apply String.eqb_eq].
      eapply list_elem_of_lookup_2. exact He.
  - split; [|reflexivity]. intros _ e Hin.
    apply find_if_None in Hfind. rewrite Forall_forall in Hfind.
    apply String.eqb_neq. now apply Hfind.
Qed.

Lemma disk_record_key b key e : disk_record b key = Some e -> DiskElement.key e = key.
Proof.
  unfold disk_record, Find_disk.
  destruct (find_if _ (disk_index b)) as [i|] eqn:Hfind; [|discriminate].
  destruct (find_if_lookup _ _ _ Hfind) as (e' & He & Hkey).
  rewrite He. intros [= <-]. now apply String.eqb_eq.
Qed.

(** When [running_] is true and the worker has not thrown,
    [CheckWorkerIsStillRunning] returns, and at most empties the future. *)
Lemma CheckWorkerIsStillRunning_passes b :
  running_ b = true -> (forall e, worker_ b <> ReadyThrew e) ->
  snd (CheckWorkerIsStillRunning b) = None /\
  memory_store_ (fst (CheckWorkerIsStillRunning b)) = memory_store_ b /\
  disk_store_ (fst (CheckWorkerIsStillRunning b)) = disk_store_ b /\
  files (fst (CheckWorkerIsStillRunning b)) = files b /\
  kDiskBuffer_ (fst (CheckWorkerIsStillRunning b)) = kDiskBuffer_ b /\
  running_ (fst (CheckWorkerIsStillRunning b)) = true.
Proof.
  intros Hrun Hw. unfold CheckWorkerIsStillRunning.
  destruct (worker_ b) eqn:Hworker; cbn; rewrite ?Hrun; auto 10.
  exfalso. now apply (Hw e).
Qed.

Lemma Get_from_disk_record b key :
  Get_from_disk b key =
    match disk_record b key with
    | None => (b, Threw no_such_element)
    | Some e =>
        match DiskElement.state e with
        | kCancelled => (b, Threw no_such_element)
        | kStarted => (b, Blocked (InGet key))
        | _ =>
            match files b !! GetFilename b key with
            | Some content => (b, Returned (Some content))
            | None => (b, Threw filesystem_io_error)
            end
        end
    end.
Proof.
  unfold Get_from_disk, disk_record, ReadFile.
  destruct (Find_disk b key) as [i|]; [|reflexivity].
  destruct (disk_index b !! i) as [e|]; [|reflexivity].
  destruct (DiskElement.state e); try reflexivity;
    destruct (files b !! GetFilename b key); reflexivity.
Qed.

Lemma disk_record_ext b b' key :
  disk_store_ b' = disk_store_ b -> disk_record b' key = disk_record b key.
Proof. intros H. unfold disk_record, Find_disk, disk_index. now rewrite H. Qed.

Lemma Find_memory_ext b b' key :
  memory_store_ b' = memory_store_ b -> Find_memory b' key = Find_memory b key.
Proof. intros H. unfold Find_memory, memory_index. now rewrite H. Qed.

(** C6.  On a buffer whose worker is well: a key that is in memory gets its
    value from there, whatever the disk index and the files are; a key that
    is not in memory and has no record on disk, or whose record is
    [kCancelled], gets [no_such_element]; and when its record is
    [kCompleted], [Get] returns the content of the file [GetFilename(key)]. *)
Theorem Get_looks_in_memory_then_on_disk (b : DataBuffer) (key : Key) :
  running_ b = true -> (forall e, worker_ b <> ReadyThrew e) ->
  (in_memory b key ->
   exists e, e ∈ memory_index b /\ MemoryElement.key e = key /\
     forall d f,
       snd (Get (set_files f (set_disk_store d b)) key) =
         Returned (Some (MemoryElement.value e))) /\
  (~ in_memory b key ->
   (forall e, e ∈ disk_index b -> DiskElement.key e <> key) \/
   (exists e, disk_record b key = Some e /\ DiskElement.state e = kCancelled) ->
   snd (Get b key) = Threw no_such_element) /\
  (~ in_memory b key ->
   forall e content,
     disk_record b key = Some e -> DiskElement.state e = kCompleted ->
     files b !! GetFilename b key = Some content ->
     snd (Get b key) = Returned (Some content)).
Proof.
  intros Hrun Hw. split; [|split].
  - intros Hin.
    destruct (Find_memory b key) as [i|] eqn:Hfind;
      [|apply Find_memory_None in Hfind; contradiction].
    destruct (Find_memory_Some _ _ _ Hfind) as (e & He & Hmem & Hkey).
    exists e. repeat split; [exact Hmem|exact Hkey|].
    intros d f. unfold Get.
    destruct (CheckWorkerIsStillRunning_passes (set_files f (set_disk_store d b)) Hrun Hw)
      as (Hnone & Hm & _).
    destruct (CheckWorkerIsStillRunning _) as [b' r]. cbn in Hnone, Hm. subst r.
    rewrite (Find_memory_ext b b' key Hm), Hfind.
    unfold memory_index in *. rewrite Hm, He. reflexivity.
  - intros Hout Hdisk. apply Find_memory_None in Hout.
    destruct (CheckWorkerIsStillRunning_passes b Hrun Hw) as (Hnone & Hm & Hd & _).
    unfold Get. destruct (CheckWorkerIsStillRunning b) as [b' r].
    cbn in Hnone, Hm, Hd. subst r.
    rewrite (Find_memory_ext b b' key Hm), Hout, Get_from_disk_record.
    rewrite (disk_record_ext b b' key Hd).
    destruct Hdisk as [Hdisk|(e & Hrec & Hstate)].
    + apply disk_record_None in Hdisk. now rewrite Hdisk.
    + now rewrite Hrec, Hstate.
  - intros Hout e content Hrec Hstate Hfile. apply Find_memory_None in Hout.
    destruct (CheckWorkerIsStillRunning_passes b Hrun Hw)
      as (Hnone & Hm & Hd & Hf & Hp & _).
    unfold Get. destruct (CheckWorkerIsStillRunning b) as [b' r].
    cbn in Hnone, Hm, Hd, Hf, Hp. subst r.
    rewrite (Find_memory_ext b b' key Hm), Hout, Get_from_disk_record.
    rewrite (disk_record_ext b b' key Hd), Hrec, Hstate.
    unfold GetFilename in *. now rewrite Hf, Hp, Hfile.
Qed.

Lemma Get_looks_in_memory_then_on_disk_witness :
  snd (Get get_example "m") = Returned (Some "x") /\
  snd (Get get_example "c") = Threw no_such_element /\
  snd (Get get_example "z") = Threw no_such_element /\
  snd (Get get_example "k") = Returned (Some "v").
Proof.
  destruct (Get_looks_in_memory_then_on_disk get_example "m" eq_refl ltac:(discriminate))
    as (Hm & _).
  destruct (Get_looks_in_memory_then_on_disk get_example "c" eq_refl ltac:(discriminate))
    as (_ & Hc & _).
  destruct (Get_looks_in_memory_then_on_disk get_example "z" eq_refl ltac:(discriminate))
    as (_ & Hz & _).
  destruct (Get_looks_in_memory_then_on_disk get_example "k" eq_refl ltac:(discriminate))
    as (_ & _ & Hk).
  assert (forall key, key <> "m"%string -> ~ in_memory get_example key) as Hout.
  { intros key Hne (e & Hin & Hkey). apply list_elem_of_singleton in Hin. subst e.
    now apply Hne. }
  split; [|split; [|split]].
  - destruct Hm as (e & Hin & _ & Hget).
    + exists (MemoryElement.make "m" "x" kStarted). split; [apply list_elem_of_here|reflexivity].
    + apply list_elem_of_singleton in Hin. subst e.
      exact (Hget (disk_store_ get_example) (files get_example)).
  - apply Hc; [apply Hout; discriminate|].
    right. exists (DiskElement.make "c" kCancelled). split; reflexivity.
  - apply Hz; [apply Hout; discriminate|].
    left. exact (proj1 (disk_record_None get_example "z") eq_refl).
  - apply (Hk ltac:(apply Hout; discriminate) (DiskElement.make "k" kCompleted) "v"%string);
      reflexivity.
Defined.

(** ** What [Store] does with an exception of its [Delete] *)

Lemma CheckWorkerIsStillRunning_pending b :
  running_ b = true -> worker_ b = Pending -> CheckWorkerIsStillRunning b = (b, None).
Proof. intros Hrun Hw. unfold CheckWorkerIsStillRunning. now rewrite Hw, Hrun. Qed.

Lemma Delete_file_missing b key e :
  running_ b = true -> worker_ b = Pending -> ~ in_memory b key ->
  disk_record b key = Some e -> DiskElement.state e = kCompleted ->
  files b !! GetFilename b key = None ->
  Delete b key = (b, Some filesystem_io_error).
Proof.
  intros Hrun Hw Hout Hrec Hstate Hfile.
  unfold Delete. rewrite CheckWorkerIsStillRunning_pending by assumption.
  unfold DeleteFromMemory. apply Find_memory_None in Hout. rewrite Hout. cbn.
  unfold DeleteFromDisk. pose proof (disk_record_key _ _ _ Hrec) as Hkey.
  unfold disk_record in Hrec. destruct (Find_disk b key) as [i|]; [|discriminate].
  rewrite Hrec, Hstate. unfold RemoveFile. now rewrite Hkey, Hfile.
Qed.

(** C9.  [Store] goes on with whatever state its [Delete] left, whichever
    exception [Delete] threw.  In particular, when the key has a
    [kCompleted] record on disk whose file is gone, [Delete] throws
    [filesystem_io_error] out of [RemoveFile], and [Store] still stores the
    value: here, for a value that fits in memory, it returns normally with
    the value appended to the memory index. *)
Theorem Store_swallows_exception_of_Delete (b : DataBuffer) (key : Key) (value : Value) :
  (forall b1 e,
     Delete b key = (b1, Some e) ->
     Store b key value = Store_after_Delete b1 key value) /\
  (running_ b = true -> worker_ b = Pending -> ~ in_memory b key ->
   forall e,
     disk_record b key = Some e -> DiskElement.state e = kCompleted ->
     files b !! GetFilename b key = None ->
     Delete b key = (b, Some filesystem_io_error) /\
     (size value <= Storage.max (memory_store_ b) ->
      HasSpace (memory_store_ b) (size value) = true ->
      Store b key value =
        (set_memory_index (memory_index b ++ [MemoryElement.create key value])
                          (add_memory_current (size value) b),
         Returned None))).
Proof.
  split.
  - intros b1 e H. unfold Store. now rewrite H.
  - intros Hrun Hw Hout e Hrec Hstate Hfile.
    pose proof (Delete_file_missing b key e Hrun Hw Hout Hrec Hstate Hfile) as Hdel.
    split; [exact Hdel|]. intros Hfits Hspace.
    unfold Store. rewrite Hdel. cbn [fst].
    unfold Store_after_Delete. rewrite CheckWorkerIsStillRunning_pending by assumption.
    unfold StoreInMemory.
    destruct (Z.gtb_spec (size value) (Storage.max (memory_store_ b))); [lia|].
    unfold memory_fuel. rewrite WaitForSpaceInMemory_has_space by exact Hspace.
    cbn. now rewrite Hrun.
Qed.

Lemma Store_swallows_exception_of_Delete_witness :
  Delete missing_file_example "k" = (missing_file_example, Some filesystem_io_error) /\
  snd (Store missing_file_example "k" "v") = Returned None /\
  memory_index (fst (Store missing_file_example "k" "v")) =
    [MemoryElement.make "k" "v" kNotStarted].
Proof.
  destruct (Store_swallows_exception_of_Delete missing_file_example "k" "v") as (_ & H).
  assert (~ in_memory missing_file_example "k") as Hout.
  { intros (e & Hin & _). inversion Hin. }
  destruct (H eq_refl eq_refl Hout (DiskElement.make "k" kCompleted) eq_refl eq_refl eq_refl)
    as (Hdel & Hstore).
  split; [exact Hdel|].
  rewrite Hstore; [split; reflexivity|now vm_compute|reflexivity].
Defined.

(** ** A memory wait that ends because the buffer has stopped *)

Lemma WaitForSpaceInMemory_not_running fuel in_wait b required_space :
  running_ b = false ->
  WaitForSpaceInMemory (S fuel) in_wait b required_space = (b, MemoryWaitOver).
Proof.
  intros Hrun. simpl.
  destruct (negb in_wait && HasSpace (memory_store_ b) required_space); [reflexivity|].
  unfold FindMemoryRemovalCandidate. rewrite Hrun. cbn. now rewrite orb_true_r.
Qed.

Lemma set_worker_same b : set_worker (worker_ b) b = b.
Proof. now destruct b. Qed.

(** What the code does for a [Store] that comes back from waiting for room
    in memory and finds [running_] false.  It takes the result of the
    worker: it rethrows what the worker threw; when the worker returned, or
    its result was taken before, the call returns normally, having stored
    nothing and thrown nothing; and while the worker has not finished it
    stays in [worker_.get()], with the memory mutex and [worker_mutex_]
    locked.  In no case does it change the two stores or the files. *)
Theorem Store_woken_when_not_running (b : DataBuffer) (key : Key) (value : Value) :
  running_ b = false ->
  Resume b (InStoreInMemory key value) =
    match worker_ b with
    | ReadyThrew e => (set_worker Invalid b, Threw e)
    | ReadyReturned | Invalid => (set_worker Invalid b, Returned None)
    | Pending => (b, NeverReturns)
    end /\
  memory_store_ (fst (Resume b (InStoreInMemory key value))) = memory_store_ b /\
  disk_store_ (fst (Resume b (InStoreInMemory key value))) = disk_store_ b /\
  files (fst (Resume b (InStoreInMemory key value))) = files b.
Proof.
  intros Hrun.
  assert (Resume b (InStoreInMemory key value) =
            match worker_ b with
            | ReadyThrew e => (set_worker Invalid b, Threw e)
            | ReadyReturned | Invalid => (set_worker Invalid b, Returned None)
            | Pending => (b, NeverReturns)
            end) as H.
  { unfold Resume, StoreInMemory_resume, memory_fuel.
    rewrite WaitForSpaceInMemory_not_running by exact Hrun.
    unfold StoreInMemory_finish. rewrite Hrun. cbn.
    destruct (worker_ b) eqn:Hw; cbn; try reflexivity.
    now rewrite <- Hw, set_worker_same. }
  split; [exact H|]. rewrite H. destruct (worker_ b); repeat split.
Qed.

Lemma Store_woken_when_not_running_witness :
  running_ (buffer stopped_example) = false /\
  Resume (buffer stopped_example) (InStoreInMemory "b" "y") =
    (set_worker Invalid (buffer stopped_example), Returned None).
Proof.
  split; [reflexivity|].
  exact (proj1 (Store_woken_when_not_running (buffer stopped_example) "b" "y" eq_refl)).
Defined.

(** C4.  A [Store] whose wait for room in memory ends because [running_]
    became false does not fail when the worker left no exception: it
    returns normally without having stored the value.  On a run: the buffer
    holds one byte at most; [Store] of "b" waits for room in memory;
    another thread's [Store] of too big a value stops the buffer; the
    worker returns; the first [Store] is woken, and returns normally
    although "b" is neither in memory nor on disk. *)
Lemma Store_returns_without_storing :
  run (start (fresh 1 1 false)) stopped_schedule =
    Some (stopped_example,
          [Returned None; Blocked (InStoreInMemory "b" "y"); Threw cannot_exceed_limit;
           Returned None]) /\
  running_ (buffer stopped_example) = false /\
  worker_ (buffer stopped_example) = ReadyReturned /\
  waiting stopped_example = [InStoreInMemory "b" "y"] /\
  (exists s', exec stopped_example (Wakes 0%nat) = Some (s', Returned None) /\
              ~ in_memory (buffer s') "b" /\
              disk_record (buffer s') "b" = None /\
              files (buffer s') = ∅).
Proof.
  split; [reflexivity|]. split; [reflexivity|]. split; [reflexivity|].
  split; [reflexivity|].
  eexists. split; [reflexivity|]. split; [|split; reflexivity].
  intros (e & Hin & Hkey). apply list_elem_of_singleton in Hin. subst e. discriminate Hkey.
Qed.

(** On that buffer a [Store] that starts, instead of coming back from a
    wait, throws [filesystem_io_error] out of [CheckWorkerIsStillRunning],
    and so do [Get] and [Delete]. *)
Example calls_after_stop_throw :
  snd (Store (buffer stopped_example) "b" "y") = Threw filesystem_io_error /\
  snd (Get (buffer stopped_example) "b") = Threw filesystem_io_error /\
  snd (Delete_call (buffer stopped_example) "b") = Threw filesystem_io_error.
Proof. split; [|split]; vm_compute; reflexivity. Qed.

(** ** A buffer that has stopped stays stopped *)

Lemma running_CheckWorkerIsStillRunning b :
  running_ (fst (CheckWorkerIsStillRunning b)) = running_ b.
Proof. unfold CheckWorkerIsStillRunning. destruct (worker_ b); reflexivity. Qed.

Lemma running_erase_memory i b : running_ (erase_memory i b) = running_ b.
Proof. unfold erase_memory. destruct (memory_index b !! i); reflexivity. Qed.

Lemma running_DeleteFromMemory b key : running_ (fst (DeleteFromMemory b key)) = running_ b.
Proof.
  unfold DeleteFromMemory. destruct (Find_memory b key) as [i|]; [|reflexivity].
  destruct (memory_index b !! i); [apply running_erase_memory|reflexivity].
Qed.

Lemma running_RemoveFile b key want b' v :
  RemoveFile b key want = inr (b', v) -> running_ b' = running_ b.
Proof.
  unfold RemoveFile. destruct (files b !! GetFilename b key); [|discriminate].
  intros [= <- _]. reflexivity.
Qed.

Lemma running_DeleteFromDisk b key : running_ (fst (DeleteFromDisk b key)) = running_ b.
Proof.
  unfold DeleteFromDisk. destruct (Find_disk b key) as [i|]; [|reflexivity].
  destruct (disk_index b !! i) as [e|]; [|reflexivity].
  destruct (DiskElement.state e); try reflexivity.
  destruct (RemoveFile b (DiskElement.key e) false) as [err|[b' v]] eqn:Hrm; [reflexivity|].
  cbn. now apply running_RemoveFile in Hrm.
Qed.

Lemma running_Delete b key : running_ (fst (Delete b key)) = running_ b.
Proof.
  unfold Delete. pose proof (running_CheckWorkerIsStillRunning b) as Hc.
  destruct (CheckWorkerIsStillRunning b) as [b0 [e|]]; [exact Hc|]. cbn in Hc.
  pose proof (running_DeleteFromMemory b0 key) as Hm.
  destruct (DeleteFromMemory b0 key) as [b1 s]. cbn in Hm.
  destruct (StoringState_eqb s kNotStarted); cbn; [congruence|].
  rewrite running_DeleteFromDisk. congruence.
Qed.

Lemma running_WaitForSpaceOnDisk fuel b key required_space :
  running_ (fst (WaitForSpaceOnDisk fuel b key required_space)) = running_ b.
Proof.
  revert b. induction fuel as [|fuel IH]; intros b; simpl; [reflexivity|].
  destruct (negb (HasSpace (disk_store_ b) required_space) && running_ b); [|reflexivity].
  destruct (Find_disk b key) as [i|]; [|reflexivity].
  destruct (disk_index b !! i) as [e|]; [|reflexivity].
  destruct (StoringState_eqb (DiskElement.state e) kCancelled); [reflexivity|].
  destruct (kPopFunctor_ b); [|reflexivity].
  destruct (FindOldestOnDisk b) as [oldest|]; [|reflexivity].
  destruct (StoringState_eqb (DiskElement.state oldest) kCompleted); [|reflexivity].
  destruct (RemoveFile b (DiskElement.key oldest) true) as [err|[b1 v]] eqn:Hrm;
    [reflexivity|].
  rewrite IH. cbn. now apply running_RemoveFile in Hrm.
Qed.

Lemma stopped_StoreOnDisk_finish r key value :
  running_ (fst r) = false -> running_ (fst (StoreOnDisk_finish r key value)) = false.
Proof.
  destruct r as [b w]. cbn. intros Hrun. destruct w; cbn; try exact Hrun.
  now rewrite Hrun.
Qed.

Lemma stopped_StoreOnDisk_resume b key value :
  running_ b = false -> running_ (fst (StoreOnDisk_resume b key value)) = false.
Proof.
  intros Hrun. apply stopped_StoreOnDisk_finish. now rewrite running_WaitForSpaceOnDisk.
Qed.

Lemma stopped_StoreOnDisk b key value :
  running_ b = false -> running_ (fst (StoreOnDisk b key value)) = false.
Proof.
  intros Hrun. unfold StoreOnDisk.
  destruct (size value >? Storage.max (disk_store_ b)); [reflexivity|].
  now apply stopped_StoreOnDisk_resume.
Qed.

Lemma running_WaitForSpaceInMemory fuel in_wait b required_space :
  running_ (fst (WaitForSpaceInMemory fuel in_wait b required_space)) = running_ b.
Proof.
  revert in_wait b. induction fuel as [|fuel IH]; intros in_wait b; simpl; [reflexivity|].
  destruct (negb in_wait && HasSpace (memory_store_ b) required_space); [reflexivity|].
  destruct (FindMemoryRemovalCandidate b required_space) as [itr|]; [|reflexivity].
  destruct (negb (running_ b)); [reflexivity|].
  destruct itr as [i|]; rewrite IH; [apply running_erase_memory|reflexivity].
Qed.

Lemma stopped_StoreInMemory_finish r key value :
  running_ (fst r) = false -> running_ (fst (StoreInMemory_finish r key value)) = false.
Proof.
  destruct r as [b w]. cbn. intros Hrun. destruct w; cbn; try exact Hrun.
  rewrite Hrun. cbn. destruct (worker_ b); exact Hrun.
Qed.

Lemma stopped_after_StoreOnDisk r key value :
  running_ (fst r) = false -> running_ (fst (after_StoreOnDisk r key value)) = false.
Proof. destruct r as [b w]. now destruct w. Qed.

Lemma stopped_after_StoreInMemory r key value :
  running_ (fst r) = false -> running_ (fst (after_StoreInMemory r key value)) = false.
Proof.
  destruct r as [b m]. cbn. intros Hrun. destruct m; cbn; try exact Hrun.
  apply stopped_after_StoreOnDisk. now apply stopped_StoreOnDisk.
Qed.

Lemma stopped_Resume b w :
  running_ b = false -> running_ (fst (Resume b w)) = false.
Proof.
  intros Hrun. destruct w as [key value|key value|key]; cbn.
  - apply stopped_after_StoreInMemory, stopped_StoreInMemory_finish.
    now rewrite running_WaitForSpaceInMemory.
  - now apply stopped_after_StoreOnDisk, stopped_StoreOnDisk_resume.
  - unfold Get_from_disk. destruct (Find_disk b key) as [i|]; [|exact Hrun].
    destruct (disk_index b !! i) as [e|]; [|exact Hrun].
    destruct (DiskElement.state e); try exact Hrun;
      destruct (ReadFile b key); exact Hrun.
Qed.

(** The three operations on a buffer that is not running: each one throws,
    out of [CheckWorkerIsStillRunning]. *)
Lemma CheckWorkerIsStillRunning_stopped b :
  running_ b = false -> exists e, snd (CheckWorkerIsStillRunning b) = Some e.
Proof.
  intros Hrun. unfold CheckWorkerIsStillRunning.
  destruct (worker_ b); cbn; rewrite ?Hrun; eauto.
Qed.

Lemma Get_stopped b key :
  running_ b = false -> throws (Get b key) /\ running_ (fst (Get b key)) = false.
Proof.
  intros Hrun. unfold Get, throws.
  destruct (CheckWorkerIsStillRunning_stopped b Hrun) as (e & He).
  pose proof (running_CheckWorkerIsStillRunning b) as Hc.
  destruct (CheckWorkerIsStillRunning b) as [b' r]. cbn in He, Hc. subst r. cbn.
  split; [eauto|congruence].
Qed.

Lemma Delete_stopped b key :
  running_ b = false ->
  throws (Delete_call b key) /\ running_ (fst (Delete_call b key)) = false.
Proof.
  intros Hrun. unfold Delete_call, Delete, throws.
  destruct (CheckWorkerIsStillRunning_stopped b Hrun) as (e & He).
  pose proof (running_CheckWorkerIsStillRunning b) as Hc.
  destruct (CheckWorkerIsStillRunning b) as [b' r]. cbn in He, Hc. subst r. cbn.
  split; [eauto|congruence].
Qed.

Lemma Store_stopped b key value :
  running_ b = false ->
  throws (Store b key value) /\ running_ (fst (Store b key value)) = false.
Proof.
  intros Hrun. unfold Store, Store_after_Delete, throws.
  assert (running_ (fst (Delete b key)) = false) as Hd
    by now rewrite running_Delete.
  destruct (CheckWorkerIsStillRunning_stopped _ Hd) as (e & He).
  pose proof (running_CheckWorkerIsStillRunning (fst (Delete b key))) as Hc.
  destruct (CheckWorkerIsStillRunning (fst (Delete b key))) as [b' r].
  cbn in He, Hc. subst r. cbn. split; [eauto|congruence].
Qed.

Lemma stopped_run_call b c :
  running_ b = false -> running_ (fst (run_call b c)) = false.
Proof.
  intros Hrun. destruct c as [key value|key|key|m|m]; cbn.
  - now apply Store_stopped.
  - now apply Get_stopped.
  - now apply Delete_stopped.
  - unfold SetMaxMemoryUsage. now destruct (m >? Storage.max (disk_store_ b)).
  - unfold SetMaxDiskUsage. now destruct (Storage.max (memory_store_ b) >? m).
Qed.

Lemma stopped_worker_after_StoreOnDisk r key value b' pc :
  running_ (fst r) = false ->
  worker_after_StoreOnDisk r key value = Some (b', pc) -> running_ b' = false.
Proof.
  destruct r as [b w]. cbn. intros Hrun.
  destruct w; intros [= <- _]; exact Hrun.
Qed.

Lemma stopped_CopyQueueToDisk b pc b' pc' :
  running_ b = false -> CopyQueueToDisk b pc = Some (b', pc') -> running_ b' = false.
Proof.
  intros Hrun. destruct pc as [|key value|key| |]; cbn.
  - rewrite Hrun. cbn. rewrite orb_true_r. cbn. intros [= <- _]. exact Hrun.
  - apply stopped_worker_after_StoreOnDisk. now apply stopped_StoreOnDisk_resume.
  - destruct (Find_memory b key); intros [= <- _]; exact Hrun.
  - intros [= <- _]. exact Hrun.
  - intros [= <- _]. exact Hrun.
Qed.

Lemma stopped_exec s ev s' o :
  running_ (buffer s) = false -> exec s ev = Some (s', o) ->
  running_ (buffer s') = false.
Proof.
  intros Hrun. unfold exec. destruct (halted s); [discriminate|].
  destruct ev as [c|i| |].
  - pose proof (stopped_run_call (buffer s) c Hrun) as H.
    destruct (run_call (buffer s) c) as [b r]. cbn in H.
    destruct r; intros [= <- _]; exact H.
  - destruct (waiting s !! i) as [w|]; [|discriminate].
    pose proof (stopped_Resume (buffer s) w Hrun) as H.
    destruct (Resume (buffer s) w) as [b r]. cbn in H.
    destruct r; intros [= <- _]; exact H.
  - destruct (CopyQueueToDisk (buffer s) (worker_pc s)) as [[b pc]|] eqn:Hw; [|discriminate].
    pose proof (stopped_CopyQueueToDisk _ _ _ _ Hrun Hw) as H.
    destruct pc; intros [= <- _]; exact H.
  - intros [= <- _]. exact Hrun.
Qed.

Lemma stopped_reachable s s' :
  reachable s s' -> running_ (buffer s) = false -> running_ (buffer s') = false.
Proof.
  induction 1 as [|s1 s2 ev o _ IH Hexec]; intros Hrun; [exact Hrun|].
  eapply stopped_exec; [apply IH; exact Hrun|exact Hexec].
Qed.

Lemma run_reachable s evs s' os : run s evs = Some (s', os) -> reachable s s'.
Proof.
  revert s s' os. induction evs as [|ev evs IH]; intros s s' os; simpl.
  - intros [= <- _]. constructor.
  - destruct (exec s ev) as [[s1 o]|] eqn:Hexec; [|discriminate].
    destruct (run s1 evs) as [[s2 os']|] eqn:Hrun; [|discriminate].
    intros [= <- _]. specialize (IH _ _ _ Hrun).
    clear Hrun. induction IH as [|sa sb ev' o' _ IH' Hstep].
    + eapply reachable_step; [constructor|exact Hexec].
    + eapply reachable_step; [exact IH'|exact Hstep].
Qed.

(** ** A value that is larger than the disk allows *)

Lemma maxima_erase_memory i b :
  Storage.max (memory_store_ (erase_memory i b)) = Storage.max (memory_store_ b) /\
  Storage.max (disk_store_ (erase_memory i b)) = Storage.max (disk_store_ b) /\
  worker_ (erase_memory i b) = worker_ b.
Proof. unfold erase_memory. destruct (memory_index b !! i); repeat split. Qed.

Lemma maxima_DeleteFromMemory b key :
  Storage.max (memory_store_ (fst (DeleteFromMemory b key))) = Storage.max (memory_store_ b) /\
  Storage.max (disk_store_ (fst (DeleteFromMemory b key))) = Storage.max (disk_store_ b) /\
  worker_ (fst (DeleteFromMemory b key)) = worker_ b.
Proof.
  unfold DeleteFromMemory. destruct (Find_memory b key) as [i|]; [|repeat split].
  destruct (memory_index b !! i); [apply maxima_erase_memory|repeat split].
Qed.

Lemma maxima_DeleteFromDisk b key :
  Storage.max (memory_store_ (fst (DeleteFromDisk b key))) = Storage.max (memory_store_ b) /\
  Storage.max (disk_store_ (fst (DeleteFromDisk b key))) = Storage.max (disk_store_ b) /\
  worker_ (fst (DeleteFromDisk b key)) = worker_ b.
Proof.
  unfold DeleteFromDisk. destruct (Find_disk b key) as [i|]; [|repeat split].
  destruct (disk_index b !! i) as [e|]; [|repeat split].
  destruct (DiskElement.state e); try (repeat split; fail).
  unfold RemoveFile. destruct (files b !! GetFilename b (DiskElement.key e)); repeat split.
Qed.

Lemma maxima_CheckWorkerIsStillRunning b :
  Storage.max (memory_store_ (fst (CheckWorkerIsStillRunning b))) =
    Storage.max (memory_store_ b) /\
  Storage.max (disk_store_ (fst (CheckWorkerIsStillRunning b))) =
    Storage.max (disk_store_ b) /\
  forall e, worker_ (fst (CheckWorkerIsStillRunning b)) <> ReadyThrew e.
Proof.
  unfold CheckWorkerIsStillRunning.
  destruct (worker_ b) eqn:Hw; cbn; repeat split; try rewrite Hw; discriminate.
Qed.

(** [Delete] leaves the two maxima alone, and no exception in the future. *)
Lemma maxima_Delete b key :
  Storage.max (memory_store_ (fst (Delete b key))) = Storage.max (memory_store_ b) /\
  Storage.max (disk_store_ (fst (Delete b key))) = Storage.max (disk_store_ b) /\
  forall e, worker_ (fst (Delete b key)) <> ReadyThrew e.
Proof.
  unfold Delete. destruct (maxima_CheckWorkerIsStillRunning b) as (Hm & Hd & Hw).
  destruct (CheckWorkerIsStillRunning b) as [b0 [e|]]; [auto|]. cbn in Hm, Hd, Hw.
  destruct (maxima_DeleteFromMemory b0 key) as (Hm1 & Hd1 & Hw1).
  destruct (DeleteFromMemory b0 key) as [b1 st]. cbn in Hm1, Hd1, Hw1.
  destruct (StoringState_eqb st kNotStarted); cbn.
  - split; [congruence|split; [congruence|]]. intros e. rewrite Hw1. apply Hw.
  - destruct (maxima_DeleteFromDisk b1 key) as (Hm2 & Hd2 & Hw2).
    split; [congruence|split; [congruence|]]. intros e. rewrite Hw2, Hw1. apply Hw.
Qed.

Lemma disk_erase_memory i b :
  disk_store_ (erase_memory i b) = disk_store_ b /\ files (erase_memory i b) = files b.
Proof. unfold erase_memory. destruct (memory_index b !! i); split; reflexivity. Qed.

(** [Delete] of a key that has no record in the disk index leaves the disk
    store and the files as they are. *)
Lemma Delete_without_record b key :
  (forall e, e ∈ disk_index b -> DiskElement.key e <> key) ->
  disk_store_ (fst (Delete b key)) = disk_store_ b /\
  files (fst (Delete b key)) = files b.
Proof.
  intros Hnone. unfold Delete.
  assert (disk_store_ (fst (CheckWorkerIsStillRunning b)) = disk_store_ b /\
          files (fst (CheckWorkerIsStillRunning b)) = files b) as (Hd & Hf)
    by (unfold CheckWorkerIsStillRunning; destruct (worker_ b); split; reflexivity).
  destruct (CheckWorkerIsStillRunning b) as [b0 [e|]]; [now split|]. cbn in Hd, Hf.
  assert (disk_store_ (fst (DeleteFromMemory b0 key)) = disk_store_ b0 /\
          files (fst (DeleteFromMemory b0 key)) = files b0) as (Hd1 & Hf1).
  { unfold DeleteFromMemory. destruct (Find_memory b0 key) as [i|]; [|now split].
    destruct (memory_index b0 !! i); [apply disk_erase_memory|now split]. }
  destruct (DeleteFromMemory b0 key) as [b1 st]. cbn in Hd1, Hf1.
  destruct (StoringState_eqb st kNotStarted); cbn; [split; congruence|].
  assert (disk_record b1 key = None) as Hrec.
  { rewrite (disk_record_ext b b1 key) by congruence. now apply disk_record_None. }
  unfold DeleteFromDisk. unfold disk_record in Hrec.
  destruct (Find_disk b1 key) as [i|]; [rewrite Hrec|]; cbn; split; congruence.
Qed.

(** A record that is [kStarted] after [Delete] was there, and [kStarted],
    before: [Delete] only erases records or cancels them. *)
Lemma Delete_adds_no_started_record b key e :
  e ∈ disk_index (fst (Delete b key)) -> DiskElement.state e = kStarted ->
  e ∈ disk_index b.
Proof.
  unfold Delete.
  assert (disk_index (fst (CheckWorkerIsStillRunning b)) = disk_index b) as Hd
    by (unfold CheckWorkerIsStillRunning; destruct (worker_ b); reflexivity).
  destruct (CheckWorkerIsStillRunning b) as [b0 [err|]]; cbn in Hd;
    [cbn; now rewrite Hd|].
  assert (disk_index (fst (DeleteFromMemory b0 key)) = disk_index b0) as Hd1.
  { unfold DeleteFromMemory. destruct (Find_memory b0 key) as [i|]; [|reflexivity].
    destruct (memory_index b0 !! i); [|reflexivity].
    unfold disk_index. cbn. now rewrite (proj1 (disk_erase_memory i b0)). }
  destruct (DeleteFromMemory b0 key) as [b1 st]. cbn in Hd1.
  destruct (StoringState_eqb st kNotStarted); cbn; [now rewrite Hd1, Hd|].
  rewrite <- Hd, <- Hd1. unfold DeleteFromDisk.
  destruct (Find_disk b1 key) as [i|]; [|auto].
  destruct (disk_index b1 !! i) as [x|] eqn:Hx; [|auto].
  destruct (DiskElement.state x); auto.
  - cbn. intros Hin Hstate. apply list_elem_of_lookup in Hin as [j Hj].
    destruct (decide (i = j)) as [->|Hne].
    + rewrite list_lookup_alter_eq, Hx in Hj. injection Hj as <-. discriminate Hstate.
    + rewrite list_lookup_alter_ne in Hj by exact Hne.
      eapply list_elem_of_lookup_2. exact Hj.
  - destruct (RemoveFile b1 (DiskElement.key x) false) as [err|[b2 v]] eqn:Hrm; [auto|].
    cbn. rewrite (RemoveFile_disk_index _ _ _ _ _ Hrm).
    intros Hin _. eapply list_elem_of_delete_inv. exact Hin.
Qed.

(** [StoreOnDisk] tests the size before it touches the index. *)
Lemma StoreOnDisk_larger_than_disk b key value :
  size value > Storage.max (disk_store_ b) ->
  StoreOnDisk b key value = (StopRunning b, DiskWriteThrew cannot_exceed_limit).
Proof.
  intros H. unfold StoreOnDisk.
  destruct (Z.gtb_spec (size value) (Storage.max (disk_store_ b))); [reflexivity|lia].
Qed.

Lemma run_call_stopped b c :
  running_ b = false -> data_call c = true -> throws (run_call b c).
Proof.
  intros Hrun Hc. destruct c as [key value|key|key|m|m]; try discriminate Hc; cbn.
  - now apply Store_stopped.
  - now apply Get_stopped.
  - now apply Delete_stopped.
Qed.

(** On a stopped buffer a call of [Store], [Get] or [Delete] that returns at
    all has thrown, and it does return unless some thread holds a mutex for
    ever. *)
Lemma exec_stopped s c :
  running_ (buffer s) = false -> data_call c = true ->
  (forall s' o, exec s (Calls c) = Some (s', o) -> exists e, o = Threw e) /\
  (halted s = false -> exists s' e, exec s (Calls c) = Some (s', Threw e)).
Proof.
  intros Hrun Hc. destruct (run_call_stopped _ c Hrun Hc) as (e & He).
  unfold exec. destruct (run_call (buffer s) c) as [b o]. cbn in He. subst o.
  split.
  - intros s' o. destruct (halted s); [discriminate|]. intros [= _ <-]. eauto.
  - intros ->. eauto.
Qed.

(** What the code does for a [Store] of a value larger than the maximum
    disk usage, on a buffer
    that is running and whose maximum memory usage is at most its maximum
    disk usage: the call throws [cannot_exceed_limit]; what it leaves is
    what its initial [Delete] left, with [running_] false and, at most, the
    future emptied, so [StoreOnDisk] appended no element to the disk index
    and wrote no file: every record that is [kStarted] afterwards was there
    before, and for a key without a record on disk the disk store and the
    files are those from before the call.  From then on,
    whatever the threads do, [running_] stays false and every [Store],
    [Get] and [Delete] throws: none returns normally, and each returns
    unless some thread holds a mutex for ever. *)
Theorem Store_larger_than_disk (s : System) (key : Key) (value : Value) :
  halted s = false ->
  running_ (buffer s) = true ->
  Storage.max (memory_store_ (buffer s)) <= Storage.max (disk_store_ (buffer s)) ->
  size value > Storage.max (disk_store_ (buffer s)) ->
  exists s',
    exec s (Calls (CallStore key value)) = Some (s', Threw cannot_exceed_limit) /\
    disk_store_ (buffer s') = disk_store_ (fst (Delete (buffer s) key)) /\
    memory_store_ (buffer s') = memory_store_ (fst (Delete (buffer s) key)) /\
    files (buffer s') = files (fst (Delete (buffer s) key)) /\
    (forall e, e ∈ disk_index (buffer s') -> DiskElement.state e = kStarted ->
               e ∈ disk_index (buffer s)) /\
    ((forall e, e ∈ disk_index (buffer s) -> DiskElement.key e <> key) ->
     disk_store_ (buffer s') = disk_store_ (buffer s) /\
     files (buffer s') = files (buffer s)) /\
    running_ (buffer s') = false /\
    forall s'', reachable s' s'' ->
      running_ (buffer s'') = false /\
      forall c, data_call c = true ->
        (forall s3 o, exec s'' (Calls c) = Some (s3, o) -> exists e, o = Threw e) /\
        (halted s'' = false -> exists s3 e, exec s'' (Calls c) = Some (s3, Threw e)).
Proof.
  intros Hhalt Hrun Hmax Hsize.
  set (b1 := fst (Delete (buffer s) key)).
  destruct (maxima_Delete (buffer s) key) as (Hm1 & Hd1 & Hw1). fold b1 in Hm1, Hd1, Hw1.
  assert (running_ b1 = true) as Hrun1 by (unfold b1; now rewrite running_Delete).
  destruct (CheckWorkerIsStillRunning_passes b1 Hrun1 Hw1) as (Hnone & Hm & Hd & Hf & _).
  assert (Store (buffer s) key value =
            (StopRunning (fst (CheckWorkerIsStillRunning b1)), Threw cannot_exceed_limit))
    as Hstore.
  { unfold Store, Store_after_Delete. fold b1.
    destruct (CheckWorkerIsStillRunning b1) as [b2 r]. cbn in Hnone, Hm, Hd. subst r.
    unfold StoreInMemory. rewrite Hm.
    destruct (Z.gtb_spec (size value) (Storage.max (memory_store_ b1))); [|lia].
    cbn. rewrite StoreOnDisk_larger_than_disk by (rewrite Hd; lia).
    reflexivity. }
  eexists. split; [|split; [|split; [|split; [|split; [|split; [|split]]]]]].
  - unfold exec. rewrite Hhalt. cbn [run_call]. rewrite Hstore. reflexivity.
  - exact Hd.
  - exact Hm.
  - exact Hf.
  - intros e. unfold disk_index at 1. cbn. rewrite Hd.
    apply Delete_adds_no_started_record.
  - intros Hrec. destruct (Delete_without_record (buffer s) key Hrec) as (Hd0 & Hf0).
    cbn. split; [rewrite Hd|rewrite Hf]; assumption.
  - reflexivity.
  - intros s'' Hreach.
    assert (running_ (buffer s'') = false) as Hstopped
      by (eapply stopped_reachable; [exact Hreach|reflexivity]).
    split; [exact Hstopped|]. intros c Hc. now apply exec_stopped.
Qed.

Lemma Store_larger_than_disk_witness :
  exists s',
    exec (start (fresh 1 2 false)) (Calls (CallStore "k" "abc")) =
      Some (s', Threw cannot_exceed_limit) /\
    disk_index (buffer s') = [] /\
    running_ (buffer s') = false /\
    exists s3 e, exec s' (Calls (CallGet "k")) = Some (s3, Threw e).
Proof.
  destruct (Store_larger_than_disk (start (fresh 1 2 false)) "k" "abc"
              eq_refl eq_refl ltac:(now vm_compute) ltac:(now vm_compute))
    as (s' & Hexec & Hdisk & _ & _ & _ & _ & Hrun & Hafter).
  exists s'. split; [exact Hexec|]. split; [|split; [exact Hrun|]].
  - unfold disk_index. now rewrite Hdisk.
  - destruct (Hafter s' (reachable_refl s')) as (_ & Hcalls).
    apply (Hcalls (CallGet "k") eq_refl).
    injection Hexec as <-. reflexivity.
Defined.

(** C3.  The [Store] of a value larger than the disk allows throws
    [cannot_exceed_limit] before it touches the disk store, and clears
    [running_]; but it is not so that every later call fails.  On a run:
    the memory holds one byte and the disk two; "d" is on disk, "a" fills
    the memory, and a [Store] of "b" waits for room in memory.  The [Store]
    of three bytes under "big" throws and leaves the disk store and the
    files exactly as they were.  [StopRunning] wakes the [Store] of "b",
    which finds [running_] false and calls [worker_.get()] with the memory
    mutex and [worker_mutex_] locked, while the worker, which needs the
    memory mutex in order to return, has not returned.  From then on no
    [Store], [Get] or [Delete] gets past [worker_mutex_] in
    [CheckWorkerIsStillRunning] and the worker cannot move: no call fails,
    none returns. *)
Theorem Store_larger_than_disk_then_join :
  run (start (fresh 1 2 false))
      (oversized_prefix ++ [Calls (CallStore "big" "ccc"); Wakes 0]) =
    Some (joined_example,
          [Returned None; Returned None; Blocked (InStoreInMemory "b" "y");
           Threw cannot_exceed_limit; NeverReturns]) /\
  exec before_oversized_example (Calls (CallStore "big" "ccc")) =
    Some (after_oversized_example, Threw cannot_exceed_limit) /\
  disk_index (buffer before_oversized_example) = [DiskElement.make "d" kCompleted] /\
  disk_store_ (buffer after_oversized_example) =
    disk_store_ (buffer before_oversized_example) /\
  files (buffer after_oversized_example) = files (buffer before_oversized_example) /\
  running_ (buffer after_oversized_example) = false /\
  worker_ (buffer after_oversized_example) = Pending /\
  waiting after_oversized_example = [InStoreInMemory "b" "y"] /\
  exec after_oversized_example (Wakes 0) = Some (joined_example, NeverReturns) /\
  halted joined_example = true /\
  worker_ (buffer joined_example) = Pending /\
  (forall c, exec joined_example (Calls c) = None) /\
  exec joined_example Worker = None.
Proof.
  assert (halted joined_example = true) as Hhalted by (vm_compute; reflexivity).
  split; [vm_compute; reflexivity|]. split; [vm_compute; reflexivity|].
  split; [vm_compute; reflexivity|]. split; [vm_compute; reflexivity|].
  split; [vm_compute; reflexivity|]. split; [vm_compute; reflexivity|].
  split; [vm_compute; reflexivity|]. split; [vm_compute; reflexivity|].
  split; [vm_compute; reflexivity|]. split; [exact Hhalted|].
  split; [vm_compute; reflexivity|]. split.
  - intros c. unfold exec. now rewrite Hhalted.
  - unfold exec. now rewrite Hhalted.
Qed.

(** ** The tests of the repository, on the model

    tests/data_buffer_test.cc, with one byte where the tests have a
    kilobyte, and the worker scheduled where the tests let it run. *)

(** DataBufferSetMaxDiskMemoryUsage *)
Example test_SetMaxDiskMemoryUsage :
  outcomes (start (fresh 1000 2000 false))
    [Calls (CallSetMaxMemoryUsage 1999); Calls (CallSetMaxMemoryUsage 2000);
     Calls (CallSetMaxMemoryUsage 2001); Calls (CallSetMaxDiskUsage 1999);
     Calls (CallSetMaxDiskUsage 2000); Calls (CallSetMaxDiskUsage 2001);
     Calls (CallSetMaxMemoryUsage (2 ^ 64 - 1)); Calls (CallSetMaxMemoryUsage 1);
     Calls (CallSetMaxDiskUsage 0); Calls (CallSetMaxDiskUsage 1);
     Calls (CallSetMaxMemoryUsage 0); Calls (CallSetMaxDiskUsage 0);
     Calls (CallSetMaxDiskUsage (2 ^ 64 - 1)); Calls (CallSetMaxMemoryUsage (2 ^ 64 - 1));
     Calls (CallSetMaxDiskUsage 2000); Calls (CallSetMaxMemoryUsage 1000);
     Calls (CallSetMaxDiskUsage 2000)] =
  Some [Returned None; Returned None; Threw invalid_parameter; Threw invalid_parameter;
        Returned None; Returned None; Threw invalid_parameter; Returned None;
        Threw invalid_parameter; Returned None; Returned None; Returned None;
        Returned None; Returned None; Threw invalid_parameter; Returned None;
        Returned None].
Proof. vm_compute. reflexivity. Qed.

(** DataBufferRemoveDiskBuffer, first half: a value that fits in memory is
    accepted after the directory is gone; the worker then fails, and so do
    the calls that follow. *)
Example test_RemoveDiskBuffer_small :
  outcomes (start (fresh 1 2 false))
    [Calls (CallStore "k" "a"); Calls (CallDelete "k"); DirectoryRemoved;
     Calls (CallStore "k" "a"); Worker;
     Calls (CallStore "k" "a"); Calls (CallGet "k"); Calls (CallDelete "k")] =
  Some [Returned None; Returned None; Returned None; Returned None; Returned None;
        Threw filesystem_io_error; Threw filesystem_io_error; Threw filesystem_io_error].
Proof. vm_compute. reflexivity. Qed.

(** DataBufferRemoveDiskBuffer, second half: a value that goes straight to
    disk. *)
Example test_RemoveDiskBuffer_large :
  outcomes (start (fresh 1 2 false))
    [Calls (CallStore "k" "aa"); Calls (CallDelete "k"); DirectoryRemoved;
     Calls (CallStore "k" "aa"); Calls (CallGet "k"); Calls (CallDelete "k")] =
  Some [Returned None; Returned None; Returned None;
        Threw filesystem_io_error; Threw filesystem_io_error; Threw filesystem_io_error].
Proof. vm_compute. reflexivity. Qed.

(** DataBufferPopOnDiskBufferOverfill: the fifth value pops the first; the
    sixth, of two bytes, pops the second and the third. *)
Example test_PopOnDiskBufferOverfill :
  (fun r => (snd r, popped (buffer (fst r)))) <$>
    run (start (fresh 1 4 true))
        (Store_Get_spill "1" "a" ++ Store_Get_spill "2" "b" ++ Store_Get_spill "3" "c" ++
         Store_Get_spill "4" "d" ++ Store_Get_spill "5" "e" ++
         [Calls (CallStore "6" "ff"); Calls (CallGet "6")]) =
  Some ([Returned None; Returned (Some "a"); Returned None; Returned None;
         Returned None; Returned (Some "b"); Returned None; Returned None;
         Returned None; Returned (Some "c"); Returned None; Returned None;
         Returned None; Returned (Some "d"); Returned None; Returned None;
         Returned None; Returned (Some "e"); Returned None; Returned None;
         Returned None; Returned (Some "ff")],
        [("1", "a"); ("2", "b"); ("3", "c")]).
Proof. vm_compute. reflexivity. Qed.

(** A [Delete] during the copy to disk: the record goes from [kStarted] to
    [kCancelled], the worker erases it and writes no file, and [Get] throws
    [no_such_element]. *)
Example test_Delete_during_spill :
  (fun r => (snd r, disk_index (buffer (fst r)), files (buffer (fst r)) !! "db/6b")) <$>
    run (start (fresh 1 1 false))
        [Calls (CallStore "o" "a"); Worker; Worker; Calls (CallStore "k" "b"); Worker;
         Calls (CallDelete "k"); Worker; Worker; Calls (CallGet "k")] =
  Some ([Returned None; Returned None; Returned None; Returned None; Returned None;
         Returned None; Returned None; Returned None; Threw no_such_element],
        [DiskElement.make "o" kCompleted], None).
Proof. vm_compute. reflexivity. Qed.

(** ** What the counters count *)

(** C1 at a schedule on which the code breaks it.  Every call returns
    normally; the worker writes the file of a record that was cancelled and
    adds its size to [disk_store_.current], which ends at 1 although no
    record is [kCompleted]. *)
Theorem cancelled_spill_is_counted :
  run (start (fresh 1 2 false)) cancelled_spill_schedule =
    Some (cancelled_spill_example,
          [Returned None; Returned None; Returned None; Returned None; Returned None;
           Returned None]) /\
  reachable (start (fresh 1 2 false)) cancelled_spill_example /\
  disk_index (buffer cancelled_spill_example) = [DiskElement.make "k" kCancelled] /\
  files (buffer cancelled_spill_example) = {["db/6b"%string := "b"%string]} /\
  Storage.current (disk_store_ (buffer cancelled_spill_example)) = 1 /\
  completed_usage (buffer cancelled_spill_example) = 0 /\
  ~ accounted (buffer cancelled_spill_example).
Proof.
  assert (run (start (fresh 1 2 false)) cancelled_spill_schedule =
            Some (cancelled_spill_example,
                  [Returned None; Returned None; Returned None; Returned None;
                   Returned None; Returned None])) as Hrun by (vm_compute; reflexivity).
  split; [exact Hrun|]. split; [exact (run_reachable _ _ _ _ Hrun)|].
  split; [vm_compute; reflexivity|]. split; [vm_compute; reflexivity|].
  split; [vm_compute; reflexivity|]. split; [vm_compute; reflexivity|].
  intros [_ H]. vm_compute in H. discriminate H.
Qed.

(** ** The state of an element in memory *)

(** C2 at a schedule on which the code breaks it.  The worker has written
    "a" for the key "k" and is about to lock the memory mutex again when
    [Store] replaces the value of "k" with "b": its [Delete] removes the old
    element and the file, and the new element is [kNotStarted].  The worker
    then finds the new element by its key and sets it to [kCompleted] in one
    move, although "b" was never written: no record and no file is left.
    The next [Store] that needs the room erases the element, and "b" is
    lost: [Get] throws [no_such_element] for a key that was stored and
    never deleted. *)
Theorem worker_completes_element_it_did_not_write :
  run (start (fresh 1 2 false)) restored_key_schedule =
    Some (restored_key_example, [Returned None; Returned None; Returned None]) /\
  memory_index (buffer restored_key_example) = [MemoryElement.make "k" "b" kNotStarted] /\
  worker_pc restored_key_example = AtRelock "k" /\
  exists s',
    exec restored_key_example Worker = Some (s', Returned None) /\
    memory_index (buffer s') = [MemoryElement.make "k" "b" kCompleted] /\
    disk_index (buffer s') = [] /\
    files (buffer s') = ∅ /\
    outcomes s' [Calls (CallStore "j" "c"); Calls (CallGet "k")] =
      Some [Returned None; Threw no_such_element].
Proof.
  split; [vm_compute; reflexivity|]. split; [vm_compute; reflexivity|].
  split; [vm_compute; reflexivity|].
  eexists. split; [vm_compute; reflexivity|].
  split; [reflexivity|]. split; [reflexivity|]. split; [reflexivity|].
  vm_compute. reflexivity.
Qed.

(** ** Storing twice under one key *)

(** C8 at a schedule on which the code breaks it.  The first seven events
    leave a [kCancelled] record of "k" in the disk index, as in
    [cancelled_spill_is_counted].  Then one thread stores "c" and "dd" under
    "k" and both calls return normally; "dd" is in the file of "k" and has a
    [kCompleted] record.  [Get] finds the stale record first and throws
    [no_such_element]. *)
Theorem Get_after_two_Stores_throws :
  run (start (fresh 1 3 false)) shadowed_key_schedule =
    Some (shadowed_key_example,
          [Returned None; Returned None; Returned None; Returned None; Returned None;
           Returned None; Returned None;
           Returned None; Returned None; Threw no_such_element]) /\
  disk_index (buffer shadowed_key_example) =
    [DiskElement.make "k" kCancelled; DiskElement.make "k" kCompleted] /\
  files (buffer shadowed_key_example) !! GetFilename (buffer shadowed_key_example) "k" =
    Some "dd"%string /\
  snd (Get (buffer shadowed_key_example) "k") = Threw no_such_element.
Proof.
  split; [vm_compute; reflexivity|]. split; [vm_compute; reflexivity|].
  split; vm_compute; reflexivity.
Qed.

(** * Further properties of [DataBuffer] *)

(** ** [HasSpace] *)

Lemma wrap64_small z : uint64 z -> wrap64 z = z.
Proof. intros H. unfold wrap64. apply Z.mod_small. exact H. Qed.

Lemma wrap64_range z : uint64 (wrap64 z).
Proof. unfold uint64, wrap64. apply Z.mod_pos_bound. lia. Qed.

(** X1.  On values of [uint64_t]: when the required space is at most the
    maximum, which is what the [assert] of [HasSpace] asks for, [HasSpace]
    says that the current usage plus the required space is at most the
    maximum.  When the required space is larger, the subtraction wraps
    around and [HasSpace] admits every usage up to
    [2^64 + max - required_space]. *)
Theorem HasSpace_bound {I : Type} (store : Storage.t I) (required_space : Z) :
  uint64 (Storage.max store) -> uint64 required_space ->
  (required_space <= Storage.max store ->
   (HasSpace store required_space = true <->
    Storage.current store + required_space <= Storage.max store)) /\
  (Storage.max store < required_space ->
   (HasSpace store required_space = true <->
    Storage.current store <= 2 ^ 64 + Storage.max store - required_space)).
Proof.
  intros Hmax Hreq. unfold HasSpace, uint64 in *. split; intros Hle.
  - rewrite wrap64_small by (unfold uint64; lia). rewrite Z.leb_le. lia.
  - assert (wrap64 (Storage.max store - required_space) =
            2 ^ 64 + Storage.max store - required_space) as ->.
    { unfold wrap64. symmetry.
      apply (Z.mod_unique_pos _ _ (-1)); lia. }
    rewrite Z.leb_le. lia.
Qed.

Lemma HasSpace_bound_witness :
  (HasSpace (Storage.make 10 7 ([] : DiskIndex)) 3 = true <-> 7 + 3 <= 10) /\
  (HasSpace (Storage.make 2 5 ([] : DiskIndex)) 3 = true <-> 5 <= 2 ^ 64 + 2 - 3).
Proof.
  split.
  - apply (HasSpace_bound (Storage.make 10 7 ([] : DiskIndex)) 3); cbn; unfold uint64; lia.
  - apply (HasSpace_bound (Storage.make 2 5 ([] : DiskIndex)) 3); cbn; unfold uint64; lia.
Defined.

(** ** What the memory store counts *)

Lemma size_nonneg (value : Value) : 0 <= size value.
Proof. unfold size. lia. Qed.

Lemma usage_of_cons e l : usage_of (e :: l) = size (MemoryElement.value e) + usage_of l.
Proof. reflexivity. Qed.

Lemma usage_of_nonneg l : 0 <= usage_of l.
Proof.
  induction l as [|e l IH]; [reflexivity|]. rewrite usage_of_cons.
  pose proof (size_nonneg (MemoryElement.value e)). lia.
Qed.

Lemma usage_of_app l l' : usage_of (l ++ l') = usage_of l + usage_of l'.
Proof.
  induction l as [|e l IH]; [reflexivity|].
  rewrite <- app_comm_cons, !usage_of_cons, IH. lia.
Qed.

Lemma usage_of_delete l i e :
  l !! i = Some e -> usage_of (delete i l) = usage_of l - size (MemoryElement.value e).
Proof.
  revert i. induction l as [|x l IH]; intros [|i] H; try discriminate.
  - injection H as ->. change (delete 0%nat (e :: l)) with l. rewrite usage_of_cons. lia.
  - change (delete (S i) (x :: l)) with (x :: delete i l).
    rewrite !usage_of_cons, (IH i H). lia.
Qed.

Lemma usage_of_alter s l i :
  usage_of (alter (MemoryElement.set_also_on_disk s) i l) = usage_of l.
Proof.
  revert i. induction l as [|x l IH]; intros [|i]; try reflexivity.
  change (alter ?f (S i) (x :: l)) with (x :: alter f i l).
  now rewrite !usage_of_cons, IH.
Qed.

(** ** Operations that leave the memory store alone *)

Lemma memory_CheckWorkerIsStillRunning b :
  memory_store_ (fst (CheckWorkerIsStillRunning b)) = memory_store_ b.
Proof. unfold CheckWorkerIsStillRunning. destruct (worker_ b); reflexivity. Qed.

Lemma memory_RemoveFile b key want b' v :
  RemoveFile b key want = inr (b', v) -> memory_store_ b' = memory_store_ b.
Proof.
  unfold RemoveFile. destruct (files b !! GetFilename b key); [|discriminate].
  intros [= <- _]. reflexivity.
Qed.

Lemma memory_DeleteFromDisk b key :
  memory_store_ (fst (DeleteFromDisk b key)) = memory_store_ b.
Proof.
  unfold DeleteFromDisk. destruct (Find_disk b key) as [i|]; [|reflexivity].
  destruct (disk_index b !! i) as [e|]; [|reflexivity].
  destruct (DiskElement.state e); try reflexivity.
  destruct (RemoveFile b (DiskElement.key e) false) as [err|[b' v]] eqn:Hrm; [reflexivity|].
  cbn. now apply memory_RemoveFile in Hrm.
Qed.

Lemma memory_WaitForSpaceOnDisk fuel b key required_space :
  memory_store_ (fst (WaitForSpaceOnDisk fuel b key required_space)) = memory_store_ b.
Proof.
  revert b. induction fuel as [|fuel IH]; intros b; simpl; [reflexivity|].
  destruct (negb (HasSpace (disk_store_ b) required_space) && running_ b); [|reflexivity].
  destruct (Find_disk b key) as [i|]; [|reflexivity].
  destruct (disk_index b !! i) as [e|]; [|reflexivity].
  destruct (StoringState_eqb (DiskElement.state e) kCancelled); [reflexivity|].
  destruct (kPopFunctor_ b); [|reflexivity].
  destruct (FindOldestOnDisk b) as [oldest|]; [|reflexivity].
  destruct (StoringState_eqb (DiskElement.state oldest) kCompleted); [|reflexivity].
  destruct (RemoveFile b (DiskElement.key oldest) true) as [err|[b1 v]] eqn:Hrm;
    [reflexivity|].
  rewrite IH. cbn. now apply memory_RemoveFile in Hrm.
Qed.

Lemma memory_StoreOnDisk_finish r key value :
  memory_store_ (fst (StoreOnDisk_finish r key value)) = memory_store_ (fst r).
Proof.
  destruct r as [b w]. cbn. destruct w; try reflexivity.
  destruct (negb (running_ b)); [reflexivity|]. destruct cancelled; [reflexivity|].
  unfold WriteFile. destruct (directory_ok b); [|reflexivity].
  destruct (FindStartedToStoreOnDisk _ key); reflexivity.
Qed.

Lemma memory_StoreOnDisk_resume b key value :
  memory_store_ (fst (StoreOnDisk_resume b key value)) = memory_store_ b.
Proof.
  unfold StoreOnDisk_resume. now rewrite memory_StoreOnDisk_finish, memory_WaitForSpaceOnDisk.
Qed.

Lemma memory_StoreOnDisk b key value :
  memory_store_ (fst (StoreOnDisk b key value)) = memory_store_ b.
Proof.
  unfold StoreOnDisk. destruct (size value >? Storage.max (disk_store_ b)); [reflexivity|].
  now rewrite memory_StoreOnDisk_resume.
Qed.

Lemma memory_after_StoreOnDisk r key value :
  memory_store_ (fst (after_StoreOnDisk r key value)) = memory_store_ (fst r).
Proof. destruct r as [b w]. now destruct w. Qed.

Lemma after_StoreOnDisk_blocked r key value w :
  snd (after_StoreOnDisk r key value) = Blocked w -> w = InStoreOnDisk key value.
Proof. destruct r as [b d]. destruct d; cbn; congruence. Qed.

(** [Get] changes nothing once it looks on disk. *)
Lemma Get_from_disk_buffer b key : fst (Get_from_disk b key) = b.
Proof.
  unfold Get_from_disk. destruct (Find_disk b key) as [i|]; [|reflexivity].
  destruct (disk_index b !! i) as [e|]; [|reflexivity].
  destruct (DiskElement.state e); try reflexivity; destruct (ReadFile b key); reflexivity.
Qed.

Lemma Get_from_disk_blocked b key w :
  snd (Get_from_disk b key) = Blocked w -> w = InGet key.
Proof.
  unfold Get_from_disk. destruct (Find_disk b key) as [i|]; [|discriminate].
  destruct (disk_index b !! i) as [e|]; [|discriminate].
  destruct (DiskElement.state e); cbn; try discriminate; try congruence;
    destruct (ReadFile b key); discriminate.
Qed.

Lemma memory_Get b key : memory_store_ (fst (Get b key)) = memory_store_ b.
Proof.
  unfold Get. pose proof (memory_CheckWorkerIsStillRunning b) as Hc.
  destruct (CheckWorkerIsStillRunning b) as [b0 [e|]]; [exact Hc|]. cbn in Hc.
  destruct (Find_memory b0 key) as [i|]; [destruct (memory_index b0 !! i)|];
    rewrite ?Get_from_disk_buffer; exact Hc.
Qed.

Lemma Get_blocked b key w : snd (Get b key) = Blocked w -> w = InGet key.
Proof.
  unfold Get. destruct (CheckWorkerIsStillRunning b) as [b0 [e|]]; [discriminate|].
  destruct (Find_memory b0 key) as [i|]; [destruct (memory_index b0 !! i)|];
    try discriminate; apply Get_from_disk_blocked.
Qed.

(** ** Invariants of the memory store *)

(** A property of the memory store that survives the three ways in which
    the code changes it survives every operation.  [fits] is what has to be
    known of the size of a value before it is appended; it holds for a size
    that [StoreInMemory] let pass. *)
Section MemoryStoreInvariant.

Variable P : Storage.t MemoryIndex -> Prop.
Variable fits : Z -> Z -> Prop.

Hypothesis P_erase : forall m i e,
  P m -> Storage.index m !! i = Some e ->
  P (Storage.set_index (delete i (Storage.index m))
       (Storage.set_current
          (wrap64 (Storage.current m + - size (MemoryElement.value e))) m)).

Hypothesis P_alter : forall m i s,
  P m ->
  P (Storage.set_index
       (alter (MemoryElement.set_also_on_disk s) i (Storage.index m)) m).

Hypothesis P_append : forall m key value,
  P m -> fits (size value) (Storage.max m) -> HasSpace m (size value) = true ->
  P (Storage.set_index (Storage.index m ++ [MemoryElement.create key value])
       (Storage.set_current (wrap64 (Storage.current m + size value)) m)).

Hypothesis fits_below : forall z limit, z <= limit -> fits z limit.

Lemma kept_erase_memory i b :
  P (memory_store_ b) ->
  P (memory_store_ (erase_memory i b)) /\
  Storage.max (memory_store_ (erase_memory i b)) = Storage.max (memory_store_ b).
Proof.
  intros H. unfold erase_memory. destruct (memory_index b !! i) as [e|] eqn:He.
  - split; [|reflexivity]. exact (P_erase _ _ _ H He).
  - now split.
Qed.

Lemma kept_WaitForSpaceInMemory fuel in_wait b required_space :
  P (memory_store_ b) ->
  let r := WaitForSpaceInMemory fuel in_wait b required_space in
  P (memory_store_ (fst r)) /\
  Storage.max (memory_store_ (fst r)) = Storage.max (memory_store_ b) /\
  (snd r = MemoryWaitOver ->
   running_ (fst r) = false \/ HasSpace (memory_store_ (fst r)) required_space = true).
Proof.
  revert in_wait b. induction fuel as [|fuel IH]; intros in_wait b H; simpl.
  { repeat split; [exact H|discriminate]. }
  destruct (negb in_wait && HasSpace (memory_store_ b) required_space) eqn:Hs.
  { repeat split; [exact H|]. intros _. right. now apply andb_true_iff in Hs. }
  destruct (FindMemoryRemovalCandidate b required_space) as [itr|].
  2:{ repeat split; [exact H|discriminate]. }
  destruct (running_ b) eqn:Hrun; cbn.
  2:{ repeat split; [exact H|]. intros _. now left. }
  destruct itr as [i|].
  - destruct (kept_erase_memory i b H) as (HP & Hmax).
    destruct (IH false _ HP) as (H1 & H2 & H3).
    repeat split; [exact H1|congruence|exact H3].
  - apply IH, H.
Qed.

Lemma kept_StoreInMemory_finish fuel in_wait b key value :
  P (memory_store_ b) -> fits (size value) (Storage.max (memory_store_ b)) ->
  let r := StoreInMemory_finish (WaitForSpaceInMemory fuel in_wait b (size value))
                                key value in
  P (memory_store_ (fst r)) /\
  Storage.max (memory_store_ (fst r)) = Storage.max (memory_store_ b) /\
  snd r <> WithDiskLock.
Proof.
  intros H Hfits.
  destruct (kept_WaitForSpaceInMemory fuel in_wait b (size value) H) as (H1 & H2 & H3).
  destruct (WaitForSpaceInMemory fuel in_wait b (size value)) as [b1 w].
  cbn in *. destruct w; cbn; try (repeat split; [exact H1|exact H2|discriminate]).
  destruct (running_ b1) eqn:Hrun; cbn.
  - destruct H3 as [H3|H3]; [reflexivity|discriminate|].
    repeat split; [|exact H2|discriminate].
    apply (P_append _ key value H1); [now rewrite H2|exact H3].
  - destruct (worker_ b1); repeat split; try exact H1; try exact H2; discriminate.
Qed.

Lemma kept_after_StoreInMemory r b key value :
  P (memory_store_ (fst r)) ->
  Storage.max (memory_store_ (fst r)) = Storage.max (memory_store_ b) ->
  (snd r = MemoryStoreBlocked -> fits (size value) (Storage.max (memory_store_ b))) ->
  let r' := after_StoreInMemory r key value in
  P (memory_store_ (fst r')) /\
  Storage.max (memory_store_ (fst r')) = Storage.max (memory_store_ b) /\
  forall w, snd r' = Blocked w -> waiter_fits fits (Storage.max (memory_store_ b)) w.
Proof.
  destruct r as [b1 m]. cbn. intros H Hmax Hfits.
  destruct m; cbn; try (repeat split; [exact H|exact Hmax|discriminate]).
  - rewrite memory_after_StoreOnDisk, memory_StoreOnDisk.
    repeat split; [exact H|exact Hmax|].
    intros w Hw. apply after_StoreOnDisk_blocked in Hw. now subst w.
  - repeat split; [exact H|exact Hmax|]. intros w [= <-]. cbn. now apply Hfits.
Qed.

Lemma kept_StoreInMemory b key value :
  P (memory_store_ b) ->
  let r := after_StoreInMemory (StoreInMemory b key value) key value in
  P (memory_store_ (fst r)) /\
  Storage.max (memory_store_ (fst r)) = Storage.max (memory_store_ b) /\
  forall w, snd r = Blocked w -> waiter_fits fits (Storage.max (memory_store_ b)) w.
Proof.
  intros H. unfold StoreInMemory.
  destruct (Z.gtb_spec (size value) (Storage.max (memory_store_ b))) as [Hgt|Hle].
  - apply kept_after_StoreInMemory; [exact H|reflexivity|discriminate].
  - destruct (kept_StoreInMemory_finish (memory_fuel b) false b key value H
                (fits_below _ _ Hle)) as (H1 & H2 & _).
    apply kept_after_StoreInMemory; [exact H1|exact H2|]. intros _. now apply fits_below.
Qed.

Lemma kept_Delete b key :
  P (memory_store_ b) ->
  P (memory_store_ (fst (Delete b key))) /\
  Storage.max (memory_store_ (fst (Delete b key))) = Storage.max (memory_store_ b).
Proof.
  intros H. unfold Delete. pose proof (memory_CheckWorkerIsStillRunning b) as Hc.
  destruct (CheckWorkerIsStillRunning b) as [b0 [e|]]; cbn in Hc.
  { cbn. rewrite Hc. now split. }
  assert (P (memory_store_ (fst (DeleteFromMemory b0 key))) /\
          Storage.max (memory_store_ (fst (DeleteFromMemory b0 key))) =
            Storage.max (memory_store_ b)) as Hm.
  { unfold DeleteFromMemory. destruct (Find_memory b0 key) as [i|].
    - destruct (memory_index b0 !! i) as [e|]; cbn.
      + rewrite <- Hc in *. apply kept_erase_memory, H.
      + rewrite Hc. now split.
    - cbn. rewrite Hc. now split. }
  destruct (DeleteFromMemory b0 key) as [b1 st]. cbn in Hm.
  destruct (StoringState_eqb st kNotStarted); cbn; [exact Hm|].
  now rewrite memory_DeleteFromDisk.
Qed.

Lemma kept_Store b key value :
  P (memory_store_ b) ->
  P (memory_store_ (fst (Store b key value))) /\
  Storage.max (memory_store_ (fst (Store b key value))) = Storage.max (memory_store_ b) /\
  forall w, snd (Store b key value) = Blocked w ->
            waiter_fits fits (Storage.max (memory_store_ b)) w.
Proof.
  intros H. unfold Store, Store_after_Delete.
  destruct (kept_Delete b key H) as (H1 & H2).
  pose proof (memory_CheckWorkerIsStillRunning (fst (Delete b key))) as Hc.
  destruct (CheckWorkerIsStillRunning (fst (Delete b key))) as [b0 [e|]]; cbn in Hc.
  { cbn. rewrite Hc. repeat split; [exact H1|exact H2|discriminate]. }
  rewrite <- Hc in H1, H2. rewrite <- H2. now apply kept_StoreInMemory.
Qed.

Lemma kept_Resume b w :
  P (memory_store_ b) -> waiter_fits fits (Storage.max (memory_store_ b)) w ->
  P (memory_store_ (fst (Resume b w))) /\
  Storage.max (memory_store_ (fst (Resume b w))) = Storage.max (memory_store_ b) /\
  forall w', snd (Resume b w) = Blocked w' ->
             waiter_fits fits (Storage.max (memory_store_ b)) w'.
Proof.
  intros H Hw. destruct w as [key value|key value|key]; cbn in *.
  - unfold StoreInMemory_resume.
    destruct (kept_StoreInMemory_finish (memory_fuel b) true b key value H Hw)
      as (H1 & H2 & _).
    apply kept_after_StoreInMemory; [exact H1|exact H2|now intros _].
  - rewrite memory_after_StoreOnDisk, memory_StoreOnDisk_resume.
    repeat split; [exact H|]. intros w' Hw'. apply after_StoreOnDisk_blocked in Hw'.
    now subst w'.
  - rewrite Get_from_disk_buffer. repeat split; [exact H|].
    intros w' Hw'. apply Get_from_disk_blocked in Hw'. now subst w'.
Qed.

Lemma memory_worker_after_StoreOnDisk r key value b' pc :
  worker_after_StoreOnDisk r key value = Some (b', pc) ->
  memory_store_ b' = memory_store_ (fst r).
Proof. destruct r as [b w]. destruct w; cbn; intros [= <- _]; reflexivity. Qed.

Lemma kept_CopyQueueToDisk b pc b' pc' :
  P (memory_store_ b) -> CopyQueueToDisk b pc = Some (b', pc') ->
  P (memory_store_ b') /\
  Storage.max (memory_store_ b') = Storage.max (memory_store_ b).
Proof.
  intros H. destruct pc as [|key value|key| |]; cbn.
  - destruct (negb (isSome (FindOldestInMemoryOnly b) || negb (running_ b))).
    { intros [= <- _]. now split. }
    destruct (negb (running_ b)). { intros [= <- _]. now split. }
    destruct (FindOldestInMemoryOnly b) as [i|]; [|intros [= <- _]; now split].
    destruct (memory_index b !! i) as [e|]; [|intros [= <- _]; now split].
    intros Hw. apply memory_worker_after_StoreOnDisk in Hw.
    rewrite memory_StoreOnDisk in Hw. rewrite Hw. cbn. split; [|reflexivity].
    apply P_alter, H.
  - intros Hw. apply memory_worker_after_StoreOnDisk in Hw.
    rewrite memory_StoreOnDisk_resume in Hw. rewrite Hw. now split.
  - destruct (Find_memory b key) as [i|]; intros [= <- _]; [|now split].
    cbn. split; [|reflexivity]. apply P_alter, H.
  - intros [= <- _]. now split.
  - intros [= <- _]. now split.
Qed.

Variable allowed : Event -> Prop.

Hypothesis P_set_max : forall m z,
  allowed (Calls (CallSetMaxMemoryUsage z)) -> P m ->
  P (Storage.set_max z m) /\ forall v, fits v (Storage.max m) -> fits v z.

Lemma waiter_fits_limit limit limit' w :
  (forall v, fits v limit -> fits v limit') ->
  waiter_fits fits limit w -> waiter_fits fits limit' w.
Proof. intros H. destruct w; cbn; auto. Qed.

Lemma kept_run_call b c :
  P (memory_store_ b) -> allowed (Calls c) ->
  P (memory_store_ (fst (run_call b c))) /\
  (forall v, fits v (Storage.max (memory_store_ b)) ->
             fits v (Storage.max (memory_store_ (fst (run_call b c))))) /\
  forall w, snd (run_call b c) = Blocked w ->
            waiter_fits fits (Storage.max (memory_store_ (fst (run_call b c)))) w.
Proof.
  intros H Hok. destruct c as [key value|key|key|m|m]; cbn.
  - destruct (kept_Store b key value H) as (H1 & H2 & H3).
    rewrite H2. repeat split; [exact H1|auto|exact H3].
  - rewrite memory_Get. repeat split; [exact H|auto|].
    intros w Hw. apply Get_blocked in Hw. now subst w.
  - unfold Delete_call. destruct (kept_Delete b key H) as (H1 & H2).
    destruct (Delete b key) as [b' [e|]]; cbn in *; rewrite H2;
      (repeat split; [exact H1|auto|discriminate]).
  - unfold SetMaxMemoryUsage. destruct (m >? Storage.max (disk_store_ b)); cbn.
    + repeat split; [exact H|auto|discriminate].
    + destruct (P_set_max (memory_store_ b) m Hok H) as (H1 & H2).
      repeat split; [exact H1|exact H2|discriminate].
  - unfold SetMaxDiskUsage. destruct (Storage.max (memory_store_ b) >? m); cbn;
      (repeat split; [exact H|auto|discriminate]).
Qed.

Lemma kept_exec s ev s' o :
  P (memory_store_ (buffer s)) ->
  Forall (waiter_fits fits (Storage.max (memory_store_ (buffer s)))) (waiting s) ->
  allowed ev -> exec s ev = Some (s', o) ->
  P (memory_store_ (buffer s')) /\
  Forall (waiter_fits fits (Storage.max (memory_store_ (buffer s')))) (waiting s').
Proof.
  intros H Hwait Hok. unfold exec. destruct (halted s); [discriminate|].
  destruct ev as [c|i| |].
  - destruct (kept_run_call (buffer s) c H Hok) as (H1 & H2 & H3).
    assert (Forall (waiter_fits fits
                      (Storage.max (memory_store_ (fst (run_call (buffer s) c)))))
                   (waiting s)) as Hwait'.
    { eapply Forall_impl; [exact Hwait|]. intros w. now apply waiter_fits_limit. }
    destruct (run_call (buffer s) c) as [b' o']. cbn in *.
    destruct o'; intros [= <- <-]; cbn; split; auto.
    apply Forall_app. split; [exact Hwait'|]. constructor; [now apply H3|constructor].
  - destruct (waiting s !! i) as [w|] eqn:Hw; [|discriminate].
    assert (waiter_fits fits (Storage.max (memory_store_ (buffer s))) w) as Hfw.
    { rewrite Forall_forall in Hwait. apply Hwait. eapply list_elem_of_lookup_2, Hw. }
    destruct (kept_Resume (buffer s) w H Hfw) as (H1 & H2 & H3).
    destruct (Resume (buffer s) w) as [b' o']. cbn in *.
    destruct o'; intros [= <- <-]; cbn; rewrite H2; split; auto.
    + now apply Forall_delete.
    + now apply Forall_delete.
    + apply Forall_insert; [exact Hwait|]. now apply H3.
    + now apply Forall_delete.
  - destruct (CopyQueueToDisk (buffer s) (worker_pc s)) as [[b' pc']|] eqn:Hc;
      [|discriminate].
    destruct (kept_CopyQueueToDisk _ _ _ _ H Hc) as (H1 & H2).
    destruct pc'; intros [= <- <-]; cbn; rewrite H2; now split.
  - intros [= <- <-]. cbn. now split.
Qed.

Lemma kept_run s evs s' os :
  P (memory_store_ (buffer s)) ->
  Forall (waiter_fits fits (Storage.max (memory_store_ (buffer s)))) (waiting s) ->
  Forall allowed evs -> run s evs = Some (s', os) ->
  P (memory_store_ (buffer s')).
Proof.
  revert s os. induction evs as [|ev evs IH]; intros s os H Hwait Hok; cbn.
  - now intros [= <- _].
  - destruct (exec s ev) as [[s1 o]|] eqn:Hex; [|discriminate].
    destruct (run s1 evs) as [[s2 os2]|] eqn:Hrun; [|discriminate].
    intros [= <- _]. inversion Hok as [|? ? Hev Hevs]; subst.
    destruct (kept_exec _ _ _ _ H Hwait Hev Hex) as (H1 & H2).
    exact (IH _ _ H1 H2 Hevs Hrun).
Qed.

End MemoryStoreInvariant.

Lemma memory_usage_usage_of b : memory_usage b = usage_of (memory_index b).
Proof. reflexivity. Qed.

Lemma wrap64_add_l a c : wrap64 (wrap64 a + c) = wrap64 (a + c).
Proof. unfold wrap64. apply Zplus_mod_idemp_l. Qed.

Lemma waiter_fits_True limit l : Forall (waiter_fits (fun _ _ => True) limit) l.
Proof. apply Forall_forall. intros w _. now destruct w. Qed.

(** X2.  Whatever the threads do, [memory_store_.current] is the sum of the
    sizes of the values in the memory index, as a [uint64_t]: if it is so
    in a system, it is so in every system reachable from it. *)
Theorem memory_current_counts_the_index (s0 s : System) :
  memory_accounted (buffer s0) -> reachable s0 s -> memory_accounted (buffer s).
Proof.
  intros H0 Hreach. induction Hreach as [|s s' ev o _ IH Hex]; [exact H0|].
  unfold memory_accounted in *. rewrite memory_usage_usage_of in *.
  refine (proj1 (kept_exec
            (fun m => Storage.current m = wrap64 (usage_of (Storage.index m)))
            (fun _ _ => True) _ _ _ _ (fun _ => True) _ s ev s' o IH
            (waiter_fits_True _ _) I Hex)).
  - intros m i e Hm He. cbn [Storage.set_index Storage.set_current Storage.current
                                Storage.index Storage.max].
    rewrite Hm, wrap64_add_l, (usage_of_delete _ _ _ He). reflexivity.
  - intros m i st Hm. cbn [Storage.set_index Storage.current Storage.index].
    now rewrite usage_of_alter.
  - intros m key value Hm _ _. cbn [Storage.set_index Storage.set_current Storage.current
                                     Storage.index Storage.max].
    rewrite Hm, wrap64_add_l, usage_of_app. cbn. now rewrite Z.add_0_r.
  - trivial.
  - intros m z _ Hm. split; [exact Hm|trivial].
Qed.

Lemma memory_current_counts_the_index_witness :
  memory_accounted (buffer eviction_example).
Proof.
  apply (memory_current_counts_the_index (start (fresh 1 2 false)) eviction_example).
  - reflexivity.
  - apply (run_reachable _ eviction_schedule _
             [Returned None; Returned None; Returned None; Returned None]).
    vm_compute. reflexivity.
Defined.

Lemma HasSpace_fits {I : Type} (store : Storage.t I) (required_space : Z) :
  uint64 (Storage.max store) -> 0 <= required_space <= Storage.max store ->
  HasSpace store required_space = true ->
  Storage.current store + required_space <= Storage.max store.
Proof.
  intros Hmax Hreq. unfold HasSpace.
  rewrite wrap64_small by (unfold uint64 in *; lia). rewrite Z.leb_le. lia.
Qed.

(** X3.  As long as nobody calls [SetMaxMemoryUsage], the values in memory
    never take more than [memory_store_.max], and [memory_store_.current]
    is exactly what they take: this holds after every schedule of calls,
    wake-ups and moves of the worker that starts from a buffer where it
    holds, such as a new one. *)
Theorem memory_usage_within_limit (b : DataBuffer) (evs : list Event) (s : System)
  (os : list Outcome) :
  memory_within b -> Forall keeps_memory_limit evs ->
  run (start b) evs = Some (s, os) ->
  memory_within (buffer s).
Proof.
  intros H0 Hevs Hrun. unfold memory_within in *. rewrite memory_usage_usage_of in *.
  refine (kept_run
            (fun m => uint64 (Storage.max m) /\
                      Storage.current m = usage_of (Storage.index m) /\
                      usage_of (Storage.index m) <= Storage.max m)
            (fun z limit => z <= limit) _ _ _ _ keeps_memory_limit _
            (start b) evs s os H0 _ Hevs Hrun).
  - intros m i e (Hmax & Hcur & Hle) He.
    cbn [Storage.set_index Storage.set_current Storage.current Storage.index Storage.max].
    rewrite (usage_of_delete _ _ _ He).
    pose proof (usage_of_delete _ _ _ He) as Hdel.
    pose proof (usage_of_nonneg (delete i (Storage.index m))) as Hnn.
    pose proof (size_nonneg (MemoryElement.value e)) as Hs.
    rewrite wrap64_small by (unfold uint64 in *; lia).
    repeat split; try apply Hmax; lia.
  - intros m i st (Hmax & Hcur & Hle).
    cbn [Storage.set_index Storage.current Storage.index Storage.max].
    now rewrite usage_of_alter.
  - intros m key value (Hmax & Hcur & Hle) Hfits Hspace.
    cbn [Storage.set_index Storage.set_current Storage.current Storage.index Storage.max].
    pose proof (size_nonneg value) as Hs.
    pose proof (HasSpace_fits m (size value) Hmax (conj Hs Hfits) Hspace) as Hroom.
    pose proof (usage_of_nonneg (Storage.index m)) as Hnn.
    rewrite usage_of_app, usage_of_cons. cbn [usage_of foldr MemoryElement.value
                                               MemoryElement.create].
    rewrite wrap64_small by (unfold uint64 in *; lia).
    repeat split; try apply Hmax; lia.
  - trivial.
  - intros m z [].
  - constructor.
Qed.

Lemma memory_usage_within_limit_witness :
  memory_within (buffer eviction_example) /\
  memory_index (buffer eviction_example) = [MemoryElement.make "b" "y" kNotStarted].
Proof.
  split; [|vm_compute; reflexivity].
  apply (memory_usage_within_limit (fresh 1 2 false) eviction_schedule eviction_example
           [Returned None; Returned None; Returned None; Returned None]).
  - unfold memory_within, uint64. cbn. lia.
  - repeat constructor.
  - vm_compute. reflexivity.
Defined.

(** ** [Delete] *)

Lemma in_service_check b : in_service b -> CheckWorkerIsStillRunning b = (b, None).
Proof.
  intros (Hrun & [Hw|Hw]); unfold CheckWorkerIsStillRunning; now rewrite Hw, Hrun.
Qed.

Lemma DeleteFromDisk_without_record b key :
  disk_record b key = None -> DeleteFromDisk b key = (b, Some no_such_element).
Proof.
  unfold disk_record, DeleteFromDisk. destruct (Find_disk b key) as [i|]; [|reflexivity].
  now intros ->.
Qed.

Lemma Delete_fresh b key :
  in_service b -> fresh_for b key -> Delete b key = (b, Some no_such_element).
Proof.
  intros Hs (Hmem & Hdisk). unfold Delete. rewrite (in_service_check b Hs).
  unfold DeleteFromMemory. apply Find_memory_None in Hmem. rewrite Hmem. cbn.
  now apply DeleteFromDisk_without_record.
Qed.

(** X4.  [Delete] of a key that is neither in memory nor in the disk index
    throws [no_such_element] and leaves the buffer exactly as it was. *)
Theorem Delete_unknown_key (b : DataBuffer) (key : Key) :
  in_service b -> ~ in_memory b key ->
  (forall e, e ∈ disk_index b -> DiskElement.key e <> key) ->
  Delete_call b key = (b, Threw no_such_element).
Proof.
  intros Hs Hmem Hdisk. unfold Delete_call. rewrite Delete_fresh; [reflexivity|exact Hs|].
  split; [exact Hmem|]. now apply disk_record_None.
Qed.

Lemma Delete_unknown_key_witness :
  Delete_call get_example "z" = (get_example, Threw no_such_element).
Proof.
  apply Delete_unknown_key.
  - split; [reflexivity|now left].
  - intros (e & Hin & Hkey). apply list_elem_of_singleton in Hin. now subst e.
  - intros e Hin.
    apply elem_of_cons in Hin as [->|Hin]; [discriminate|].
    apply list_elem_of_singleton in Hin. now subst e.
Defined.

(** X5.  When the value of a key is in memory and marked as copied or being
    copied, but the disk index has no record of the key, as after the pop
    functor took the copy, [Delete] erases the value from memory and then
    throws [no_such_element] out of [DeleteFromDisk]: the caller gets an
    exception from a call that did remove the key. *)
Theorem Delete_of_popped_key (b : DataBuffer) (key : Key) (i : nat) (e : MemoryElement.t) :
  in_service b ->
  Find_memory b key = Some i -> memory_index b !! i = Some e ->
  MemoryElement.also_on_disk e <> kNotStarted ->
  (forall d, d ∈ disk_index b -> DiskElement.key d <> key) ->
  Delete_call b key = (erase_memory i b, Threw no_such_element) /\
  memory_index (erase_memory i b) = delete i (memory_index b).
Proof.
  intros Hs Hfind He Hstate Hdisk. split.
  - unfold Delete_call, Delete. rewrite (in_service_check b Hs).
    unfold DeleteFromMemory. rewrite Hfind, He.
    apply StoringState_eqb_neq in Hstate. rewrite Hstate.
    rewrite DeleteFromDisk_without_record; [reflexivity|].
    rewrite (disk_record_ext b); [now apply disk_record_None|].
    apply disk_erase_memory.
  - unfold erase_memory. now rewrite He.
Qed.

Lemma Delete_of_popped_key_witness :
  popped (buffer popped_copy_example) = [("a", "x")] /\
  Delete_call (buffer popped_copy_example) "a" =
    (erase_memory 0 (buffer popped_copy_example), Threw no_such_element) /\
  memory_index (erase_memory 0 (buffer popped_copy_example)) = [].
Proof.
  split; [vm_compute; reflexivity|].
  apply (Delete_of_popped_key (buffer popped_copy_example) "a" 0
           (MemoryElement.make "a" "x" kCompleted)).
  - split; [vm_compute; reflexivity|left; vm_compute; reflexivity].
  - vm_compute. reflexivity.
  - vm_compute. reflexivity.
  - discriminate.
  - intros d Hin.
    assert (disk_index (buffer popped_copy_example) = [DiskElement.make "c" kCompleted])
      as Hidx by (vm_compute; reflexivity).
    rewrite Hidx in Hin. apply list_elem_of_singleton in Hin. now subst d.
Defined.

(** ** [Store] of a key that the buffer does not hold *)

Lemma find_if_app_r {A : Type} (p : A -> bool) (l l' : list A) :
  find_if p l = None ->
  find_if p (l ++ l') = (fun i => (List.length l + i)%nat) <$> find_if p l'.
Proof.
  induction l as [|a l IH]; cbn.
  - intros _. now destruct (find_if p l').
  - destruct (p a); [discriminate|].
    destruct (find_if p l); [discriminate|]. intros _.
    rewrite IH by reflexivity. now destruct (find_if p l').
Qed.

Lemma find_if_snoc {A : Type} (p : A -> bool) (l : list A) (x : A) :
  find_if p l = None -> p x = true ->
  find_if p (l ++ [x]) = Some (List.length l).
Proof.
  intros Hl Hx. rewrite find_if_app_r by exact Hl. cbn. rewrite Hx. cbn.
  now rewrite Nat.add_0_r.
Qed.

Lemma lookup_snoc {A : Type} (l : list A) (x : A) : (l ++ [x]) !! List.length l = Some x.
Proof. rewrite lookup_app_r by lia. now rewrite Nat.sub_diag. Qed.

Lemma delete_snoc {A : Type} (l : list A) (x : A) : delete (List.length l) (l ++ [x]) = l.
Proof. rewrite delete_middle. apply app_nil_r. Qed.

Lemma alter_snoc {A : Type} (f : A -> A) (l : list A) (x : A) :
  alter f (List.length l) (l ++ [x]) = l ++ [f x].
Proof.
  rewrite <- (Nat.add_0_r (List.length l)) at 1. now rewrite alter_app_r.
Qed.

Lemma fresh_for_disk b key :
  disk_record b key = None ->
  find_if (fun e => String.eqb (DiskElement.key e) key) (disk_index b) = None.
Proof.
  intros H. apply find_if_None, Forall_forall. intros e Hin.
  apply String.eqb_neq. revert e Hin. now apply disk_record_None.
Qed.

(** The buffer that a [Store] which finds room in memory leaves. *)
Lemma Store_fresh_in_memory b key value :
  in_service b -> fresh_for b key -> fits_in_memory b value ->
  Store b key value =
    (set_memory_index (memory_index b ++ [MemoryElement.create key value])
                      (add_memory_current (size value) b),
     Returned None).
Proof.
  intros Hs Hfresh (Hfits & Hspace). unfold Store. rewrite (Delete_fresh b key Hs Hfresh).
  cbn [fst]. unfold Store_after_Delete. rewrite (in_service_check b Hs).
  unfold StoreInMemory.
  destruct (Z.gtb_spec (size value) (Storage.max (memory_store_ b))); [lia|].
  unfold memory_fuel. rewrite WaitForSpaceInMemory_has_space by exact Hspace.
  cbn. destruct Hs as (-> & _). reflexivity.
Qed.

(** The buffer that a [Store] which goes straight to disk and finds room
    there leaves. *)
Lemma Store_fresh_on_disk b key value :
  in_service b -> fresh_for b key -> fits_on_disk b value ->
  Store b key value =
    (add_disk_current (size value)
       (set_disk_index (disk_index b ++ [DiskElement.make key kCompleted])
          (set_files (<[GetFilename b key := value]> (files b)) b)),
     Returned None).
Proof.
  intros Hs Hfresh ((Hlarge & Hfits) & Hspace & Hdir).
  unfold Store. rewrite (Delete_fresh b key Hs Hfresh).
  cbn [fst]. unfold Store_after_Delete. rewrite (in_service_check b Hs).
  unfold StoreInMemory.
  destruct (Z.gtb_spec (size value) (Storage.max (memory_store_ b))); [|lia].
  cbn [after_StoreInMemory]. unfold StoreOnDisk.
  destruct (Z.gtb_spec (size value) (Storage.max (disk_store_ b))); [lia|].
  unfold StoreOnDisk_resume.
  destruct Hfresh as (_ & Hrec). apply fresh_for_disk in Hrec.
  destruct Hs as (Hrun & _).
  destruct b as [m d pf pp kd f dok r w]. cbn in *. subst r dok.
  unfold HasSpace in *. cbn in *. rewrite Hspace. cbn.
  unfold FindStartedToStoreOnDisk, disk_index. cbn.
  rewrite find_if_app_r.
  2:{ apply find_if_None, Forall_forall. intros e Hin.
      apply find_if_None in Hrec. rewrite Forall_forall in Hrec.
      unfold disk_index in Hrec. cbn in Hrec. rewrite (Hrec e Hin). apply andb_false_r. }
  cbn. rewrite String.eqb_refl. cbn. rewrite Nat.add_0_r.
  unfold disk_index. cbn. rewrite alter_snoc. reflexivity.
Qed.

Lemma fresh_for_memory b key :
  ~ in_memory b key ->
  find_if (fun e => String.eqb (MemoryElement.key e) key) (memory_index b) = None.
Proof. intros H. now apply Find_memory_None. Qed.

Lemma Get_after_Store_in_memory b key value :
  in_service b -> fresh_for b key -> fits_in_memory b value ->
  Get (fst (Store b key value)) key = (fst (Store b key value), Returned (Some value)).
Proof.
  intros Hs Hfresh Hmem.
  rewrite (Store_fresh_in_memory b key value Hs Hfresh Hmem).
  cbn [fst]. unfold Get. rewrite in_service_check by exact Hs.
  destruct Hfresh as (Hout & _). apply fresh_for_memory in Hout.
  unfold Find_memory, memory_index in *. cbn.
  rewrite find_if_snoc; [|exact Hout|apply String.eqb_refl].
  now rewrite lookup_snoc.
Qed.

Lemma Get_after_Store_on_disk b key value :
  in_service b -> fresh_for b key -> fits_on_disk b value ->
  Get (fst (Store b key value)) key = (fst (Store b key value), Returned (Some value)).
Proof.
  intros Hs Hfresh Hdisk.
  rewrite (Store_fresh_on_disk b key value Hs Hfresh Hdisk).
  cbn [fst]. unfold Get. rewrite in_service_check by exact Hs.
  destruct Hfresh as (Hout & Hrec).
  apply fresh_for_memory in Hout. apply fresh_for_disk in Hrec.
  unfold Find_memory, memory_index in *. cbn. rewrite Hout.
  unfold Get_from_disk, Find_disk, disk_index in *. cbn.
  rewrite find_if_snoc; [|exact Hrec|apply String.eqb_refl].
  rewrite lookup_snoc. cbn. unfold ReadFile, GetFilename. cbn.
  now rewrite lookup_insert_eq.
Qed.

(** X6.  A value stored under a key that the buffer does not hold, when
    there is room for it without waiting, in memory or, for a value larger
    than the memory allows, on disk: [Store] returns normally, and [Get] of
    the key then returns that value and changes nothing. *)
Theorem Store_then_Get (b : DataBuffer) (key : Key) (value : Value) :
  in_service b -> fresh_for b key -> admits b value ->
  snd (Store b key value) = Returned None /\
  Get (fst (Store b key value)) key = (fst (Store b key value), Returned (Some value)).
Proof.
  intros Hs Hfresh [Hmem|Hdisk].
  - split; [|now apply Get_after_Store_in_memory].
    now rewrite (Store_fresh_in_memory b key value Hs Hfresh Hmem).
  - split; [|now apply Get_after_Store_on_disk].
    now rewrite (Store_fresh_on_disk b key value Hs Hfresh Hdisk).
Qed.

Lemma Store_then_Get_witness :
  snd (Get (fst (Store quiet_example "k" "v")) "k") = Returned (Some "v") /\
  snd (Get (fst (Store quiet_example "big" "vvv")) "big") = Returned (Some "vvv").
Proof.
  assert (forall key, key <> "m"%string -> fresh_for quiet_example key) as Hfresh.
  { intros key Hne. split.
    - intros (e & Hin & Hkey). apply list_elem_of_singleton in Hin. subst e.
      cbn in Hkey. congruence.
    - reflexivity. }
  assert (in_service quiet_example) as Hs by (split; [reflexivity|now left]).
  split.
  - destruct (Store_then_Get quiet_example "k" "v" Hs) as (_ & ->);
      [now apply Hfresh| |reflexivity].
    left. split; [now vm_compute|reflexivity].
  - destruct (Store_then_Get quiet_example "big" "vvv" Hs) as (_ & ->);
      [now apply Hfresh| |reflexivity].
    right. split; [split; now vm_compute|split; reflexivity].
Defined.

Lemma wrap64_add_sub c s : uint64 c -> wrap64 (wrap64 (c + s) + - s) = c.
Proof.
  intros H. rewrite wrap64_add_l. replace (c + s + - s) with c by lia.
  now apply wrap64_small.
Qed.

Lemma Get_fresh b key :
  in_service b -> fresh_for b key -> Get b key = (b, Threw no_such_element).
Proof.
  intros Hs (Hout & Hrec). unfold Get. rewrite in_service_check by exact Hs.
  apply Find_memory_None in Hout. rewrite Hout, Get_from_disk_record. now rewrite Hrec.
Qed.

Lemma Delete_after_Store_in_memory b key value :
  in_service b -> fresh_for b key -> uint64 (Storage.current (memory_store_ b)) ->
  fits_in_memory b value ->
  Delete (fst (Store b key value)) key = (b, None).
Proof.
  intros Hs Hfresh Hmc Hfit.
  rewrite (Store_fresh_in_memory b key value Hs Hfresh Hfit). cbn [fst].
  unfold Delete. rewrite in_service_check by exact Hs.
  destruct Hfresh as (Hout & _). apply fresh_for_memory in Hout.
  unfold DeleteFromMemory, Find_memory, memory_index in *. cbn.
  rewrite find_if_snoc; [|exact Hout|apply String.eqb_refl].
  rewrite lookup_snoc. cbn. unfold erase_memory, memory_index. cbn.
  rewrite lookup_snoc, delete_snoc. cbn.
  destruct b as [[mm mc ml] d pf pp kd f dok r w]. cbn in *.
  unfold set_memory_index, add_memory_current, set_memory_store. cbn.
  now rewrite wrap64_add_sub.
Qed.

Lemma Delete_after_Store_on_disk b key value :
  in_service b -> fresh_for b key -> uint64 (Storage.current (disk_store_ b)) ->
  fits_on_disk b value ->
  Delete (fst (Store b key value)) key =
    (set_files (delete (GetFilename b key) (files b)) b, None).
Proof.
  intros Hs Hfresh Hdc Hfit.
  rewrite (Store_fresh_on_disk b key value Hs Hfresh Hfit). cbn [fst].
  unfold Delete. rewrite in_service_check by exact Hs.
  destruct Hfresh as (Hout & Hrec).
  apply fresh_for_memory in Hout. apply fresh_for_disk in Hrec.
  unfold DeleteFromMemory, Find_memory, memory_index in *. cbn. rewrite Hout. cbn.
  unfold DeleteFromDisk, Find_disk, disk_index in *. cbn.
  rewrite find_if_snoc; [|exact Hrec|apply String.eqb_refl].
  rewrite lookup_snoc. cbn. unfold RemoveFile, GetFilename. cbn.
  rewrite lookup_insert_eq. cbn. rewrite delete_snoc, delete_insert_eq.
  destruct b as [m [dm dc dl] pf pp kd f dok r w]. cbn in *.
  unfold set_disk_index, add_disk_current, set_disk_store, set_files. cbn.
  now rewrite wrap64_add_sub.
Qed.

(** X7.  [Delete] undoes a [Store]: after a value was stored under a key
    that the buffer did not hold, with room for it, [Delete] of the key
    returns normally and leaves both indexes and both usage counters as
    they were before the [Store]; a value that went to memory leaves no
    trace at all, one that went to disk leaves no file.  [Get] of the key
    then throws [no_such_element]. *)
Theorem Store_then_Delete (b : DataBuffer) (key : Key) (value : Value) :
  in_service b -> fresh_for b key -> counters_in_range b ->
  (fits_in_memory b value ->
   Delete_call (fst (Store b key value)) key = (b, Returned None)) /\
  (fits_on_disk b value ->
   Delete_call (fst (Store b key value)) key =
     (set_files (delete (GetFilename b key) (files b)) b, Returned None)) /\
  (admits b value ->
   snd (Get (fst (Delete_call (fst (Store b key value)) key)) key) =
     Threw no_such_element).
Proof.
  intros Hs Hfresh (_ & Hmc & _ & Hdc).
  assert (fits_in_memory b value ->
          Delete_call (fst (Store b key value)) key = (b, Returned None)) as Hmem.
  { intros Hfit. unfold Delete_call.
    now rewrite (Delete_after_Store_in_memory b key value Hs Hfresh Hmc Hfit). }
  assert (fits_on_disk b value ->
          Delete_call (fst (Store b key value)) key =
            (set_files (delete (GetFilename b key) (files b)) b, Returned None)) as Hdisk.
  { intros Hfit. unfold Delete_call.
    now rewrite (Delete_after_Store_on_disk b key value Hs Hfresh Hdc Hfit). }
  split; [exact Hmem|]. split; [exact Hdisk|].
  intros [Hfit|Hfit].
  - rewrite (Hmem Hfit). cbn [fst]. now rewrite Get_fresh.
  - rewrite (Hdisk Hfit). cbn [fst]. rewrite Get_fresh; [reflexivity|exact Hs|].
    destruct Hfresh as (Hout & Hrec). split; [exact Hout|exact Hrec].
Qed.

Lemma Store_then_Delete_witness :
  Delete_call (fst (Store quiet_example "k" "v")) "k" = (quiet_example, Returned None) /\
  Delete_call (fst (Store quiet_example "big" "vvv")) "big" =
    (quiet_example, Returned None).
Proof.
  assert (forall key, key <> "m"%string -> fresh_for quiet_example key) as Hfresh.
  { intros key Hne. split.
    - intros (e & Hin & Hkey). apply list_elem_of_singleton in Hin. subst e.
      cbn in Hkey. congruence.
    - reflexivity. }
  assert (in_service quiet_example) as Hs by (split; [reflexivity|now left]).
  assert (counters_in_range quiet_example) as Hc by (repeat split; now vm_compute).
  split.
  - destruct (Store_then_Delete quiet_example "k" "v" Hs) as (H & _);
      [now apply Hfresh|exact Hc|].
    apply H. split; [now vm_compute|reflexivity].
  - destruct (Store_then_Delete quiet_example "big" "vvv" Hs) as (_ & H & _);
      [now apply Hfresh|exact Hc|].
    rewrite H; [reflexivity|].
    split; [split; now vm_compute|split; reflexivity].
Defined.

(** X8.  Storing twice under one key, on a buffer that did not hold the key
    and has no file left under its name, with room for either value and no
    other thread in between: the second [Store] leaves exactly what it
    would have left without the first, and [Get] returns the second
    value. *)
Theorem Store_again (b : DataBuffer) (key : Key) (v1 v2 : Value) :
  in_service b -> fresh_for b key -> counters_in_range b ->
  files b !! GetFilename b key = None ->
  admits b v1 -> admits b v2 ->
  Store (fst (Store b key v1)) key v2 = Store b key v2 /\
  snd (Get (fst (Store (fst (Store b key v1)) key v2)) key) = Returned (Some v2).
Proof.
  intros Hs Hfresh (_ & Hmc & _ & Hdc) Hfile H1 H2.
  assert (Store (fst (Store b key v1)) key v2 = Store b key v2) as Heq.
  { unfold Store at 1. unfold Store at 2. rewrite (Delete_fresh b key Hs Hfresh).
    destruct H1 as [H1|H1].
    - now rewrite (Delete_after_Store_in_memory b key v1 Hs Hfresh Hmc H1).
    - rewrite (Delete_after_Store_on_disk b key v1 Hs Hfresh Hdc H1).
      rewrite delete_id by exact Hfile. cbn [fst]. now destruct b. }
  split; [exact Heq|]. rewrite Heq. destruct H2 as [H2|H2].
  - now rewrite Get_after_Store_in_memory.
  - now rewrite Get_after_Store_on_disk.
Qed.

Lemma Store_again_witness :
  Store (fst (Store quiet_example "k" "v")) "k" "w" = Store quiet_example "k" "w" /\
  snd (Get (fst (Store (fst (Store quiet_example "k" "v")) "k" "w")) "k") =
    Returned (Some "w").
Proof.
  apply Store_again.
  - split; [reflexivity|now left].
  - split; [|reflexivity].
    intros (e & Hin & Hkey). apply list_elem_of_singleton in Hin. now subst e.
  - repeat split; now vm_compute.
  - reflexivity.
  - left. split; [now vm_compute|reflexivity].
  - left. split; [now vm_compute|reflexivity].
Defined.

(** ** The worker copies the oldest value that is only in memory *)

Lemma StoreOnDisk_with_room b key value :
  running_ b = true -> disk_record b key = None ->
  size value <= Storage.max (disk_store_ b) ->
  HasSpace (disk_store_ b) (size value) = true -> directory_ok b = true ->
  StoreOnDisk b key value =
    (add_disk_current (size value)
       (set_disk_index (disk_index b ++ [DiskElement.make key kCompleted])
          (set_files (<[GetFilename b key := value]> (files b)) b)),
     DiskWriteReturned).
Proof.
  intros Hrun Hrec Hfits Hspace Hdir. unfold StoreOnDisk.
  destruct (Z.gtb_spec (size value) (Storage.max (disk_store_ b))); [lia|].
  unfold StoreOnDisk_resume. apply fresh_for_disk in Hrec.
  destruct b as [m d pf pp kd f dok r w]. cbn in *. subst r dok.
  unfold HasSpace in *. cbn in *. rewrite Hspace. cbn.
  unfold FindStartedToStoreOnDisk, disk_index. cbn.
  rewrite find_if_app_r.
  2:{ apply find_if_None, Forall_forall. intros e Hin.
      apply find_if_None in Hrec. rewrite Forall_forall in Hrec.
      unfold disk_index in Hrec. cbn in Hrec. rewrite (Hrec e Hin). apply andb_false_r. }
  cbn. rewrite String.eqb_refl. cbn. rewrite Nat.add_0_r.
  unfold disk_index. cbn. rewrite alter_snoc. reflexivity.
Qed.

Lemma find_if_alter {A : Type} (p : A -> bool) (f : A -> A) (i : nat) (l : list A) :
  (forall x, p (f x) = p x) -> find_if p (alter f i l) = find_if p l.
Proof.
  intros Hf. revert i. induction l as [|a l IH]; intros [|i]; try reflexivity.
  - change (alter f 0%nat (a :: l)) with (f a :: l). cbn. now rewrite Hf.
  - change (alter f (S i) (a :: l)) with (a :: alter f i l). cbn. now rewrite IH.
Qed.

(** X9.  The worker's copy.  On a running buffer whose oldest element that
    is only in memory has a key without a record on disk and a value for
    which the disk has room, the worker, in two moves, writes the value to
    the file of the key, appends a [kCompleted] record for it, adds the
    size to [disk_store_.current], and marks the element [kCompleted]; the
    memory store is otherwise as before, and the worker is back at its
    wait.  The value can then be read back from disk. *)
Theorem worker_copies_oldest (b : DataBuffer) (i : nat) (e : MemoryElement.t) :
  running_ b = true -> directory_ok b = true ->
  FindOldestInMemoryOnly b = Some i -> memory_index b !! i = Some e ->
  Find_memory b (MemoryElement.key e) = Some i ->
  disk_record b (MemoryElement.key e) = None ->
  size (MemoryElement.value e) <= Storage.max (disk_store_ b) ->
  HasSpace (disk_store_ b) (size (MemoryElement.value e)) = true ->
  exists b1 b2,
    CopyQueueToDisk b AtWait = Some (b1, AtRelock (MemoryElement.key e)) /\
    CopyQueueToDisk b1 (AtRelock (MemoryElement.key e)) = Some (b2, AtWait) /\
    memory_index b2 =
      alter (MemoryElement.set_also_on_disk kCompleted) i (memory_index b) /\
    Storage.current (memory_store_ b2) = Storage.current (memory_store_ b) /\
    disk_index b2 = disk_index b ++ [DiskElement.make (MemoryElement.key e) kCompleted] /\
    Storage.current (disk_store_ b2) =
      wrap64 (Storage.current (disk_store_ b) + size (MemoryElement.value e)) /\
    files b2 = <[GetFilename b (MemoryElement.key e) := MemoryElement.value e]> (files b) /\
    Get_from_disk b2 (MemoryElement.key e) = (b2, Returned (Some (MemoryElement.value e))).
Proof.
  intros Hrun Hdir Hold He Hfind Hrec Hfits Hspace.
  set (b0 := set_memory_index
               (alter (MemoryElement.set_also_on_disk kStarted) i (memory_index b)) b).
  assert (StoreOnDisk b0 (MemoryElement.key e) (MemoryElement.value e) =
          (add_disk_current (size (MemoryElement.value e))
             (set_disk_index
                (disk_index b0 ++ [DiskElement.make (MemoryElement.key e) kCompleted])
                (set_files (<[GetFilename b0 (MemoryElement.key e) :=
                                MemoryElement.value e]> (files b0)) b0)),
           DiskWriteReturned)) as Hstore
    by (apply StoreOnDisk_with_room; assumption).
  eexists. eexists. split; [|split].
  - unfold CopyQueueToDisk. rewrite Hold, Hrun, He. cbn [isSome negb orb].
    fold b0. rewrite Hstore. reflexivity.
  - unfold CopyQueueToDisk.
    assert (forall b', memory_store_ b' = memory_store_ b0 ->
                       Find_memory b' (MemoryElement.key e) = Some i) as ->; [|reflexivity|].
    { intros b' Hb'. rewrite (Find_memory_ext b0 b' _ Hb'). rewrite <- Hfind.
      unfold Find_memory, b0, memory_index. cbn. apply find_if_alter. now intros []. }
    reflexivity.
  - assert (find_if (fun d => String.eqb (DiskElement.key d) (MemoryElement.key e))
                    (disk_index b) = None) as Hnone by now apply fresh_for_disk.
    cbn. unfold memory_index, disk_index. cbn. repeat split.
    + rewrite list_alter_alter_eq. apply list_alter_ext; [|reflexivity].
      now intros [].
    + unfold Get_from_disk, Find_disk, disk_index in *. cbn.
      rewrite find_if_snoc; [|exact Hnone|apply String.eqb_refl].
      rewrite lookup_snoc. cbn. unfold ReadFile, GetFilename. cbn.
      now rewrite lookup_insert_eq.
Qed.

Lemma worker_copies_oldest_witness :
  exists b1 b2,
    CopyQueueToDisk spill_example AtWait = Some (b1, AtRelock "m") /\
    CopyQueueToDisk b1 (AtRelock "m") = Some (b2, AtWait) /\
    memory_index b2 = [MemoryElement.make "m" "x" kCompleted] /\
    disk_index b2 = [DiskElement.make "d" kCompleted; DiskElement.make "m" kCompleted] /\
    Storage.current (disk_store_ b2) = 3 /\
    snd (Get_from_disk b2 "m") = Returned (Some "x").
Proof.
  destruct (worker_copies_oldest spill_example 0 (MemoryElement.make "m" "x" kNotStarted))
    as (b1 & b2 & H1 & H2 & H3 & _ & H5 & H6 & _ & H8);
    [reflexivity|reflexivity|reflexivity|reflexivity|reflexivity|reflexivity
    |now vm_compute|reflexivity|].
  cbn in H1, H2, H8. exists b1, b2. rewrite H3, H5, H6, H8.
  split; [exact H1|]. split; [exact H2|]. repeat split.
Defined.

(** ** What the pop functor is given *)

Lemma GetFilename_ext b b' key :
  kDiskBuffer_ b' = kDiskBuffer_ b -> GetFilename b' key = GetFilename b key.
Proof. intros H. unfold GetFilename. now rewrite H. Qed.

(** X10.  While [WaitForSpaceOnDisk] makes room, the pop functor is called
    for the records at the front of the disk index, oldest first, and for
    nothing else: the calls it adds are those for the first [n] records, in
    their order, every one of them [kCompleted], each with the content that
    the file of its key had; what is left of the index is the rest, less
    the caller's own record when that was cancelled.  Without a pop functor
    nothing is popped. *)
Theorem WaitForSpaceOnDisk_pops_oldest (fuel : nat) (b : DataBuffer) (key : Key)
  (required_space : Z) :
  let b' := fst (WaitForSpaceOnDisk fuel b key required_space) in
  exists (n : nat) (calls : list (Key * Value)),
    popped b' = popped b ++ calls /\
    calls.*1 = DiskElement.key <$> take n (disk_index b) /\
    Forall (fun e => DiskElement.state e = kCompleted) (take n (disk_index b)) /\
    Forall (fun kv => files b !! GetFilename b kv.1 = Some kv.2) calls /\
    (disk_index b' = drop n (disk_index b) \/
     exists i, disk_index b' = delete i (drop n (disk_index b))) /\
    (kPopFunctor_ b = false -> n = 0%nat).
Proof.
  revert b. induction fuel as [|fuel IH]; intros b; cbn zeta.
  { exists 0%nat, []. rewrite app_nil_r, drop_0. repeat split; auto. }
  assert (exists (n : nat) (calls : list (Key * Value)),
            popped b = popped b ++ calls /\
            calls.*1 = DiskElement.key <$> take n (disk_index b) /\
            Forall (fun e => DiskElement.state e = kCompleted) (take n (disk_index b)) /\
            Forall (fun kv => files b !! GetFilename b kv.1 = Some kv.2) calls /\
            (disk_index b = drop n (disk_index b) \/
             exists i, disk_index b = delete i (drop n (disk_index b))) /\
            (kPopFunctor_ b = false -> n = 0%nat)) as Hsame.
  { exists 0%nat, []. rewrite app_nil_r, drop_0. repeat split; auto. }
  simpl.
  destruct (negb (HasSpace (disk_store_ b) required_space) && running_ b); [|exact Hsame].
  destruct (Find_disk b key) as [i|]; [|exact Hsame].
  destruct (disk_index b !! i) as [e|]; [|exact Hsame].
  destruct (StoringState_eqb (DiskElement.state e) kCancelled).
  { exists 0%nat, []. cbn. rewrite app_nil_r, drop_0. repeat split; eauto. }
  destruct (kPopFunctor_ b) eqn:Hpop; [|exact Hsame].
  unfold FindOldestOnDisk.
  destruct (head (disk_index b)) as [oldest|] eqn:Hhead; [|exact Hsame].
  destruct (StoringState_eqb (DiskElement.state oldest) kCompleted) eqn:Hstate;
    [|exact Hsame].
  apply StoringState_eqb_eq in Hstate.
  destruct (RemoveFile b (DiskElement.key oldest) true) as [err|[b1 v]] eqn:Hrm;
    [exact Hsame|].
  clear Hsame. destruct (disk_index b) as [|first rest] eqn:Hidx; [discriminate|].
  injection Hhead as ->.
  unfold RemoveFile in Hrm.
  destruct (files b !! GetFilename b (DiskElement.key oldest)) as [content|] eqn:Hfile;
    [|discriminate].
  injection Hrm as <- <-. cbn [default].
  match goal with
  | |- context [WaitForSpaceOnDisk fuel ?x key required_space] =>
      destruct (IH x) as (n & calls & Hp & Hkeys & Hdone & Hfiles & Hrest & _)
  end.
  exists (S n), ((DiskElement.key oldest, content) :: calls).
  rewrite Hp. unfold disk_index in *. cbn in *. rewrite Hidx in *. cbn in *.
  repeat split.
  - now rewrite <- app_assoc.
  - now rewrite Hkeys.
  - now constructor.
  - constructor; [exact Hfile|].
    eapply Forall_impl; [exact Hfiles|]. intros [k v] Hkv. cbn in *.
    unfold GetFilename in *. cbn in Hkv.
    apply lookup_delete_Some in Hkv. apply Hkv.
  - exact Hrest.
  - discriminate.
Qed.

(** ** An exception of the worker that no caller sees *)

(** X11.  When the worker has ended with an exception while [running_] is
    still true, as it does when [RemoveFile] throws while it pops, the
    exception is rethrown by the first [CheckWorkerIsStillRunning], once.
    [Get] and [Delete] pass it on to their caller.  In [Store] that first
    check is the one inside [Delete], in the [try] block, so the exception
    is dropped: [Store] goes on as on a buffer without a failure, and when
    there is room in memory for a key that the buffer does not hold it
    returns normally.  After any of the three the future is empty and
    [running_] is true, so no later call reports the failure either. *)
Theorem worker_failure_lost_in_Store (b : DataBuffer) (key : Key) (value : Value)
  (e : CommonErrors) :
  running_ b = true -> worker_ b = ReadyThrew e ->
  Get b key = (set_worker Invalid b, Threw e) /\
  Delete_call b key = (set_worker Invalid b, Threw e) /\
  Store b key value = Store_after_Delete (set_worker Invalid b) key value /\
  in_service (set_worker Invalid b) /\
  (fresh_for b key -> fits_in_memory b value ->
   snd (Store b key value) = Returned None /\
   in_memory (fst (Store b key value)) key /\
   in_service (fst (Store b key value))).
Proof.
  intros Hrun Hw.
  assert (CheckWorkerIsStillRunning b = (set_worker Invalid b, Some e)) as Hcheck
    by (unfold CheckWorkerIsStillRunning; now rewrite Hw).
  assert (in_service (set_worker Invalid b)) as Hs by (split; [exact Hrun|now right]).
  assert (Store b key value = Store_after_Delete (set_worker Invalid b) key value) as Hstore.
  { unfold Store, Delete. now rewrite Hcheck. }
  split; [unfold Get; now rewrite Hcheck|].
  split; [unfold Delete_call, Delete; now rewrite Hcheck|].
  split; [exact Hstore|]. split; [exact Hs|].
  intros Hfresh Hfit. rewrite Hstore.
  assert (Store_after_Delete (set_worker Invalid b) key value =
          Store (set_worker Invalid b) key value) as ->.
  { unfold Store. now rewrite (Delete_fresh (set_worker Invalid b) key Hs Hfresh). }
  rewrite (Store_fresh_in_memory (set_worker Invalid b) key value Hs Hfresh Hfit).
  split; [reflexivity|]. split; [|exact Hs].
  exists (MemoryElement.create key value). split; [|reflexivity].
  unfold memory_index. cbn. apply elem_of_app. right. apply list_elem_of_here.
Qed.

Lemma worker_failure_lost_in_Store_witness :
  worker_ (buffer lost_failure_example) = ReadyThrew filesystem_io_error /\
  worker_pc lost_failure_example = Finished /\
  snd (Store (buffer lost_failure_example) "c" "z") = Returned None /\
  in_service (fst (Store (buffer lost_failure_example) "c" "z")).
Proof.
  split; [vm_compute; reflexivity|]. split; [vm_compute; reflexivity|].
  destruct (worker_failure_lost_in_Store (buffer lost_failure_example) "c" "z"
              filesystem_io_error) as (_ & _ & _ & _ & H);
    [vm_compute; reflexivity|vm_compute; reflexivity|].
  destruct H as (H1 & _ & H3).
  - assert (memory_index (buffer lost_failure_example) =
              [MemoryElement.make "b" "y" kStarted]) as Hm by (vm_compute; reflexivity).
    assert (disk_index (buffer lost_failure_example) =
              [DiskElement.make "a" kCompleted; DiskElement.make "b" kStarted]) as Hd
      by (vm_compute; reflexivity).
    split.
    + intros (x & Hin & Hkey). rewrite Hm in Hin.
      apply list_elem_of_singleton in Hin. now subst x.
    + unfold disk_record, Find_disk. rewrite Hd. reflexivity.
  - split; [now vm_compute|vm_compute; reflexivity].
  - split; [exact H1|exact H3].
Defined.

(** ** Waiting calls on a buffer that has stopped *)

Lemma WaitForSpaceOnDisk_not_running fuel b key required_space :
  running_ b = false ->
  WaitForSpaceOnDisk (S fuel) b key required_space = (b, DiskWaitOver false).
Proof. intros Hrun. simpl. rewrite Hrun. now rewrite andb_false_r. Qed.

Lemma StoreOnDisk_resume_not_running b key value :
  running_ b = false -> StoreOnDisk_resume b key value = (b, DiskWriteReturned).
Proof.
  intros Hrun. unfold StoreOnDisk_resume.
  rewrite WaitForSpaceOnDisk_not_running by exact Hrun. cbn. now rewrite Hrun.
Qed.

(** X12.  What [StopRunning] does to the calls that wait at the disk store.
    A [Store], or the worker, that waits for room on disk and is woken
    when [running_] is false returns normally: it writes no file and
    leaves the buffer, with its [kStarted] record, exactly as it was.  A
    [Get] that waits for that record and is woken goes back to waiting as
    long as the record is [kStarted]: the predicate of its wait does not
    look at [running_], so [StopRunning] does not release it. *)
Theorem waiting_at_disk_after_stop (b : DataBuffer) (key : Key) (e : DiskElement.t) :
  running_ b = false ->
  disk_record b key = Some e -> DiskElement.state e = kStarted ->
  (forall value,
     Resume b (InStoreOnDisk key value) = (b, Returned None) /\
     CopyQueueToDisk b (InWaitForSpaceOnDisk key value) = Some (b, AtRelock key)) /\
  Resume b (InGet key) = (b, Blocked (InGet key)) /\
  (forall value,
     Resume (fst (Resume b (InStoreOnDisk key value))) (InGet key) =
       (b, Blocked (InGet key))).
Proof.
  intros Hrun Hrec Hstate.
  assert (Resume b (InGet key) = (b, Blocked (InGet key))) as Hget.
  { cbn. now rewrite Get_from_disk_record, Hrec, Hstate. }
  split; [|split; [exact Hget|]].
  - intros value. cbn. now rewrite StoreOnDisk_resume_not_running.
  - intros value.
    assert (Resume b (InStoreOnDisk key value) = (b, Returned None)) as ->
      by (cbn; now rewrite StoreOnDisk_resume_not_running).
    exact Hget.
Qed.

Lemma waiting_at_disk_after_stop_witness :
  running_ (buffer stuck_Get_example) = false /\
  waiting stuck_Get_example = [InStoreOnDisk "k" "bb"; InGet "k"] /\
  Resume (buffer stuck_Get_example) (InStoreOnDisk "k" "bb") =
    (buffer stuck_Get_example, Returned None) /\
  Resume (buffer stuck_Get_example) (InGet "k") =
    (buffer stuck_Get_example, Blocked (InGet "k")).
Proof.
  split; [vm_compute; reflexivity|]. split; [vm_compute; reflexivity|].
  destruct (waiting_at_disk_after_stop (buffer stuck_Get_example) "k"
              (DiskElement.make "k" kStarted)) as (Hstore & Hget & _).
  - vm_compute. reflexivity.
  - vm_compute. reflexivity.
  - reflexivity.
  - split; [apply Hstore|exact Hget].
Defined.

(** ** [Delete] of a key whose copy to disk waits for room *)

Lemma delete_alter {A : Type} (f : A -> A) (i : nat) (l : list A) :
  delete i (alter f i l) = delete i l.
Proof.
  revert i. induction l as [|a l IH]; intros [|i]; try reflexivity.
  change (delete (S i) (alter f (S i) (a :: l))) with (a :: delete i (alter f i l)).
  now rewrite IH.
Qed.

Lemma WaitForSpaceOnDisk_cancelled fuel b key required_space i e :
  HasSpace (disk_store_ b) required_space = false -> running_ b = true ->
  Find_disk b key = Some i -> disk_index b !! i = Some e ->
  DiskElement.state e = kCancelled ->
  WaitForSpaceOnDisk (S fuel) b key required_space =
    (set_disk_index (delete i (disk_index b)) b, DiskWaitOver true).
Proof. intros Hspace Hrun Hfind He Hstate. simpl. now rewrite Hspace, Hrun, Hfind, He, Hstate. Qed.

(** X13.  [Delete] of a key whose record on disk is [kStarted], because the
    thread that copies the value waits for room on disk, returns normally:
    it erases the value from memory if it is there and marks the record
    [kCancelled].  When the copying thread, the worker or a [Store], is
    woken and there is still no room, it erases the record, writes no file,
    leaves [disk_store_.current] alone, and returns normally. *)
Theorem Delete_cancels_waiting_copy (b : DataBuffer) (key : Key) (value : Value)
  (i : nat) (e : DiskElement.t) :
  in_service b ->
  snd (DeleteFromMemory b key) <> kNotStarted ->
  Find_disk b key = Some i -> disk_index b !! i = Some e ->
  DiskElement.state e = kStarted ->
  HasSpace (disk_store_ b) (size value) = false ->
  let b0 := fst (DeleteFromMemory b key) in
  let b1 := set_disk_index (alter (DiskElement.set_state kCancelled) i (disk_index b)) b0 in
  let b2 := set_disk_index (delete i (disk_index b)) b0 in
  Delete_call b key = (b1, Returned None) /\
  Resume b1 (InStoreOnDisk key value) = (b2, Returned None) /\
  CopyQueueToDisk b1 (InWaitForSpaceOnDisk key value) = Some (b2, AtRelock key) /\
  files b2 = files b /\
  Storage.current (disk_store_ b2) = Storage.current (disk_store_ b).
Proof.
  intros Hs Hst Hfind He Hstate Hspace b0 b1 b2.
  assert (disk_store_ b0 = disk_store_ b /\ files b0 = files b /\
          running_ b0 = true /\ kPopFunctor_ b0 = kPopFunctor_ b) as (Hd & Hf & Hrun & Hpop).
  { subst b0. unfold DeleteFromMemory. destruct Hs as (Hrun & _).
    destruct (Find_memory b key) as [j|]; [|now repeat split].
    destruct (memory_index b !! j) as [x|] eqn:Hx; [|now repeat split].
    cbn. unfold erase_memory. rewrite Hx. now repeat split. }
  assert (StoreOnDisk_resume b1 key value = (b2, DiskWriteReturned)) as Hresume.
  { unfold StoreOnDisk_resume.
    rewrite (WaitForSpaceOnDisk_cancelled _ b1 key (size value) i
               (DiskElement.set_state kCancelled e)).
    - assert (disk_index b1 = alter (DiskElement.set_state kCancelled) i (disk_index b))
        as -> by reflexivity.
      rewrite delete_alter. subst b1 b2. cbn. rewrite Hrun. cbn.
      unfold set_disk_index. now destruct b0.
    - subst b1. unfold HasSpace in *. cbn. now rewrite Hd.
    - exact Hrun.
    - rewrite <- Hfind. unfold Find_disk, disk_index. subst b1. cbn.
      apply find_if_alter. now intros [].
    - assert (disk_index b1 = alter (DiskElement.set_state kCancelled) i (disk_index b))
        as -> by reflexivity.
      now rewrite list_lookup_alter_eq, He.
    - reflexivity. }
  split; [|split; [|split; [|split]]].
  - unfold Delete_call, Delete. rewrite (in_service_check b Hs).
    fold b0. destruct (DeleteFromMemory b key) as [b0' st] eqn:Hdel. cbn in Hst.
    apply StoringState_eqb_neq in Hst. rewrite Hst.
    subst b0. cbn [fst] in *. unfold DeleteFromDisk.
    assert (Find_disk b0' key = Some i) as ->
      by (rewrite <- Hfind; unfold Find_disk, disk_index; now rewrite Hd).
    assert (disk_index b0' = disk_index b) as -> by (unfold disk_index; now rewrite Hd).
    now rewrite He, Hstate.
  - cbn. now rewrite Hresume.
  - cbn. now rewrite Hresume.
  - exact Hf.
  - subst b2. cbn. now rewrite Hd.
Qed.

Lemma Delete_cancels_waiting_copy_witness :
  exists b1 b2,
    Delete_call waiting_copy_example "k" = (b1, Returned None) /\
    CopyQueueToDisk b1 (InWaitForSpaceOnDisk "k" "b") = Some (b2, AtRelock "k") /\
    memory_index b2 = [] /\
    disk_index b2 = [DiskElement.make "o" kCompleted] /\
    files b2 = files waiting_copy_example.
Proof.
  destruct (Delete_cancels_waiting_copy waiting_copy_example "k" "b" 1
              (DiskElement.make "k" kStarted))
    as (H1 & _ & H3 & H4 & _);
    [split; [reflexivity|now left]|discriminate|reflexivity|reflexivity|reflexivity
    |reflexivity|].
  eexists. eexists. split; [exact H1|]. split; [exact H3|].
  split; [reflexivity|]. split; [reflexivity|exact H4].
Defined.

(** ** The two limits *)

Lemma disk_max_RemoveFile b key want b' v :
  RemoveFile b key want = inr (b', v) ->
  Storage.max (disk_store_ b') = Storage.max (disk_store_ b).
Proof.
  unfold RemoveFile. destruct (files b !! GetFilename b key); [|discriminate].
  now intros [= <- _].
Qed.

Lemma disk_max_WaitForSpaceOnDisk fuel b key required_space :
  Storage.max (disk_store_ (fst (WaitForSpaceOnDisk fuel b key required_space))) =
    Storage.max (disk_store_ b).
Proof.
  revert b. induction fuel as [|fuel IH]; intros b; simpl; [reflexivity|].
  destruct (negb (HasSpace (disk_store_ b) required_space) && running_ b); [|reflexivity].
  destruct (Find_disk b key) as [i|]; [|reflexivity].
  destruct (disk_index b !! i) as [e|]; [|reflexivity].
  destruct (StoringState_eqb (DiskElement.state e) kCancelled); [reflexivity|].
  destruct (kPopFunctor_ b); [|reflexivity].
  destruct (FindOldestOnDisk b) as [oldest|]; [|reflexivity].
  destruct (StoringState_eqb (DiskElement.state oldest) kCompleted); [|reflexivity].
  destruct (RemoveFile b (DiskElement.key oldest) true) as [err|[b1 v]] eqn:Hrm;
    [reflexivity|].
  rewrite IH. cbn. now apply disk_max_RemoveFile in Hrm.
Qed.

Lemma disk_max_StoreOnDisk_finish r key value :
  Storage.max (disk_store_ (fst (StoreOnDisk_finish r key value))) =
    Storage.max (disk_store_ (fst r)).
Proof.
  destruct r as [b w]. cbn. destruct w; try reflexivity.
  destruct (negb (running_ b)); [reflexivity|]. destruct cancelled; [reflexivity|].
  unfold WriteFile. destruct (directory_ok b); [|reflexivity].
  destruct (FindStartedToStoreOnDisk _ key); reflexivity.
Qed.

Lemma disk_max_StoreOnDisk_resume b key value :
  Storage.max (disk_store_ (fst (StoreOnDisk_resume b key value))) =
    Storage.max (disk_store_ b).
Proof.
  unfold StoreOnDisk_resume.
  now rewrite disk_max_StoreOnDisk_finish, disk_max_WaitForSpaceOnDisk.
Qed.

Lemma disk_max_StoreOnDisk b key value :
  Storage.max (disk_store_ (fst (StoreOnDisk b key value))) = Storage.max (disk_store_ b).
Proof.
  unfold StoreOnDisk. destruct (size value >? Storage.max (disk_store_ b)); [reflexivity|].
  now rewrite disk_max_StoreOnDisk_resume.
Qed.

Lemma disk_max_after_StoreOnDisk r key value :
  Storage.max (disk_store_ (fst (after_StoreOnDisk r key value))) =
    Storage.max (disk_store_ (fst r)).
Proof. destruct r as [b w]. now destruct w. Qed.

Lemma disk_WaitForSpaceInMemory fuel in_wait b required_space :
  disk_store_ (fst (WaitForSpaceInMemory fuel in_wait b required_space)) = disk_store_ b.
Proof.
  revert in_wait b. induction fuel as [|fuel IH]; intros in_wait b; simpl; [reflexivity|].
  destruct (negb in_wait && HasSpace (memory_store_ b) required_space); [reflexivity|].
  destruct (FindMemoryRemovalCandidate b required_space) as [itr|]; [|reflexivity].
  destruct (negb (running_ b)); [reflexivity|].
  destruct itr as [i|]; rewrite IH; [apply disk_erase_memory|reflexivity].
Qed.

Lemma disk_StoreInMemory_finish r key value :
  disk_store_ (fst (StoreInMemory_finish r key value)) = disk_store_ (fst r).
Proof.
  destruct r as [b w]. cbn. destruct w; try reflexivity.
  destruct (negb (running_ b)); [|reflexivity]. now destruct (worker_ b).
Qed.

Lemma disk_max_after_StoreInMemory r key value :
  Storage.max (disk_store_ (fst (after_StoreInMemory r key value))) =
    Storage.max (disk_store_ (fst r)).
Proof.
  destruct r as [b m]. cbn. destruct m; try reflexivity.
  now rewrite disk_max_after_StoreOnDisk, disk_max_StoreOnDisk.
Qed.

Lemma disk_max_Store b key value :
  Storage.max (disk_store_ (fst (Store b key value))) = Storage.max (disk_store_ b).
Proof.
  unfold Store, Store_after_Delete.
  destruct (maxima_Delete b key) as (_ & Hd & _).
  destruct (maxima_CheckWorkerIsStillRunning (fst (Delete b key))) as (_ & Hc & _).
  destruct (CheckWorkerIsStillRunning (fst (Delete b key))) as [b0 [e|]]; cbn in *;
    [congruence|].
  rewrite disk_max_after_StoreInMemory. unfold StoreInMemory.
  destruct (size value >? Storage.max (memory_store_ b0)); [cbn; congruence|].
  rewrite disk_StoreInMemory_finish, disk_WaitForSpaceInMemory. congruence.
Qed.

Lemma disk_max_Resume b w :
  Storage.max (disk_store_ (fst (Resume b w))) = Storage.max (disk_store_ b).
Proof.
  destruct w as [key value|key value|key]; cbn.
  - rewrite disk_max_after_StoreInMemory. unfold StoreInMemory_resume.
    now rewrite disk_StoreInMemory_finish, disk_WaitForSpaceInMemory.
  - now rewrite disk_max_after_StoreOnDisk, disk_max_StoreOnDisk_resume.
  - now rewrite Get_from_disk_buffer.
Qed.

Lemma disk_max_worker_after_StoreOnDisk r key value b' pc :
  worker_after_StoreOnDisk r key value = Some (b', pc) ->
  Storage.max (disk_store_ b') = Storage.max (disk_store_ (fst r)).
Proof. destruct r as [b w]. destruct w; cbn; intros [= <- _]; reflexivity. Qed.

Lemma disk_max_CopyQueueToDisk b pc b' pc' :
  CopyQueueToDisk b pc = Some (b', pc') ->
  Storage.max (disk_store_ b') = Storage.max (disk_store_ b).
Proof.
  destruct pc as [|key value|key| |]; cbn.
  - destruct (negb (isSome (FindOldestInMemoryOnly b) || negb (running_ b)));
      [now intros [= <- _]|].
    destruct (negb (running_ b)); [now intros [= <- _]|].
    destruct (FindOldestInMemoryOnly b) as [i|]; [|now intros [= <- _]].
    destruct (memory_index b !! i) as [e|]; [|now intros [= <- _]].
    intros Hw. apply disk_max_worker_after_StoreOnDisk in Hw.
    now rewrite disk_max_StoreOnDisk in Hw.
  - intros Hw. apply disk_max_worker_after_StoreOnDisk in Hw.
    now rewrite disk_max_StoreOnDisk_resume in Hw.
  - destruct (Find_memory b key); now intros [= <- _].
  - now intros [= <- _].
  - now intros [= <- _].
Qed.

Lemma memory_max_Store b key value :
  Storage.max (memory_store_ (fst (Store b key value))) = Storage.max (memory_store_ b).
Proof.
  edestruct (kept_Store (fun _ => True) (fun _ _ => True)) with (b := b)
    as (_ & H & _); [..|exact H]; auto.
Qed.

Lemma memory_max_Resume b w :
  Storage.max (memory_store_ (fst (Resume b w))) = Storage.max (memory_store_ b).
Proof.
  edestruct (kept_Resume (fun _ => True) (fun _ _ => True)) with (b := b) (w := w)
    as (_ & H & _); [..|exact H]; auto.
  now destruct w.
Qed.

Lemma memory_max_CopyQueueToDisk b pc b' pc' :
  CopyQueueToDisk b pc = Some (b', pc') ->
  Storage.max (memory_store_ b') = Storage.max (memory_store_ b).
Proof.
  intros H.
  edestruct (kept_CopyQueueToDisk (fun _ => True)) with (b := b) as (_ & Hm);
    [..|exact H|exact Hm]; auto.
Qed.

Lemma same_limits_Get b key : same_limits b (fst (Get b key)).
Proof.
  unfold same_limits. rewrite memory_Get. split; [reflexivity|]. unfold Get.
  destruct (maxima_CheckWorkerIsStillRunning b) as (_ & Hc & _).
  destruct (CheckWorkerIsStillRunning b) as [b0 [e|]]; cbn in *; [congruence|].
  destruct (Find_memory b0 key) as [i|]; [destruct (memory_index b0 !! i)|];
    rewrite ?Get_from_disk_buffer; cbn; congruence.
Qed.

Lemma same_limits_Delete_call b key : same_limits b (fst (Delete_call b key)).
Proof.
  unfold same_limits, Delete_call. destruct (maxima_Delete b key) as (Hm & Hd & _).
  destruct (Delete b key) as [b' [e|]]; cbn in *; split; congruence.
Qed.

(** X14.  Only the two setters change a limit.  [Store], [Get] and
    [Delete], a call that comes back from a wait, and the worker leave
    [memory_store_.max] and [disk_store_.max] as they are, whatever else
    they do and however they end.  A setter changes its own limit only,
    and only to a value that keeps the memory limit at most the disk
    limit as it reads it; so every call, run from its first line to its
    last on a buffer where the memory limit is at most the disk limit,
    leaves it so.  (Nothing is said here of two setters that run at the
    same time: each tests the other store's limit under its own mutex
    only.) *)
Theorem limits_change_only_in_setters (b : DataBuffer) :
  (forall c, data_call c = true -> same_limits b (fst (run_call b c))) /\
  (forall w, same_limits b (fst (Resume b w))) /\
  (forall pc b' pc', CopyQueueToDisk b pc = Some (b', pc') -> same_limits b b') /\
  (forall m,
     Storage.max (disk_store_ (fst (SetMaxMemoryUsage b m))) = Storage.max (disk_store_ b) /\
     Storage.max (memory_store_ (fst (SetMaxDiskUsage b m))) =
       Storage.max (memory_store_ b)) /\
  (limits_ordered b -> forall c, limits_ordered (fst (run_call b c))).
Proof.
  assert (forall c, data_call c = true -> same_limits b (fst (run_call b c))) as Hcalls.
  { intros c Hc. destruct c as [key value|key|key|m|m]; try discriminate Hc; cbn.
    - split; [apply memory_max_Store|apply disk_max_Store].
    - apply same_limits_Get.
    - apply same_limits_Delete_call. }
  split; [exact Hcalls|]. split; [|split; [|split]].
  - intros w. split; [apply memory_max_Resume|apply disk_max_Resume].
  - intros pc b' pc' H.
    split; [now apply memory_max_CopyQueueToDisk in H|now apply disk_max_CopyQueueToDisk in H].
  - intros m. unfold SetMaxMemoryUsage, SetMaxDiskUsage.
    destruct (m >? Storage.max (disk_store_ b));
      destruct (Storage.max (memory_store_ b) >? m); split; reflexivity.
  - intros H c. unfold limits_ordered in *.
    destruct c as [key value|key|key|m|m].
    + destruct (Hcalls (CallStore key value) eq_refl) as (-> & ->). exact H.
    + destruct (Hcalls (CallGet key) eq_refl) as (-> & ->). exact H.
    + destruct (Hcalls (CallDelete key) eq_refl) as (-> & ->). exact H.
    + cbn. unfold SetMaxMemoryUsage.
      destruct (Z.gtb_spec m (Storage.max (disk_store_ b))); cbn; [exact H|lia].
    + cbn. unfold SetMaxDiskUsage.
      destruct (Z.gtb_spec (Storage.max (memory_store_ b)) m); cbn; [exact H|lia].
Qed.

Lemma limits_change_only_in_setters_witness :
  limits_ordered (fst (run_call quiet_example (CallSetMaxMemoryUsage 3))) /\
  run_call quiet_example (CallSetMaxMemoryUsage 5) = (quiet_example, Threw invalid_parameter) /\
  limits_ordered (fst (run_call quiet_example (CallSetMaxDiskUsage 1))) /\
  limits_ordered (fst (run_call quiet_example (CallStore "k" "v"))).
Proof.
  destruct (limits_change_only_in_setters quiet_example) as (_ & _ & _ & _ & H).
  assert (limits_ordered quiet_example) as H0 by now vm_compute.
  split; [apply (H H0)|]. split; [reflexivity|]. split; apply (H H0).
Defined.

(** ** [Get] only reads *)

(** X15.  [Get] changes nothing but the worker's future, which it empties
    when the worker has ended: both stores, the files, the calls made to
    the pop functor and [running_] are as before, whether [Get] returns,
    throws or starts to wait; and a [Get] that comes back from its wait
    changes nothing at all.  In particular a value read from disk is not
    moved to memory. *)
Theorem Get_only_reads (b : DataBuffer) (key : Key) :
  fst (Get b key) = fst (CheckWorkerIsStillRunning b) /\
  memory_store_ (fst (Get b key)) = memory_store_ b /\
  disk_store_ (fst (Get b key)) = disk_store_ b /\
  files (fst (Get b key)) = files b /\
  popped (fst (Get b key)) = popped b /\
  running_ (fst (Get b key)) = running_ b /\
  (worker_ (fst (Get b key)) = worker_ b \/ worker_ (fst (Get b key)) = Invalid) /\
  fst (Resume b (InGet key)) = b.
Proof.
  assert (fst (Get b key) = fst (CheckWorkerIsStillRunning b)) as H.
  { unfold Get. destruct (CheckWorkerIsStillRunning b) as [b0 [e|]]; [reflexivity|].
    destruct (Find_memory b0 key) as [i|]; [destruct (memory_index b0 !! i)|];
      now rewrite ?Get_from_disk_buffer. }
  split; [exact H|]. rewrite H. unfold CheckWorkerIsStillRunning.
  destruct (worker_ b) eqn:Hw; cbn; rewrite ?Hw; repeat split; auto;
    apply Get_from_disk_buffer.
Qed.

(** ** A [Store] that has to wait *)

Lemma WaitForSpaceInMemory_blocks fuel b required_space :
  running_ b = true -> HasSpace (memory_store_ b) required_space = false ->
  Forall (fun e => MemoryElement.also_on_disk e <> kCompleted) (memory_index b) ->
  WaitForSpaceInMemory (S fuel) false b required_space = (b, MemoryWaitBlocked).
Proof.
  intros Hrun Hspace Hnone. simpl. rewrite Hspace. cbn.
  unfold FindMemoryRemovalCandidate.
  assert (find_if (is_state kCompleted) (memory_index b) = None) as ->.
  { apply find_if_None. eapply Forall_impl; [exact Hnone|].
    intros e He. now apply StoringState_eqb_neq. }
  now rewrite Hspace, Hrun.
Qed.

Lemma WaitForSpaceOnDisk_blocks fuel b key required_space i e :
  HasSpace (disk_store_ b) required_space = false -> running_ b = true ->
  Find_disk b key = Some i -> disk_index b !! i = Some e ->
  DiskElement.state e <> kCancelled -> kPopFunctor_ b = false ->
  WaitForSpaceOnDisk (S fuel) b key required_space = (b, DiskWaitBlocked).
Proof.
  intros Hspace Hrun Hfind He Hstate Hpop. simpl.
  apply StoringState_eqb_neq in Hstate.
  now rewrite Hspace, Hrun, Hfind, He, Hstate, Hpop.
Qed.

(** X16.  [Store] waits instead of exceeding a limit.  For a key that the
    buffer does not hold: when the value is one that goes to memory, the
    memory has no room for it and holds no element that is [kCompleted],
    the call waits for room in memory and has changed nothing; when the
    value is too large for the memory, fits on disk, the disk has no room
    and no pop functor was given, the call waits for room on disk, having
    appended a [kStarted] record for the key and nothing else, so that a
    [Get] of the key waits with it. *)
Theorem Store_waits_when_full (b : DataBuffer) (key : Key) (value : Value) :
  in_service b -> fresh_for b key ->
  (size value <= Storage.max (memory_store_ b) ->
   HasSpace (memory_store_ b) (size value) = false ->
   Forall (fun e => MemoryElement.also_on_disk e <> kCompleted) (memory_index b) ->
   Store b key value = (b, Blocked (InStoreInMemory key value))) /\
  (Storage.max (memory_store_ b) < size value <= Storage.max (disk_store_ b) ->
   HasSpace (disk_store_ b) (size value) = false -> kPopFunctor_ b = false ->
   let b' := set_disk_index (disk_index b ++ [DiskElement.create key]) b in
   Store b key value = (b', Blocked (InStoreOnDisk key value)) /\
   Get b' key = (b', Blocked (InGet key))).
Proof.
  intros Hs Hfresh. split.
  - intros Hfits Hspace Hnone. unfold Store. rewrite (Delete_fresh b key Hs Hfresh).
    cbn [fst]. unfold Store_after_Delete. rewrite (in_service_check b Hs).
    unfold StoreInMemory.
    destruct (Z.gtb_spec (size value) (Storage.max (memory_store_ b))); [lia|].
    unfold memory_fuel.
    rewrite WaitForSpaceInMemory_blocks; [reflexivity|apply Hs|exact Hspace|exact Hnone].
  - intros (Hlarge & Hfits) Hspace Hpop b'.
    destruct Hfresh as (Hout & Hrec).
    pose proof (fresh_for_disk b key Hrec) as Hnone.
    assert (Find_disk b' key = Some (List.length (disk_index b))) as Hfind.
    { unfold Find_disk, b', disk_index in *. cbn.
      apply find_if_snoc; [exact Hnone|apply String.eqb_refl]. }
    assert (disk_index b' !! List.length (disk_index b) = Some (DiskElement.create key))
      as Hlook by (unfold b', disk_index; cbn; apply lookup_snoc).
    split.
    + unfold Store. rewrite (Delete_fresh b key Hs (conj Hout Hrec)).
      cbn [fst]. unfold Store_after_Delete. rewrite (in_service_check b Hs).
      unfold StoreInMemory.
      destruct (Z.gtb_spec (size value) (Storage.max (memory_store_ b))); [|lia].
      cbn [after_StoreInMemory]. unfold StoreOnDisk.
      destruct (Z.gtb_spec (size value) (Storage.max (disk_store_ b))); [lia|].
      fold b'. unfold StoreOnDisk_resume.
      assert (WaitForSpaceOnDisk (S (List.length (disk_index b'))) b' key (size value) =
              (b', DiskWaitBlocked)) as ->; [|reflexivity].
      eapply WaitForSpaceOnDisk_blocks;
        [exact Hspace|apply Hs|exact Hfind|exact Hlook|discriminate|exact Hpop].
    + unfold Get.
      assert (in_service b') as Hs' by exact Hs. rewrite (in_service_check b' Hs').
      apply Find_memory_None in Hout.
      assert (Find_memory b' key = None) as -> by exact Hout.
      unfold Get_from_disk. now rewrite Hfind, Hlook.
Qed.

Lemma Store_waits_when_full_witness :
  Store full_example "k" "v" = (full_example, Blocked (InStoreInMemory "k" "v")) /\
  snd (Store full_example "big" "vv") = Blocked (InStoreOnDisk "big" "vv") /\
  snd (Get (fst (Store full_example "big" "vv")) "big") = Blocked (InGet "big").
Proof.
  assert (forall key, key <> "m"%string -> key <> "d"%string -> fresh_for full_example key)
    as Hfresh.
  { intros key Hm Hd. split.
    - intros (e & Hin & Hkey). apply list_elem_of_singleton in Hin. subst e.
      cbn in Hkey. congruence.
    - apply disk_record_None. intros e Hin. apply list_elem_of_singleton in Hin.
      subst e. cbn. congruence. }
  assert (in_service full_example) as Hs by (split; [reflexivity|now left]).
  destruct (Store_waits_when_full full_example "k" "v" Hs) as (Hmem & _);
    [now apply Hfresh|].
  destruct (Store_waits_when_full full_example "big" "vv" Hs) as (_ & Hdisk);
    [now apply Hfresh|].
  split.
  - apply Hmem; [now vm_compute|reflexivity|].
    constructor; [discriminate|constructor].
  - destruct Hdisk as (H1 & H2); [split; now vm_compute|reflexivity|reflexivity|].
    rewrite H1. cbn [fst snd]. rewrite H2. split; reflexivity.
Defined.

(** ** With a pop functor nothing waits for room on disk *)

Lemma WaitForSpaceOnDisk_with_pop_functor fuel b key required_space :
  kPopFunctor_ b = true ->
  snd (WaitForSpaceOnDisk fuel b key required_space) <> DiskWaitBlocked.
Proof.
  revert b. induction fuel as [|fuel IH]; intros b Hpop; simpl; [discriminate|].
  destruct (negb (HasSpace (disk_store_ b) required_space) && running_ b); [|discriminate].
  destruct (Find_disk b key) as [i|]; [|discriminate].
  destruct (disk_index b !! i) as [e|]; [|discriminate].
  destruct (StoringState_eqb (DiskElement.state e) kCancelled); [discriminate|].
  rewrite Hpop.
  destruct (FindOldestOnDisk b) as [oldest|]; [|discriminate].
  destruct (StoringState_eqb (DiskElement.state oldest) kCompleted); [|discriminate].
  destruct (RemoveFile b (DiskElement.key oldest) true) as [err|[b1 v]] eqn:Hrm;
    [discriminate|].
  apply IH. cbn. unfold RemoveFile in Hrm.
  destruct (files b !! GetFilename b (DiskElement.key oldest)); [|discriminate].
  now injection Hrm as <- _.
Qed.

(** X17.  When a pop functor was given, no thread ever waits for room on
    disk: [StoreOnDisk], from its start or for a thread that comes back
    to it, never ends in [cond_var.wait], whatever the state of the buffer;
    and when none was given, making room pops nothing and removes no file,
    so the room has to come from [Delete] or a larger limit. *)
Theorem pop_functor_or_wait (b : DataBuffer) (key : Key) (value : Value) :
  (kPopFunctor_ b = true ->
   snd (StoreOnDisk b key value) <> DiskWriteBlocked /\
   snd (StoreOnDisk_resume b key value) <> DiskWriteBlocked) /\
  (kPopFunctor_ b = false ->
   forall fuel required_space,
     popped (fst (WaitForSpaceOnDisk fuel b key required_space)) = popped b /\
     files (fst (WaitForSpaceOnDisk fuel b key required_space)) = files b).
Proof.
  split.
  - intros Hpop.
    assert (forall b0, kPopFunctor_ b0 = true ->
                       snd (StoreOnDisk_resume b0 key value) <> DiskWriteBlocked) as Hres.
    { intros b0 Hpop0. unfold StoreOnDisk_resume.
      pose proof (WaitForSpaceOnDisk_with_pop_functor
                    (S (List.length (disk_index b0))) b0 key (size value) Hpop0) as Hw.
      destruct (WaitForSpaceOnDisk _ b0 key (size value)) as [b1 w]. cbn in *.
      destruct w; try discriminate; [|congruence].
      destruct (negb (running_ b1)); [discriminate|].
      destruct cancelled; [discriminate|]. destruct (WriteFile b1 key value); discriminate. }
    split; [|now apply Hres].
    unfold StoreOnDisk. destruct (size value >? Storage.max (disk_store_ b)); [discriminate|].
    now apply Hres.
  - intros Hpop fuel required_space. destruct fuel as [|fuel]; [now split|]. simpl.
    destruct (negb (HasSpace (disk_store_ b) required_space) && running_ b); [|now split].
    destruct (Find_disk b key) as [i|]; [|now split].
    destruct (disk_index b !! i) as [e|]; [|now split].
    destruct (StoringState_eqb (DiskElement.state e) kCancelled); [now split|].
    rewrite Hpop. now split.
Qed.

Lemma pop_functor_or_wait_witness :
  snd (StoreOnDisk (buffer popped_copy_example) "k" "vv") <> DiskWriteBlocked /\
  popped (fst (WaitForSpaceOnDisk 2 full_example "big" 2)) = popped full_example.
Proof.
  split.
  - apply (pop_functor_or_wait (buffer popped_copy_example) "k" "vv").
    vm_compute. reflexivity.
  - apply (pop_functor_or_wait full_example "big" "vv"). reflexivity.
Defined.

(** ** A [Store] waits for room in memory only when it has to *)

Lemma pinned_of_cons e l :
  pinned_of (e :: l) =
    if is_state kCompleted e then pinned_of l
    else size (MemoryElement.value e) + pinned_of l.
Proof. reflexivity. Qed.

Lemma pinned_of_none l :
  find_if (is_state kCompleted) l = None -> pinned_of l = usage_of l.
Proof.
  induction l as [|e l IH]; [reflexivity|]. cbn [find_if].
  rewrite pinned_of_cons, usage_of_cons.
  destruct (is_state kCompleted e); [discriminate|].
  destruct (find_if (is_state kCompleted) l); [discriminate|]. intros _.
  now rewrite IH.
Qed.

Lemma pinned_of_delete l i e :
  l !! i = Some e -> is_state kCompleted e = true ->
  pinned_of (delete i l) = pinned_of l.
Proof.
  revert i. induction l as [|x l IH]; intros [|i] H He; try discriminate.
  - injection H as ->. change (delete 0%nat (e :: l)) with l.
    now rewrite pinned_of_cons, He.
  - change (delete (S i) (x :: l)) with (x :: delete i l).
    now rewrite !pinned_of_cons, (IH i H He).
Qed.

Lemma memory_within_erase i b e :
  memory_within b -> memory_index b !! i = Some e ->
  memory_within (erase_memory i b) /\
  Storage.max (memory_store_ (erase_memory i b)) = Storage.max (memory_store_ b).
Proof.
  intros (Hmax & Hcur & Hle) He. unfold erase_memory. rewrite He.
  unfold memory_within in *. rewrite memory_usage_usage_of in *.
  unfold memory_index in *. cbn.
  change (foldr _ 0 (delete i ?l)) with (usage_of (delete i l)).
  pose proof (usage_of_delete _ _ _ He) as Hdel.
  pose proof (usage_of_nonneg (delete i (Storage.index (memory_store_ b)))) as Hnn.
  pose proof (size_nonneg (MemoryElement.value e)) as Hs.
  rewrite wrap64_small by (unfold uint64 in *; lia).
  repeat split; try apply Hmax; lia.
Qed.

Lemma HasSpace_when_room {I : Type} (store : Storage.t I) (required_space : Z) :
  uint64 (Storage.max store) -> 0 <= required_space ->
  Storage.current store + required_space <= Storage.max store ->
  Storage.current store >= 0 ->
  HasSpace store required_space = true.
Proof.
  intros Hmax Hreq Hroom Hcur. unfold HasSpace.
  rewrite wrap64_small by (unfold uint64 in *; lia). apply Z.leb_le. lia.
Qed.

Lemma WaitForSpaceInMemory_finds_room fuel in_wait b required_space :
  (List.length (memory_index b) + 2 <= fuel)%nat ->
  memory_within b -> running_ b = true -> 0 <= required_space ->
  pinned_usage b + required_space <= Storage.max (memory_store_ b) ->
  let r := WaitForSpaceInMemory fuel in_wait b required_space in
  snd r = MemoryWaitOver /\ running_ (fst r) = true /\ memory_within (fst r) /\
  HasSpace (memory_store_ (fst r)) required_space = true /\
  Storage.max (memory_store_ (fst r)) = Storage.max (memory_store_ b).
Proof.
  revert in_wait b. induction fuel as [|fuel IH]; intros in_wait b Hfuel Hin Hrun Hreq Hpin;
    [lia|].
  simpl.
  destruct (negb in_wait && HasSpace (memory_store_ b) required_space) eqn:Hfirst.
  { apply andb_true_iff in Hfirst. cbn.
    split; [reflexivity|]. split; [exact Hrun|]. split; [exact Hin|].
    split; [apply Hfirst|reflexivity]. }
  unfold FindMemoryRemovalCandidate.
  destruct (find_if (is_state kCompleted) (memory_index b)) as [i|] eqn:Hfind.
  - cbn. rewrite Hrun. cbn.
    destruct (find_if_lookup _ _ _ Hfind) as (e & He & Hdone).
    destruct (memory_within_erase i b e Hin He) as (Hin' & Hmax').
    destruct (IH false (erase_memory i b)) as (H1 & H2 & H3 & H4 & H5).
    + pose proof (erase_memory_length b i e He). lia.
    + exact Hin'.
    + now rewrite running_erase_memory.
    + exact Hreq.
    + rewrite Hmax'. unfold pinned_usage in *.
      assert (memory_index (erase_memory i b) = delete i (memory_index b)) as ->
        by (unfold erase_memory; now rewrite He).
      now rewrite (pinned_of_delete _ _ _ He Hdone).
    + split; [exact H1|]. split; [exact H2|]. split; [exact H3|].
      split; [exact H4|congruence].
  - assert (HasSpace (memory_store_ b) required_space = true) as Hspace.
    { destruct Hin as (Hmax & Hcur & Hle). unfold pinned_usage in Hpin.
      rewrite (pinned_of_none _ Hfind) in Hpin. rewrite memory_usage_usage_of in *.
      pose proof (usage_of_nonneg (memory_index b)).
      apply HasSpace_when_room; try assumption; lia. }
    rewrite Hspace, Hrun. cbn.
    destruct fuel as [|fuel]; [lia|].
    rewrite WaitForSpaceInMemory_has_space by exact Hspace. cbn.
    split; [reflexivity|]. split; [exact Hrun|]. split; [exact Hin|].
    split; [exact Hspace|reflexivity].
Qed.

Lemma StoreInMemory_finish_finds_room in_wait b key value :
  memory_within b -> running_ b = true ->
  pinned_usage b + size value <= Storage.max (memory_store_ b) ->
  let r := StoreInMemory_finish (WaitForSpaceInMemory (memory_fuel b) in_wait b (size value))
                                key value in
  snd r = WithoutLock /\ MemoryElement.create key value ∈ memory_index (fst r).
Proof.
  intros Hin Hrun Hpin.
  destruct (WaitForSpaceInMemory_finds_room (memory_fuel b) in_wait b (size value))
    as (H1 & H2 & _); try assumption; [unfold memory_fuel; lia|apply size_nonneg|].
  destruct (WaitForSpaceInMemory _ in_wait b (size value)) as [b1 w]. cbn in *. subst w.
  rewrite H2. cbn. split; [reflexivity|].
  unfold memory_index. cbn. apply elem_of_app. right. apply list_elem_of_here.
Qed.

(** X18.  [Store] does not wait for room in memory when erasing elements
    that are [kCompleted] is enough.  On a buffer whose memory usage is
    exact and within the limit, for a value that fits beside the elements
    that are not [kCompleted]: a [Store] that is woken in its wait, and a
    [Store] of a key that the buffer does not hold, return normally with the
    value in memory. *)
Theorem Store_finds_room (b : DataBuffer) (key : Key) (value : Value) :
  memory_within b ->
  pinned_usage b + size value <= Storage.max (memory_store_ b) ->
  (running_ b = true ->
   snd (Resume b (InStoreInMemory key value)) = Returned None /\
   MemoryElement.create key value ∈
     memory_index (fst (Resume b (InStoreInMemory key value)))) /\
  (in_service b -> fresh_for b key ->
   snd (Store b key value) = Returned None /\
   MemoryElement.create key value ∈ memory_index (fst (Store b key value))).
Proof.
  intros Hin Hpin. split.
  - intros Hrun. cbn. unfold StoreInMemory_resume.
    destruct (StoreInMemory_finish_finds_room true b key value Hin Hrun Hpin) as (H1 & H2).
    destruct (StoreInMemory_finish _ key value) as [b1 m]. cbn in *. now subst m.
  - intros Hs Hfresh. unfold Store. rewrite (Delete_fresh b key Hs Hfresh). cbn [fst].
    unfold Store_after_Delete. rewrite (in_service_check b Hs). unfold StoreInMemory.
    assert (0 <= pinned_usage b) as Hnn.
    { unfold pinned_usage. induction (memory_index b) as [|e l IH]; [reflexivity|].
      rewrite pinned_of_cons. pose proof (size_nonneg (MemoryElement.value e)).
      destruct (is_state kCompleted e); lia. }
    destruct (Z.gtb_spec (size value) (Storage.max (memory_store_ b))); [lia|].
    destruct (StoreInMemory_finish_finds_room false b key value Hin (proj1 Hs) Hpin)
      as (H1 & H2).
    destruct (StoreInMemory_finish _ key value) as [b1 m]. cbn in *. now subst m.
Qed.

Lemma Store_finds_room_witness :
  snd (Store reclaim_example "k" "vv") = Returned None /\
  memory_index (fst (Store reclaim_example "k" "vv")) =
    [MemoryElement.make "a" "x" kStarted; MemoryElement.make "k" "vv" kNotStarted].
Proof.
  split; [|vm_compute; reflexivity].
  apply (Store_finds_room reclaim_example "k" "vv").
  - unfold memory_within, uint64. repeat split; now vm_compute.
  - now vm_compute.
  - split; [reflexivity|now left].
  - split; [|reflexivity].
    intros (e & Hin & Hkey).
    repeat (apply elem_of_cons in Hin as [->|Hin]; [discriminate|]).
    inversion Hin.
Defined.

(** ** The worker after [StopRunning] *)





(** ** A waiting [Store] and a larger disk limit *)

(** X23.  Raising the disk limit releases a [Store] that waits for room on
    disk.  A [Store] of a key that the buffer does not hold, with a value
    too large for the memory, finds the disk full and waits.  When
    [SetMaxDiskUsage] then sets a limit under which there is room, it
    returns normally; the [Store], once woken, writes the file, marks its
    record [kCompleted], adds the size to [disk_store_.current] and returns
    normally; and [Get] of the key returns the value. *)
Theorem larger_disk_limit_releases_Store (b : DataBuffer) (key : Key) (value : Value)
  (max_disk_usage : Z) :
  in_service b -> fresh_for b key -> directory_ok b = true -> kPopFunctor_ b = false ->
  Storage.max (memory_store_ b) < size value <= Storage.max (disk_store_ b) ->
  HasSpace (disk_store_ b) (size value) = false ->
  Storage.max (memory_store_ b) <= max_disk_usage ->
  HasSpace (Storage.set_max max_disk_usage (disk_store_ b)) (size value) = true ->
  exists b1 b2 b3,
    Store b key value = (b1, Blocked (InStoreOnDisk key value)) /\
    SetMaxDiskUsage b1 max_disk_usage = (b2, Returned None) /\
    Resume b2 (InStoreOnDisk key value) = (b3, Returned None) /\
    Get b3 key = (b3, Returned (Some value)) /\
    disk_index b3 = disk_index b ++ [DiskElement.make key kCompleted] /\
    Storage.current (disk_store_ b3) =
      wrap64 (Storage.current (disk_store_ b) + size value) /\
    Storage.max (disk_store_ b3) = max_disk_usage.
Proof.
  intros Hs Hfresh Hdir Hpop Hsize Hfull Hlimit Hroom.
  set (b1 := set_disk_index (disk_index b ++ [DiskElement.create key]) b).
  set (b2 := set_disk_store (Storage.set_max max_disk_usage (disk_store_ b1)) b1).
  assert (Store b key value = (b1, Blocked (InStoreOnDisk key value))) as Hstore.
  { unfold Store. rewrite (Delete_fresh b key Hs Hfresh). cbn [fst].
    unfold Store_after_Delete. rewrite (in_service_check b Hs). unfold StoreInMemory.
    destruct (Z.gtb_spec (size value) (Storage.max (memory_store_ b))); [|lia].
    cbn [after_StoreInMemory]. unfold StoreOnDisk.
    destruct (Z.gtb_spec (size value) (Storage.max (disk_store_ b))); [lia|].
    fold b1. unfold StoreOnDisk_resume.
    rewrite (WaitForSpaceOnDisk_blocks _ b1 key (size value) (List.length (disk_index b))
               (DiskElement.create key)); [reflexivity|exact Hfull|apply Hs| | |discriminate
                                          |exact Hpop].
    - unfold Find_disk, b1, disk_index. cbn.
      apply find_if_snoc; [apply fresh_for_disk, Hfresh|apply String.eqb_refl].
    - unfold b1, disk_index. cbn. apply lookup_snoc. }
  assert (SetMaxDiskUsage b1 max_disk_usage = (b2, Returned None)) as Hset.
  { unfold SetMaxDiskUsage.
    destruct (Z.gtb_spec (Storage.max (memory_store_ b1)) max_disk_usage) as [Hgt|_];
      [|reflexivity].
    unfold b1 in Hgt. cbn in Hgt. lia. }
  destruct Hfresh as (Hout & Hrec). apply fresh_for_disk in Hrec.
  apply fresh_for_memory in Hout. destruct Hs as (Hrun & Hw).
  eexists b1, b2, _. split; [exact Hstore|]. split; [exact Hset|].
  assert (StoreOnDisk_resume b2 key value =
          (add_disk_current (size value)
             (set_disk_index (disk_index b ++ [DiskElement.make key kCompleted])
                (set_files (<[GetFilename b key := value]> (files b)) b2)),
           DiskWriteReturned)) as Hresume.
  { unfold StoreOnDisk_resume, b2, b1.
    destruct b as [m d pf pp kd f dok r w]. cbn in *. subst r dok.
    unfold HasSpace in *. cbn in *. rewrite Hroom. cbn.
    unfold FindStartedToStoreOnDisk, disk_index. cbn.
    rewrite find_if_app_r.
    2:{ apply find_if_None, Forall_forall. intros e Hin.
        apply find_if_None in Hrec. rewrite Forall_forall in Hrec.
        unfold disk_index in Hrec. cbn in Hrec. rewrite (Hrec e Hin). apply andb_false_r. }
    cbn. rewrite String.eqb_refl. cbn. rewrite Nat.add_0_r.
    unfold disk_index. cbn. rewrite alter_snoc. reflexivity. }
  split; [cbn; rewrite Hresume; reflexivity|].
  split; [|repeat split].
  unfold Get. rewrite in_service_check by (split; [exact Hrun|exact Hw]).
  unfold Find_memory, memory_index in *. cbn. rewrite Hout.
  unfold Get_from_disk, Find_disk, disk_index in *. cbn.
  rewrite find_if_snoc; [|exact Hrec|apply String.eqb_refl].
  rewrite lookup_snoc. cbn. unfold ReadFile, GetFilename. cbn.
  now rewrite lookup_insert_eq.
Qed.

Lemma larger_disk_limit_releases_Store_witness :
  exists b1 b2 b3,
    Store full_example "big" "vv" = (b1, Blocked (InStoreOnDisk "big" "vv")) /\
    SetMaxDiskUsage b1 4 = (b2, Returned None) /\
    Resume b2 (InStoreOnDisk "big" "vv") = (b3, Returned None) /\
    Get b3 "big" = (b3, Returned (Some "vv")).
Proof.
  destruct (larger_disk_limit_releases_Store full_example "big" "vv" 4)
    as (b1 & b2 & b3 & H1 & H2 & H3 & H4 & _).
  - split; [reflexivity|now left].
  - split.
    + intros (e & Hin & Hkey). apply list_elem_of_singleton in Hin. now subst e.
    + reflexivity.
  - reflexivity.
  - reflexivity.
  - split; now vm_compute.
  - reflexivity.
  - now vm_compute.
  - reflexivity.
  - exists b1, b2, b3.
    split; [exact H1|]. split; [exact H2|]. split; [exact H3|exact H4].
Defined.

(** * Properties of [MemoryBuffer] *)

Section MemoryBufferFacts.

Context {KeyType : Type} `{EqDecision KeyType}.

Implicit Types (mb : list (KeyType * Value)) (key : KeyType).

Lemma MemoryBuffer_Find_None mb key : MemoryBuffer.Find mb key = None <-> key ∉ mb.*1.
Proof.
  unfold MemoryBuffer.Find. rewrite find_if_None, Forall_forall. split.
  - intros H Hin. apply list_elem_of_fmap in Hin as ([k v] & -> & Hin).
    specialize (H _ Hin). cbn in H. now apply bool_decide_eq_false in H.
  - intros H [k v] Hin. cbn. apply bool_decide_eq_false. intros <-.
    apply H. apply list_elem_of_fmap. now exists (k, v).
Qed.

Lemma MemoryBuffer_Find_Some mb key itr :
  MemoryBuffer.Find mb key = Some itr ->
  exists front v back,
    mb = front ++ (key, v) :: back /\ List.length front = itr /\ key ∉ front.*1.
Proof.
  intros H. destruct (find_if_split _ _ _ H) as (front & [k v] & back & -> & Hlen & Hk & Hfront).
  cbn in Hk. apply bool_decide_eq_true in Hk. subst k.
  exists front, v, back. repeat split; [exact Hlen|].
  apply MemoryBuffer_Find_None. now apply find_if_None.
Qed.

Lemma MemoryBuffer_Get_absent mb key :
  MemoryBuffer.Get mb key = inl no_such_element <-> key ∉ mb.*1.
Proof.
  unfold MemoryBuffer.Get. destruct (MemoryBuffer.Find mb key) as [itr|] eqn:Hfind.
  - destruct (MemoryBuffer_Find_Some _ _ _ Hfind) as (front & v & back & -> & <- & _).
    rewrite lookup_app_r, Nat.sub_diag by lia. cbn. split; [discriminate|].
    intros Hout. exfalso. apply Hout. rewrite fmap_app. apply elem_of_app. right.
    cbn. apply list_elem_of_here.
  - split; [|reflexivity]. intros _. now apply MemoryBuffer_Find_None.
Qed.

Lemma MemoryBuffer_Get_throws mb key e :
  MemoryBuffer.Get mb key = inl e -> e = no_such_element.
Proof.
  unfold MemoryBuffer.Get. destruct (MemoryBuffer.Find mb key) as [itr|]; [|congruence].
  destruct (mb !! itr); congruence.
Qed.

Lemma MemoryBuffer_Get_present mb key v :
  keys_unique mb -> (MemoryBuffer.Get mb key = inr v <-> (key, v) ∈ mb).
Proof.
  intros Huniq. unfold MemoryBuffer.Get.
  destruct (MemoryBuffer.Find mb key) as [itr|] eqn:Hfind.
  - destruct (MemoryBuffer_Find_Some _ _ _ Hfind) as (front & v' & back & -> & <- & Hfront).
    rewrite lookup_app_r, Nat.sub_diag by lia. cbn. split.
    + intros [= <-]. apply elem_of_app. right. apply list_elem_of_here.
    + intros Hin. f_equal. unfold keys_unique in Huniq.
      rewrite fmap_app in Huniq. cbn in Huniq.
      apply NoDup_app in Huniq as (_ & _ & Hback). apply NoDup_cons in Hback as (Hback & _).
      apply elem_of_app in Hin as [Hin|Hin].
      * exfalso. apply Hfront. apply list_elem_of_fmap. now exists (key, v).
      * apply elem_of_cons in Hin as [Heq|Hin]; [congruence|].
        exfalso. apply Hback. apply list_elem_of_fmap. now exists (key, v).
  - split; [discriminate|]. intros Hin. exfalso.
    apply MemoryBuffer_Find_None in Hfind. apply Hfind.
    apply list_elem_of_fmap. now exists (key, v).
Qed.

Lemma MemoryBuffer_erase mb key itr :
  keys_unique mb -> MemoryBuffer.Find mb key = Some itr ->
  keys_unique (delete itr mb) /\ (key ∉ (delete itr mb).*1) /\
  forall key' v, key' <> key -> ((key', v) ∈ delete itr mb <-> (key', v) ∈ mb).
Proof.
  intros Huniq Hfind.
  destruct (MemoryBuffer_Find_Some _ _ _ Hfind) as (front & v' & back & -> & <- & Hfront).
  rewrite delete_middle. unfold keys_unique in *. rewrite fmap_app in *. cbn in Huniq.
  apply NoDup_app in Huniq as (Hf & Hdisj & Hb).
  apply NoDup_cons in Hb as (Hkey & Hb). repeat split.
  - apply NoDup_app. repeat split; [exact Hf| |exact Hb].
    intros k Hk Hk'. apply (Hdisj k Hk). apply elem_of_cons. now right.
  - intros Hin. apply elem_of_app in Hin as [Hin|Hin]; contradiction.
  - intros Hin. apply elem_of_app in Hin as [Hin|Hin]; apply elem_of_app;
      [now left|right; apply elem_of_cons; now right].
  - intros Hin. apply elem_of_app in Hin as [Hin|Hin]; apply elem_of_app; [now left|].
    apply elem_of_cons in Hin as [Heq|Hin]; [congruence|now right].
Qed.

Lemma keys_unique_drop mb n : keys_unique mb -> keys_unique (drop n mb).
Proof.
  unfold keys_unique. intros H0.
  eapply sublist_NoDup; [exact H0|]. apply fmap_sublist, sublist_drop.
Qed.

Lemma keys_unique_snoc mb key v :
  keys_unique mb -> key ∉ mb.*1 -> keys_unique (mb ++ [(key, v)]).
Proof.
  unfold keys_unique. intros Huniq Hout. rewrite fmap_app. cbn.
  apply NoDup_app. repeat split; [exact Huniq| |apply NoDup_singleton].
  intros k Hk Hk'. apply list_elem_of_singleton in Hk'. now subst k.
Qed.

(** What [Store] erases before it calls [push_back]. *)
Lemma MemoryBuffer_Store_erased mb key :
  keys_unique mb ->
  let erased :=
    match MemoryBuffer.Find mb key with Some itr => delete itr mb | None => mb end in
  keys_unique erased /\ (key ∉ erased.*1) /\
  forall key' v, key' <> key -> ((key', v) ∈ erased <-> (key', v) ∈ mb).
Proof.
  intros Huniq. destruct (MemoryBuffer.Find mb key) as [itr|] eqn:Hfind; cbn zeta.
  - now apply MemoryBuffer_erase.
  - repeat split; auto. now apply MemoryBuffer_Find_None.
Qed.

Section WithPushBack.

Variable push_back : list (KeyType * Value) -> KeyType * Value -> list (KeyType * Value).

Hypothesis push_back_drops : drops_from_front push_back.

Lemma MemoryBuffer_Store_unique mb key value :
  keys_unique mb -> keys_unique (MemoryBuffer.Store push_back mb key value).
Proof.
  intros Huniq. unfold MemoryBuffer.Store.
  destruct (MemoryBuffer_Store_erased mb key Huniq) as (Hu & Hout & _).
  destruct (push_back_drops
              (match MemoryBuffer.Find mb key with
               | Some itr => delete itr mb
               | None => mb
               end) (key, value)) as (n & ->).
  now apply keys_unique_drop, keys_unique_snoc.
Qed.

Lemma MemoryBuffer_Store_elements mb key value key' v :
  keys_unique mb -> (key', v) ∈ MemoryBuffer.Store push_back mb key value ->
  (key' = key /\ v = value) \/ (key' <> key /\ (key', v) ∈ mb).
Proof.
  intros Huniq. unfold MemoryBuffer.Store.
  destruct (MemoryBuffer_Store_erased mb key Huniq) as (_ & Hout & Hsame).
  destruct (push_back_drops
              (match MemoryBuffer.Find mb key with
               | Some itr => delete itr mb
               | None => mb
               end) (key, value)) as (n & ->).
  intros Hin. apply (subseteq_drop n) in Hin.
  apply elem_of_app in Hin as [Hin|Hin].
  - right. assert (key' <> key) as Hne.
    { intros ->. apply Hout. apply list_elem_of_fmap. now exists (key, v). }
    split; [exact Hne|]. now apply Hsame.
  - left. apply list_elem_of_singleton in Hin. now injection Hin.
Qed.

End WithPushBack.

End MemoryBufferFacts.

(** Distinct keys of a list that is written out. *)
Ltac keys_distinct :=
  unfold keys_unique; cbn;
  repeat (apply NoDup_cons_2;
          [let H := fresh in
           intros H; repeat (apply elem_of_cons in H as [H|H]; [discriminate H|]);
           inversion H|]);
  apply NoDup_nil_2.

Lemma bounded_push_back_drops {KeyType : Type} (capacity : nat) :
  drops_from_front (@bounded_push_back KeyType capacity).
Proof. intros l x. unfold bounded_push_back. eauto. Qed.

Lemma MemoryBuffer_Get_ext {KeyType : Type} `{EqDecision KeyType}
  (mb mb' : list (KeyType * Value)) (key : KeyType) :
  keys_unique mb -> keys_unique mb' ->
  (forall v, (key, v) ∈ mb' <-> (key, v) ∈ mb) ->
  MemoryBuffer.Get mb' key = MemoryBuffer.Get mb key.
Proof.
  intros Hu Hu' Hsame. destruct (MemoryBuffer.Get mb key) as [e|v] eqn:Hget.
  - pose proof (MemoryBuffer_Get_throws _ _ _ Hget) as ->.
    apply MemoryBuffer_Get_absent in Hget. apply MemoryBuffer_Get_absent.
    intros Hin. apply Hget.
    apply list_elem_of_fmap in Hin as ([k v] & -> & Hin). cbn in *.
    apply Hsame in Hin. apply list_elem_of_fmap. now exists (k, v).
  - apply (MemoryBuffer_Get_present _ _ _ Hu) in Hget.
    apply (MemoryBuffer_Get_present _ _ _ Hu'). now apply Hsame.
Qed.

(** X19.  [MemoryBuffer] never holds two elements with one key: [Store]
    erases the element of the key before it pushes the new one, so [Store]
    and [Delete] keep the keys distinct, for every container whose
    [push_back] appends and then at most drops elements from the front. *)
Theorem MemoryBuffer_keys_stay_unique {KeyType : Type} `{EqDecision KeyType}
  (push_back : list (KeyType * Value) -> KeyType * Value -> list (KeyType * Value))
  (mb : list (KeyType * Value)) (key : KeyType) (value : Value) :
  drops_from_front push_back -> keys_unique mb ->
  keys_unique (MemoryBuffer.Store push_back mb key value) /\
  forall mb', MemoryBuffer.Delete mb key = inr mb' -> keys_unique mb'.
Proof.
  intros Hpush Huniq. split.
  - now apply MemoryBuffer_Store_unique.
  - intros mb'. unfold MemoryBuffer.Delete.
    destruct (MemoryBuffer.Find mb key) as [itr|] eqn:Hfind; [|discriminate].
    intros [= <-]. exact (proj1 (MemoryBuffer_erase mb key itr Huniq Hfind)).
Qed.

Lemma MemoryBuffer_keys_stay_unique_witness :
  keys_unique (MemoryBuffer.Store (bounded_push_back 2) [("a", "x"); ("b", "y")] "a" "z") /\
  MemoryBuffer.Store (bounded_push_back 2) [("a", "x"); ("b", "y")] "a" "z" =
    [("b", "y"); ("a", "z")].
Proof.
  split; [|reflexivity].
  destruct (MemoryBuffer_keys_stay_unique (bounded_push_back 2) [("a", "x"); ("b", "y")]
              "a"%string "z") as (H & _);
    [apply bounded_push_back_drops|keys_distinct|exact H].
Defined.

(** X20.  [Get] after [Store], on a buffer with distinct keys and for every
    container whose [push_back] appends and then at most drops elements
    from the front.  [Get] of the stored key returns the new value, unless
    the container kept nothing at all; it never returns an older value.
    [Get] of another key returns what it returned before the [Store], or
    throws [no_such_element] when the container dropped that element. *)
Theorem MemoryBuffer_Get_after_Store {KeyType : Type} `{EqDecision KeyType}
  (push_back : list (KeyType * Value) -> KeyType * Value -> list (KeyType * Value))
  (mb : list (KeyType * Value)) (key : KeyType) (value : Value) :
  drops_from_front push_back -> keys_unique mb ->
  let mb' := MemoryBuffer.Store push_back mb key value in
  (MemoryBuffer.Get mb' key = inr value \/
   (mb' = [] /\ MemoryBuffer.Get mb' key = inl no_such_element)) /\
  forall key', key' <> key ->
    MemoryBuffer.Get mb' key' = MemoryBuffer.Get mb key' \/
    MemoryBuffer.Get mb' key' = inl no_such_element.
Proof.
  intros Hpush Huniq mb'.
  pose proof (MemoryBuffer_Store_unique push_back Hpush mb key value Huniq) as Huniq'.
  fold mb' in Huniq'. split.
  - destruct (MemoryBuffer.Get mb' key) as [e|v] eqn:Hget.
    + right. pose proof (MemoryBuffer_Get_throws _ _ _ Hget) as ->.
      split; [|reflexivity]. apply MemoryBuffer_Get_absent in Hget.
      subst mb'. unfold MemoryBuffer.Store in *.
      destruct (Hpush (match MemoryBuffer.Find mb key with
                       | Some itr => delete itr mb
                       | None => mb
                       end) (key, value)) as (n & Hn).
      rewrite Hn in *. clear Hn.
      set (erased := match MemoryBuffer.Find mb key with
                     | Some itr => delete itr mb
                     | None => mb
                     end) in *.
      destruct (decide (n <= List.length erased)%nat) as [Hle|Hgt].
      * exfalso. apply Hget. rewrite drop_app_le by exact Hle.
        rewrite fmap_app. apply elem_of_app. right. apply list_elem_of_here.
      * apply drop_ge. rewrite length_app. cbn. lia.
    + left. f_equal. apply (MemoryBuffer_Get_present _ _ _ Huniq') in Hget.
      destruct (MemoryBuffer_Store_elements push_back Hpush mb key value key v Huniq Hget)
        as [(_ & ->)|(Hne & _)]; [reflexivity|contradiction].
  - intros key' Hne. destruct (MemoryBuffer.Get mb' key') as [e|v] eqn:Hget.
    + right. now rewrite (MemoryBuffer_Get_throws _ _ _ Hget).
    + left. symmetry. apply (MemoryBuffer_Get_present _ _ _ Huniq).
      apply (MemoryBuffer_Get_present _ _ _ Huniq') in Hget.
      destruct (MemoryBuffer_Store_elements push_back Hpush mb key value key' v Huniq Hget)
        as [(-> & _)|(_ & Hin)]; [contradiction|exact Hin].
Qed.

Lemma MemoryBuffer_Get_after_Store_witness :
  let mb' := MemoryBuffer.Store (bounded_push_back 2) [("a", "x"); ("b", "y")] "c" "z" in
  MemoryBuffer.Get mb' "c" = inr "z" /\
  MemoryBuffer.Get mb' "b" = inr "y" /\
  MemoryBuffer.Get mb' "a" = inl no_such_element /\
  MemoryBuffer.Get (MemoryBuffer.Store (bounded_push_back 0) [] "c" "z") "c" =
    inl no_such_element.
Proof.
  destruct (MemoryBuffer_Get_after_Store (bounded_push_back 2) [("a", "x"); ("b", "y")]
              "c"%string "z") as (H1 & H2).
  - apply bounded_push_back_drops.
  - keys_distinct.
  - cbn zeta. destruct H1 as [H1|(H1 & _)]; [|discriminate H1].
    split; [exact H1|]. repeat split.
Defined.

(** X21.  [Delete] of [MemoryBuffer], on a buffer with distinct keys.  It
    throws, and then [no_such_element], exactly when [Get] of the key does;
    otherwise a [Get] of the key throws [no_such_element] afterwards, and
    [Get] of every other key returns what it returned before. *)
Theorem MemoryBuffer_Delete_then_Get {KeyType : Type} `{EqDecision KeyType}
  (mb : list (KeyType * Value)) (key : KeyType) :
  keys_unique mb ->
  (forall e, MemoryBuffer.Delete mb key = inl e -> e = no_such_element) /\
  (MemoryBuffer.Delete mb key = inl no_such_element <->
   MemoryBuffer.Get mb key = inl no_such_element) /\
  forall mb', MemoryBuffer.Delete mb key = inr mb' ->
    MemoryBuffer.Get mb' key = inl no_such_element /\
    forall key', key' <> key -> MemoryBuffer.Get mb' key' = MemoryBuffer.Get mb key'.
Proof.
  intros Huniq. unfold MemoryBuffer.Delete.
  destruct (MemoryBuffer.Find mb key) as [itr|] eqn:Hfind.
  - destruct (MemoryBuffer_erase mb key itr Huniq Hfind) as (Hu' & Hout & Hsame).
    split; [discriminate|]. split.
    + split; [discriminate|]. intros Hget. apply MemoryBuffer_Get_absent in Hget.
      apply MemoryBuffer_Find_None in Hget. congruence.
    + intros mb' [= <-]. split; [now apply MemoryBuffer_Get_absent|].
      intros key' Hne. apply MemoryBuffer_Get_ext; try assumption.
      intros v. now apply Hsame.
  - split; [congruence|]. split; [|discriminate].
    split; [|reflexivity]. intros _. apply MemoryBuffer_Get_absent.
    now apply MemoryBuffer_Find_None.
Qed.

Lemma MemoryBuffer_Delete_then_Get_witness :
  MemoryBuffer.Delete [("a", "x"); ("b", "y")] "a" = inr [("b", "y")] /\
  MemoryBuffer.Get [("b", "y")] "a" = inl no_such_element /\
  MemoryBuffer.Get [("b", "y")] "b" = inr "y" /\
  MemoryBuffer.Delete [("b", "y")] "a" = inl no_such_element.
Proof.
  destruct (MemoryBuffer_Delete_then_Get [("a", "x"); ("b", "y")] "a"%string)
    as (_ & _ & H).
  - keys_distinct.
  - destruct (H [("b", "y")] eq_refl) as (H1 & H2).
    split; [reflexivity|]. split; [exact H1|]. split; [|reflexivity].
    now rewrite (H2 "b"%string).
Defined.
